(** * Activity-to-operation reconciliation of the Veritas data migration

    A shallow embedding of the reconciliation code of
    [scripts/import-case-data.js] (class [LegacyCaseDataSeeder], the full
    run) and [scripts/migrate-specific-activity.js] (class
    [SpecificActivityMigrator], one activity), and the properties of the
    specification that are about it.

    Conventions of the embedding.
    - Target-store identifiers (the [uuidv4()] strings) are natural numbers
      drawn from a counter kept in the state; [uuidv4] returns the counter and
      increments it, so a store whose identifiers are all below the counter
      never sees a minted identifier twice.
    - Legacy identifiers read from the extracted JSON are numbers or [null]:
      [option Z].  The [legacy_id] columns of the target store are
      [VARCHAR(255)]: [option string]; [x.toString()] of a number is its
      decimal rendering [pretty].
    - A SQL table is the list of its rows, a [SELECT] is a [filter] and
      [rows[0]] the head of the result.
    - The two JavaScript classes share most of their methods; the methods
      take the script as a parameter where the two files differ.
    - An [async] method is a state transformer that either returns a value
      or throws; rows written before a throw stay written.
    - Timestamps and the constant columns [request_id], [synced_inventory]
      and [reverted_on_inventory] are left out of the rows. *)

From Stdlib Require Import ZArith Ascii String List Lia.
From stdpp Require Import base decidable option list gmap strings pretty fin_maps.


(** ** JavaScript values *)

Definition uuid := nat.

(** Truthiness of a number-or-null: [null] and [0] are falsy. *)
Definition truthy (v : option Z) : bool :=
  match v with
  | Some n => negb (n =? 0)%Z
  | None => false
  end.

(** [a || b] *)
Definition js_or (a b : option Z) : option Z := if truthy a then a else b.

(** [n.toString()] *)
Definition toString (n : Z) : string := pretty n.

(** Keys of a JavaScript [Map]: compared by SameValueZero, so the number [7]
    and the string ["7"] are different keys. *)
Inductive MapKey :=
  | KNull
  | KNum (n : Z)
  | KStr (s : string).

#[global] Instance MapKey_eq_dec : EqDecision MapKey.
Proof. solve_decision. Defined.

Definition MapKey_enc (k : MapKey) : option (Z + string) :=
  match k with
  | KNull => None
  | KNum n => Some (inl n)
  | KStr s => Some (inr s)
  end.

Definition MapKey_dec (x : option (Z + string)) : MapKey :=
  match x with
  | None => KNull
  | Some (inl n) => KNum n
  | Some (inr s) => KStr s
  end.

#[global] Instance MapKey_countable : Countable MapKey.
Proof. apply (inj_countable' MapKey_enc MapKey_dec). by intros []. Defined.

(** The key a legacy value read from JSON makes. *)
Definition num_key (v : option Z) : MapKey :=
  match v with
  | Some n => KNum n
  | None => KNull
  end.

(** The key a [legacy_id] column value makes. *)
Definition col_key (v : option string) : MapKey :=
  match v with
  | Some s => KStr s
  | None => KNull
  end.

(** ** Legacy records (extracted JSON) *)

Record Activity := {
  ActivityID : Z;
  AccountID : option Z;
  TransactionType : string;
  Status : Z
}.

Record ActivityDetail := {
  ActivityDetailID : Z;
  detail_ActivityID : option Z;
  ActivityType : string;
  CaseID : option Z;
  CaseDetailID : option Z;
  WineItemID : option Z;
  BottleSizeID : option Z;
  VintageID : option Z;
  Quantity : Z
}.

Record CaseDetail := {
  legacy_case_detail_id : Z;
  legacy_case_id : option Z;
  legacy_wine_item_id : option Z;
  legacy_bottle_size_id : option Z;
  legacy_vintage_id : option Z;
  WineQuantity : option Z
}.

Record LegacyData := {
  activities : list Activity;
  activityDetails : list ActivityDetail;
  caseDetails : list CaseDetail
}.

(** ** Target store rows *)

Inductive OperationStatus := processed | on_hold | confirmed | pending.
Inductive OperationType := deposit | withdrawal | transfer | other.

#[global] Instance OperationStatus_eq_dec : EqDecision OperationStatus.
Proof. solve_decision. Defined.
#[global] Instance OperationType_eq_dec : EqDecision OperationType.
Proof. solve_decision. Defined.

(** Rows of [users] (the legacy column is [legacy_user_id]), [cases],
    [wine_bottle_formats] and [wine_bottle_vintages]. *)
Record LegacyRow := {
  row_id : uuid;
  row_tenant_id : uuid;
  row_legacy_id : option string
}.

Record WineRow := {
  wine_id : uuid;
  wine_tenant_id : uuid;
  wine_legacy_id : option string;
  wine_description : string
}.

Record OperationGroupRow := {
  og_id : uuid;
  og_tenant_id : uuid;
  og_customer_id : uuid;
  og_status : option OperationStatus
}.

Record CaseOperationRow := {
  co_id : uuid;
  co_tenant_id : uuid;
  co_case_id : uuid;
  co_type : option OperationType;
  co_status : option OperationStatus;
  co_logs : string;
  co_group_id : uuid
}.

Record WineInventoryEntryRow := {
  wie_id : uuid;
  wie_tenant_id : uuid;
  wie_operation_id : option uuid;
  wie_wine_id : uuid;
  wie_bottle_format_id : uuid;
  wie_bottle_vintage_id : uuid;
  wie_amount : Z;
  wie_case_id : option uuid
}.

Record DataSource := {
  users : list LegacyRow;
  cases : list LegacyRow;
  wines : list WineRow;
  wine_bottle_formats : list LegacyRow;
  wine_bottle_vintages : list LegacyRow;
  operations_groups : list OperationGroupRow;
  cases_operations : list CaseOperationRow;
  wine_inventory_entries : list WineInventoryEntryRow
}.

(** ** The mutable state of a run: the target store, the identifier supply
    and the three memoization maps of the class instance. *)
Record Store := {
  dataSource : DataSource;
  uuid_supply : nat;
  wineMapId : gmap MapKey uuid;
  bottleFormatMapId : gmap MapKey uuid;
  bottleVintageMapId : gmap MapKey uuid
}.

Definition with_dataSource (f : DataSource -> DataSource) (s : Store) : Store :=
  {| dataSource := f (dataSource s);
     uuid_supply := uuid_supply s;
     wineMapId := wineMapId s;
     bottleFormatMapId := bottleFormatMapId s;
     bottleVintageMapId := bottleVintageMapId s |}.

Definition with_wines (f : list WineRow -> list WineRow) (d : DataSource) : DataSource :=
  {| users := users d; cases := cases d; wines := f (wines d);
     wine_bottle_formats := wine_bottle_formats d;
     wine_bottle_vintages := wine_bottle_vintages d;
     operations_groups := operations_groups d;
     cases_operations := cases_operations d;
     wine_inventory_entries := wine_inventory_entries d |}.

Definition with_operations_groups
    (f : list OperationGroupRow -> list OperationGroupRow) (d : DataSource) : DataSource :=
  {| users := users d; cases := cases d; wines := wines d;
     wine_bottle_formats := wine_bottle_formats d;
     wine_bottle_vintages := wine_bottle_vintages d;
     operations_groups := f (operations_groups d);
     cases_operations := cases_operations d;
     wine_inventory_entries := wine_inventory_entries d |}.

Definition with_cases_operations
    (f : list CaseOperationRow -> list CaseOperationRow) (d : DataSource) : DataSource :=
  {| users := users d; cases := cases d; wines := wines d;
     wine_bottle_formats := wine_bottle_formats d;
     wine_bottle_vintages := wine_bottle_vintages d;
     operations_groups := operations_groups d;
     cases_operations := f (cases_operations d);
     wine_inventory_entries := wine_inventory_entries d |}.

Definition with_wine_inventory_entries
    (f : list WineInventoryEntryRow -> list WineInventoryEntryRow) (d : DataSource) : DataSource :=
  {| users := users d; cases := cases d; wines := wines d;
     wine_bottle_formats := wine_bottle_formats d;
     wine_bottle_vintages := wine_bottle_vintages d;
     operations_groups := operations_groups d;
     cases_operations := cases_operations d;
     wine_inventory_entries := f (wine_inventory_entries d) |}.

Definition with_wineMapId (f : gmap MapKey uuid -> gmap MapKey uuid) (s : Store) : Store :=
  {| dataSource := dataSource s;
     uuid_supply := uuid_supply s;
     wineMapId := f (wineMapId s);
     bottleFormatMapId := bottleFormatMapId s;
     bottleVintageMapId := bottleVintageMapId s |}.

Definition with_bottleFormatMapId (f : gmap MapKey uuid -> gmap MapKey uuid) (s : Store) : Store :=
  {| dataSource := dataSource s;
     uuid_supply := uuid_supply s;
     wineMapId := wineMapId s;
     bottleFormatMapId := f (bottleFormatMapId s);
     bottleVintageMapId := bottleVintageMapId s |}.

Definition with_bottleVintageMapId (f : gmap MapKey uuid -> gmap MapKey uuid) (s : Store) : Store :=
  {| dataSource := dataSource s;
     uuid_supply := uuid_supply s;
     wineMapId := wineMapId s;
     bottleFormatMapId := bottleFormatMapId s;
     bottleVintageMapId := f (bottleVintageMapId s) |}.

(** ** Asynchronous methods: state and exceptions *)

Inductive Completion (A : Type) :=
  | Normal (a : A)
  | Throw (e : string).
Arguments Normal {A} a.
Arguments Throw {A} e.

Definition Async (A : Type) : Type := Store -> Completion A * Store.

Definition ret {A} (a : A) : Async A := fun s => (Normal a, s).

Definition bind {A B} (m : Async A) (k : A -> Async B) : Async B :=
  fun s =>
    match m s with
    | (Normal a, s') => k a s'
    | (Throw e, s') => (Throw e, s')
    end.

Definition throw {A} (e : string) : Async A := fun s => (Throw e, s).

(** [try { m } catch (error) { h }] *)
Definition try_catch {A} (m : Async A) (h : Async A) : Async A :=
  fun s =>
    match m s with
    | (Normal a, s') => (Normal a, s')
    | (Throw _, s') => h s'
    end.

Definition gets {A} (f : Store -> A) : Async A := fun s => (Normal (f s), s).
Definition modify (f : Store -> Store) : Async unit := fun s => (Normal tt, f s).

Declare Scope async_scope.
Delimit Scope async_scope with async.
Notation "x <- m ;; k" := (bind m (fun x => k))
  (at level 100, m at next level, right associativity) : async_scope.
Notation "m ;;; k" := (bind m (fun _ => k))
  (at level 100, right associativity) : async_scope.
Local Open Scope async_scope.

(** [for (const x of xs) { await body(x) }] *)
Fixpoint for_of {A} (xs : list A) (body : A -> Async unit) : Async unit :=
  match xs with
  | [] => ret tt
  | x :: xs' => body x ;;; for_of xs' body
  end.

Definition TypeError : string := "TypeError".

(** [v.toString()] of a number-or-null. *)
Definition toString_of (v : option Z) : Async string :=
  match v with
  | Some n => ret (toString n)
  | None => throw TypeError
  end.

Definition uuidv4 : Async uuid :=
  fun s => (Normal (uuid_supply s),
            {| dataSource := dataSource s;
               uuid_supply := S (uuid_supply s);
               wineMapId := wineMapId s;
               bottleFormatMapId := bottleFormatMapId s;
               bottleVintageMapId := bottleVintageMapId s |}).

(** The two scripts. *)
Inductive Script := ImportCaseData | MigrateSpecificActivity.

(** ** Status and kind mappings *)

(** [parseActivityStatus(status)]: the [switch] of import-case-data.js has no
    [default] and falls through to [undefined] ([None]); the one of
    migrate-specific-activity.js has [default: return "pending"]. *)
Definition parseActivityStatus (sc : Script) (status : Z) : option OperationStatus :=
  match status with
  | 1%Z => Some processed
  | 2%Z => Some on_hold
  | 3%Z => Some confirmed
  | 4%Z => Some on_hold
  | _ =>
      match sc with
      | ImportCaseData => None
      | MigrateSpecificActivity => Some pending
      end
  end.

(** [parseActivityTransactionType(activity)] *)
Definition parseActivityTransactionType (sc : Script) (activity : Activity)
    : option OperationType :=
  if String.eqb (TransactionType activity) "D" then Some deposit
  else if String.eqb (TransactionType activity) "W" then Some withdrawal
  else
    match sc with
    | ImportCaseData => None
    | MigrateSpecificActivity =>
        if String.eqb (TransactionType activity) "T" then Some transfer
        else Some other
    end.

(** ** The reconciler

    The methods of the two classes that reconcile one activity.  [sc] says
    which script runs; [defaultTenantId], [legacyData] and [caseIdMap] are the
    fields [this.defaultTenantId], [this.legacyData] and [this.caseIdMap],
    which no method below assigns. *)

Definition dquote : string := String "034"%char EmptyString.

(** String concatenation with a number-or-null operand. *)
Definition js_string (v : option Z) : string :=
  match v with
  | Some n => toString n
  | None => "null"
  end.

Section Reconciler.

Context (sc : Script).
Context (defaultTenantId : uuid).
Context (legacyData : LegacyData).
Context (caseIdMap : gmap MapKey uuid).

(** *** Inventory ledger writer *)

(** The rows the [SELECT id, amount FROM wine_inventory_entries WHERE ...]
    of [createCaseOperationInventoryEntry] returns. *)
Definition entry_matches (caseOperationId wineId bottleFormatId bottleVintageId : uuid)
    (e : WineInventoryEntryRow) : bool :=
  bool_decide (wie_tenant_id e = defaultTenantId)
  && bool_decide (wie_operation_id e = Some caseOperationId)
  && bool_decide (wie_wine_id e = wineId)
  && bool_decide (wie_bottle_format_id e = bottleFormatId)
  && bool_decide (wie_bottle_vintage_id e = bottleVintageId).

Definition select_entries (caseOperationId wineId bottleFormatId bottleVintageId : uuid)
    (s : Store) : list WineInventoryEntryRow :=
  List.filter (entry_matches caseOperationId wineId bottleFormatId bottleVintageId)
    (wine_inventory_entries (dataSource s)).

(** [UPDATE wine_inventory_entries SET amount = $1 WHERE id = $2] *)
Definition set_amount (newAmount : Z) (existingId : uuid) (e : WineInventoryEntryRow)
    : WineInventoryEntryRow :=
  if bool_decide (wie_id e = existingId) then
    {| wie_id := wie_id e; wie_tenant_id := wie_tenant_id e;
       wie_operation_id := wie_operation_id e; wie_wine_id := wie_wine_id e;
       wie_bottle_format_id := wie_bottle_format_id e;
       wie_bottle_vintage_id := wie_bottle_vintage_id e;
       wie_amount := newAmount; wie_case_id := wie_case_id e |}
  else e.

(** [createCaseOperationInventoryEntry(caseOperationId, wineId,
    bottleFormatId, bottleVintageId, amount)], the same in both scripts. *)
Definition createCaseOperationInventoryEntry
    (caseOperationId wineId bottleFormatId bottleVintageId : uuid) (amount : Z)
    : Async unit :=
  existingEntry <- gets (select_entries caseOperationId wineId bottleFormatId bottleVintageId) ;;
  match existingEntry with
  | e0 :: _ =>
      let existingId := wie_id e0 in
      let existingAmount := wie_amount e0 in
      let newAmount := (existingAmount + amount)%Z in
      modify (with_dataSource (with_wine_inventory_entries
                (List.map (set_amount newAmount existingId))))
  | [] =>
      wineInventoryEntryId <- uuidv4 ;;
      modify (with_dataSource (with_wine_inventory_entries (fun es => es ++
        [ {| wie_id := wineInventoryEntryId; wie_tenant_id := defaultTenantId;
             wie_operation_id := Some caseOperationId; wie_wine_id := wineId;
             wie_bottle_format_id := bottleFormatId;
             wie_bottle_vintage_id := bottleVintageId;
             wie_amount := amount; wie_case_id := None |} ])))
  end.

(** *** Identity resolution *)

(** [SELECT id FROM <table> WHERE legacy_id = $1 AND tenant_id = $2] *)
Definition select_rows (legacy : string) (rows : list LegacyRow) : list LegacyRow :=
  List.filter (fun r => bool_decide (row_legacy_id r = Some legacy)
                        && bool_decide (row_tenant_id r = defaultTenantId)) rows.

Definition select_wines (legacy : string) (s : Store) : list WineRow :=
  List.filter (fun w => bool_decide (wine_legacy_id w = Some legacy)
                        && bool_decide (wine_tenant_id w = defaultTenantId))
    (wines (dataSource s)).

(** [getNewWineId(legacyWineId)] *)
Definition getNewWineId (legacyWineId : option Z) : Async (option uuid) :=
  m <- gets wineMapId ;;
  match m !! num_key legacyWineId with
  | Some id => ret (Some id)
  | None =>
      key <- toString_of legacyWineId ;;
      wine <- gets (select_wines key) ;;
      match wine with
      | [] => ret None
      | w :: _ =>
          let wineId := wine_id w in
          modify (with_wineMapId (insert (num_key legacyWineId) wineId)) ;;;
          ret (Some wineId)
      end
  end.

(** [getNewBottleFormatId(legacyBottleFormatId)] *)
Definition getNewBottleFormatId (legacyBottleFormatId : option Z) : Async (option uuid) :=
  m <- gets bottleFormatMapId ;;
  match m !! num_key legacyBottleFormatId with
  | Some id => ret (Some id)
  | None =>
      key <- toString_of legacyBottleFormatId ;;
      bottleFormat <- gets (fun s => select_rows key (wine_bottle_formats (dataSource s))) ;;
      match bottleFormat with
      | [] => ret None
      | r :: _ =>
          let bottleFormatId := row_id r in
          modify (with_bottleFormatMapId (insert (num_key legacyBottleFormatId) bottleFormatId)) ;;;
          ret (Some bottleFormatId)
      end
  end.

(** [getNewBottleVintageId(legacyBottleVintageId)] *)
Definition getNewBottleVintageId (legacyBottleVintageId : option Z) : Async (option uuid) :=
  m <- gets bottleVintageMapId ;;
  match m !! num_key legacyBottleVintageId with
  | Some id => ret (Some id)
  | None =>
      key <- toString_of legacyBottleVintageId ;;
      bottleVintage <- gets (fun s => select_rows key (wine_bottle_vintages (dataSource s))) ;;
      match bottleVintage with
      | [] => ret None
      | r :: _ =>
          let bottleVintageId := row_id r in
          modify (with_bottleVintageMapId (insert (num_key legacyBottleVintageId) bottleVintageId)) ;;;
          ret (Some bottleVintageId)
      end
  end.

(** [this.legacyData.caseDetails.find((detail) =>
    detail.legacy_case_detail_id == caseDetailId)] *)
Definition find_caseDetail (caseDetailId : option Z) : option CaseDetail :=
  List.find (fun detail => bool_decide (Some (legacy_case_detail_id detail) = caseDetailId))
    (caseDetails legacyData).

(** The [switch (prop)] of [getWinePropFromCaseDetail]. *)
Definition caseDetail_prop (prop : string) (caseDetail : CaseDetail) : option Z :=
  if String.eqb prop "wineId" then legacy_wine_item_id caseDetail
  else if String.eqb prop "bottleFormatId" then legacy_bottle_size_id caseDetail
  else if String.eqb prop "bottleVintageId" then legacy_vintage_id caseDetail
  else None.

(** [getWinePropFromCaseDetail(caseDetailId, prop)]: import-case-data.js
    also requires the case of the case detail to be in [caseIdMap]. *)
Definition getWinePropFromCaseDetail (caseDetailId : option Z) (prop : string)
    : Async (option Z) :=
  match find_caseDetail caseDetailId with
  | None => ret None
  | Some caseDetail =>
      match sc with
      | ImportCaseData =>
          key <- toString_of (legacy_case_id caseDetail) ;;
          match caseIdMap !! KStr key with
          | None => ret None
          | Some _ => ret (caseDetail_prop prop caseDetail)
          end
      | MigrateSpecificActivity => ret (caseDetail_prop prop caseDetail)
      end
  end.

(** [getCaseIdFromCaseDetail(caseDetailId)]: import-case-data.js wraps the
    map lookup in a [try] and returns on error. *)
Definition getCaseIdFromCaseDetail (caseDetailId : option Z) : Async (option uuid) :=
  match find_caseDetail caseDetailId with
  | None => ret None
  | Some caseDetail =>
      let lookup :=
        key <- toString_of (legacy_case_id caseDetail) ;;
        ret (caseIdMap !! KStr key) in
      match sc with
      | ImportCaseData => try_catch lookup (ret None)
      | MigrateSpecificActivity => lookup
      end
  end.

(** *** Wine placeholder *)

Definition insert_wine (legacyWineId : option Z) (description : string) : Async uuid :=
  wineId <- uuidv4 ;;
  modify (with_dataSource (with_wines (fun ws => ws ++
    [ {| wine_id := wineId; wine_tenant_id := defaultTenantId;
         wine_legacy_id := toString <$> legacyWineId;
         wine_description := description |} ]))) ;;;
  ret wineId.

(** [createNewWine(legacyWineId, description)]: import-case-data.js first
    looks the wine up by legacy id ([legacy_id = $1] is never true of a
    [null] parameter). *)
Definition createNewWine (legacyWineId : option Z) (description : string) : Async uuid :=
  match sc with
  | ImportCaseData =>
      wine <- gets (fun s => match legacyWineId with
                             | Some n => select_wines (toString n) s
                             | None => []
                             end) ;;
      match wine with
      | w :: _ => ret (wine_id w)
      | [] => insert_wine legacyWineId description
      end
  | MigrateSpecificActivity => insert_wine legacyWineId description
  end.

(** The body of the [try] of [validateInventoryActivityDetail]: the legacy
    ids of the line and what they resolve to. *)
Definition validate_try (activityDetail : ActivityDetail)
    : Async (option (option Z * option Z * option Z
                     * option uuid * option uuid * option uuid)) :=
  legacyWineId <-
    (if truthy (WineItemID activityDetail) then ret (WineItemID activityDetail)
     else getWinePropFromCaseDetail (CaseDetailID activityDetail) "wineId") ;;
  legacyBottleFormatId <-
    (if truthy (BottleSizeID activityDetail) then ret (BottleSizeID activityDetail)
     else getWinePropFromCaseDetail (CaseDetailID activityDetail) "bottleFormatId") ;;
  legacyBottleVintageId <-
    (if truthy (VintageID activityDetail) then ret (VintageID activityDetail)
     else getWinePropFromCaseDetail (CaseDetailID activityDetail) "bottleVintageId") ;;
  newWineId <- getNewWineId legacyWineId ;;
  newBottleFormatId <- getNewBottleFormatId legacyBottleFormatId ;;
  newBottleVintageId <- getNewBottleVintageId legacyBottleVintageId ;;
  ret (Some (legacyWineId, legacyBottleFormatId, legacyBottleVintageId,
             newWineId, newBottleFormatId, newBottleVintageId)).

(** [validateInventoryActivityDetail(activityDetail)].  The result [None] is
    the bare [return] ([undefined]) of import-case-data.js and the object
    [{ newWineId: null, newBottleFormatId: null, newBottleVintageId: null }]
    of migrate-specific-activity.js. *)
Definition validateInventoryActivityDetail (activityDetail : ActivityDetail)
    : Async (option (uuid * uuid * uuid)) :=
  resolved <- try_catch (validate_try activityDetail) (ret None) ;;
  match resolved with
  | None => ret None
  | Some (legacyWineId, legacyBottleFormatId, legacyBottleVintageId,
          newWineId, newBottleFormatId, newBottleVintageId) =>
      newWineId <-
        match newWineId with
        | Some id => ret id
        | None => createNewWine legacyWineId
                    ("Legacy Wine - Veritas - " +:+ js_string legacyWineId)
        end ;;
      match newBottleFormatId, newBottleVintageId with
      | Some newBottleFormatId, Some newBottleVintageId =>
          if truthy legacyWineId && truthy legacyBottleFormatId
             && truthy legacyBottleVintageId
          then ret (Some (newWineId, newBottleFormatId, newBottleVintageId))
          else ret None
      | _, _ => ret None
      end
  end.

(** *** Case operations *)

(** The [logs] column: [JSON.stringify([])] in import-case-data.js,
    [JSON.stringify([{ legacy_activity_id: activity.ActivityID }])] in
    migrate-specific-activity.js. *)
Definition logs_of (activity : Activity) : string :=
  match sc with
  | ImportCaseData => "[]"
  | MigrateSpecificActivity =>
      "[{" +:+ dquote +:+ "legacy_activity_id" +:+ dquote +:+ ":"
      +:+ toString (ActivityID activity) +:+ "}]"
  end.

Definition insert_case_operation (row : CaseOperationRow) : Async unit :=
  modify (with_dataSource (with_cases_operations (fun ops => ops ++ [row]))).

(** [createCaseOperationFromActivityDetail(operationGroupId, activityDetail,
    activity)] *)
Definition createCaseOperationFromActivityDetail (operationGroupId : uuid)
    (activityDetail : ActivityDetail) (activity : Activity) : Async (option uuid) :=
  operationId <- uuidv4 ;;
  key <- toString_of (CaseID activityDetail) ;;
  match caseIdMap !! KStr key with
  | None => ret None
  | Some caseId =>
      insert_case_operation
        {| co_id := operationId; co_tenant_id := defaultTenantId;
           co_case_id := caseId;
           co_type := parseActivityTransactionType sc activity;
           co_status := parseActivityStatus sc (Status activity);
           co_logs := logs_of activity;
           co_group_id := operationGroupId |} ;;;
      ret (Some operationId)
  end.

(** [createCaseOperationFromActivityTransfer(operationGroupId, activity,
    caseId, type)] *)
Definition createCaseOperationFromActivityTransfer (operationGroupId : uuid)
    (activity : Activity) (caseId : uuid) (type : OperationType) : Async uuid :=
  operationId <- uuidv4 ;;
  insert_case_operation
    {| co_id := operationId; co_tenant_id := defaultTenantId;
       co_case_id := caseId;
       co_type := Some type;
       co_status := parseActivityStatus sc (Status activity);
       co_logs := logs_of activity;
       co_group_id := operationGroupId |} ;;;
  ret operationId.

(** [SELECT id FROM cases_operations WHERE group_id = $1 AND case_id = $2
    AND tenant_id = $3] *)
Definition select_case_operations (operationGroupId caseId : uuid) (s : Store)
    : list CaseOperationRow :=
  List.filter (fun co => bool_decide (co_group_id co = operationGroupId)
                         && bool_decide (co_case_id co = caseId)
                         && bool_decide (co_tenant_id co = defaultTenantId))
    (cases_operations (dataSource s)).

(** [getCaseOperation(operationGroupId, caseId, activity, activityDetail)] *)
Definition getCaseOperation (operationGroupId caseId : uuid) (activity : Activity)
    (activityDetail : ActivityDetail) : Async (option uuid) :=
  caseOperation <- gets (select_case_operations operationGroupId caseId) ;;
  match caseOperation with
  | [] => createCaseOperationFromActivityDetail operationGroupId activityDetail activity
  | co :: _ => ret (Some (co_id co))
  end.

(** [getCaseOperationFromActivityDetail(operationGroupId, activityDetail,
    activity)]: import-case-data.js wraps the map lookup in a [try]. *)
Definition getCaseOperationFromActivityDetail (operationGroupId : uuid)
    (activityDetail : ActivityDetail) (activity : Activity) : Async (option uuid) :=
  let lookup :=
    key <- toString_of (CaseID activityDetail) ;;
    ret (caseIdMap !! KStr key) in
  caseId <- match sc with
            | ImportCaseData => try_catch lookup (ret None)
            | MigrateSpecificActivity => lookup
            end ;;
  match caseId with
  | None => ret None
  | Some caseId => getCaseOperation operationGroupId caseId activity activityDetail
  end.

(** [const { newWineId, newBottleFormatId, newBottleVintageId } = await
    this.validateInventoryActivityDetail(activityDetail)]: destructuring
    [undefined] throws a [TypeError] in import-case-data.js;
    migrate-specific-activity.js gets an object of nulls and tests it. *)
Definition destructure_validated (r : option (uuid * uuid * uuid))
    : Async (option (uuid * uuid * uuid)) :=
  match r, sc with
  | None, ImportCaseData => throw TypeError
  | _, _ => ret r
  end.

(** [createOrUpdateCaseOperationFromActivityDepositOrWithdrawalActivityDetail
    (operationGroupId, activityDetail, activity)] *)
Definition createOrUpdateCaseOperationFromActivityDepositOrWithdrawalActivityDetail
    (operationGroupId : uuid) (activityDetail : ActivityDetail) (activity : Activity)
    : Async (option uuid) :=
  operationId <- getCaseOperationFromActivityDetail operationGroupId activityDetail activity ;;
  match operationId with
  | None => ret None
  | Some operationId =>
      validated <- validateInventoryActivityDetail activityDetail ;;
      validated <- destructure_validated validated ;;
      match validated with
      | None => ret None
      | Some (newWineId, newBottleFormatId, newBottleVintageId) =>
          try_catch
            (createCaseOperationInventoryEntry operationId newWineId
               newBottleFormatId newBottleVintageId (Quantity activityDetail) ;;;
             ret match sc with
                 | ImportCaseData => Some operationId
                 | MigrateSpecificActivity => None
                 end)
            (ret None)
      end
  end.

(** [createCaseOperationFromActivityTransferActivityDetail(operationGroupId,
    activityDetail, activity)] *)
Definition createCaseOperationFromActivityTransferActivityDetail
    (operationGroupId : uuid) (activityDetail : ActivityDetail) (activity : Activity)
    : Async unit :=
  if String.eqb (ActivityType activityDetail) "Case" then ret tt
  else if negb (String.eqb (ActivityType activityDetail) "Bottle") then ret tt
  else
    sourceCaseId <- getCaseIdFromCaseDetail (CaseDetailID activityDetail) ;;
    key <- toString_of (CaseID activityDetail) ;;
    match sourceCaseId, caseIdMap !! KStr key with
    | Some sourceCaseId, Some destinationCaseId =>
        validated <- validateInventoryActivityDetail activityDetail ;;
        validated <- destructure_validated validated ;;
        match validated with
        | None => ret tt
        | Some (newWineId, newBottleFormatId, newBottleVintageId) =>
            sourceCaseOperationId <-
              createCaseOperationFromActivityTransfer operationGroupId activity
                sourceCaseId withdrawal ;;
            createCaseOperationInventoryEntry sourceCaseOperationId newWineId
              newBottleFormatId newBottleVintageId (Quantity activityDetail) ;;;
            destinationCaseOperationId <-
              createCaseOperationFromActivityTransfer operationGroupId activity
                destinationCaseId deposit ;;
            createCaseOperationInventoryEntry destinationCaseOperationId newWineId
              newBottleFormatId newBottleVintageId (Quantity activityDetail)
        end
    | _, _ => ret tt
    end.

(** [getInventoryActivityDetails(activity)] of import-case-data.js and
    [getActivityDetails(activity.ActivityID)] of migrate-specific-activity.js *)
Definition getInventoryActivityDetails (activity : Activity) : list ActivityDetail :=
  List.filter
    (fun detail =>
       truthy (detail_ActivityID detail)
       && bool_decide (toString <$> detail_ActivityID detail
                       = Some (toString (ActivityID activity)))
       && negb (String.eqb (ActivityType detail) "Supply"))
    (activityDetails legacyData).

(** [createCaseOperationsFromActivityDepositOrWithdrawal(operationGroupId,
    activity)] *)
Definition createCaseOperationsFromActivityDepositOrWithdrawal
    (operationGroupId : uuid) (activity : Activity) : Async unit :=
  for_of (getInventoryActivityDetails activity)
    (fun activityDetail =>
       createOrUpdateCaseOperationFromActivityDepositOrWithdrawalActivityDetail
         operationGroupId activityDetail activity ;;;
       ret tt).

(** [createCaseOperationsFromActivityTransfer(operationGroupId, activity)] *)
Definition createCaseOperationsFromActivityTransfer
    (operationGroupId : uuid) (activity : Activity) : Async unit :=
  for_of (getInventoryActivityDetails activity)
    (fun activityDetail =>
       createCaseOperationFromActivityTransferActivityDetail
         operationGroupId activityDetail activity).

(** The [switch (activity.TransactionType)] of [createOperationGroup]
    (import-case-data.js) and of [migrateActivity]
    (migrate-specific-activity.js). *)
Definition dispatch (operationGroupId : uuid) (activity : Activity) : Async unit :=
  if String.eqb (TransactionType activity) "D"
     || String.eqb (TransactionType activity) "W" then
    createCaseOperationsFromActivityDepositOrWithdrawal operationGroupId activity
  else if String.eqb (TransactionType activity) "T" then
    createCaseOperationsFromActivityTransfer operationGroupId activity
  else ret tt.

(** [createOperationGroup(customerId, activity)]: import-case-data.js
    dispatches on the transaction kind here, migrate-specific-activity.js in
    [migrateActivity]. *)
Definition createOperationGroup (customerId : uuid) (activity : Activity) : Async uuid :=
  operationGroupId <- uuidv4 ;;
  modify (with_dataSource (with_operations_groups (fun gs => gs ++
    [ {| og_id := operationGroupId; og_tenant_id := defaultTenantId;
         og_customer_id := customerId;
         og_status := parseActivityStatus sc (Status activity) |} ]))) ;;;
  match sc with
  | ImportCaseData => dispatch operationGroupId activity
  | MigrateSpecificActivity => ret tt
  end ;;;
  ret operationGroupId.

End Reconciler.

(** ** Identifier maps loaded from the target store *)

(** [SELECT id, legacy_id FROM <table> WHERE tenant_id = $1] followed by
    [rows.forEach((r) => map.set(r.legacy_id, r.id))]. *)
Definition tenant_rows (defaultTenantId : uuid) (rows : list LegacyRow) : list LegacyRow :=
  List.filter (fun r => bool_decide (row_tenant_id r = defaultTenantId)) rows.

Definition load_id_map (defaultTenantId : uuid) (rows : list LegacyRow) : gmap MapKey uuid :=
  fold_left (fun m r => <[col_key (row_legacy_id r) := row_id r]> m)
    (tenant_rows defaultTenantId rows) ∅.

Definition getCaseIdMap (defaultTenantId : uuid) (s : Store) : gmap MapKey uuid :=
  load_id_map defaultTenantId (cases (dataSource s)).

Definition getBottleFormatIdMap (defaultTenantId : uuid) (s : Store) : gmap MapKey uuid :=
  load_id_map defaultTenantId (wine_bottle_formats (dataSource s)).

Definition getBottleVintageIdMap (defaultTenantId : uuid) (s : Store) : gmap MapKey uuid :=
  load_id_map defaultTenantId (wine_bottle_vintages (dataSource s)).

Definition getWineIdMap (defaultTenantId : uuid) (s : Store) : gmap MapKey uuid :=
  fold_left (fun m w => <[col_key (wine_legacy_id w) := wine_id w]> m)
    (List.filter (fun w => bool_decide (wine_tenant_id w = defaultTenantId))
       (wines (dataSource s))) ∅.

(** [customerIdMap] is iterated with [for ... of], in insertion order: an
    association list.  [Map_set] overwrites the value of a present key in
    place and appends an absent one. *)
Fixpoint Map_set (k : MapKey) (v : uuid) (m : list (MapKey * uuid)) : list (MapKey * uuid) :=
  match m with
  | [] => [(k, v)]
  | (k', v') :: m' =>
      if bool_decide (k' = k) then (k, v) :: m' else (k', v') :: Map_set k v m'
  end.

Definition Map_get (k : MapKey) (m : list (MapKey * uuid)) : option uuid :=
  snd <$> List.find (fun kv => bool_decide (fst kv = k)) m.

Definition getCustomerIdMap (defaultTenantId : uuid) (s : Store) : list (MapKey * uuid) :=
  fold_left (fun m r => Map_set (col_key (row_legacy_id r)) (row_id r) m)
    (tenant_rows defaultTenantId (users (dataSource s))) [].

(** ** The full run: import-case-data.js *)

(** The callback of the [filter] of [getCustomerActivities], for a
    customer whose legacy id is a string. *)
Definition is_customer_activity (legacyAccountId : string) (activity : Activity) : bool :=
  truthy (AccountID activity)
  && bool_decide (toString <$> AccountID activity = Some legacyAccountId)
  && (Status activity =? 1)%Z.

(** [getCustomerActivities(legacyAccountId)]: [legacyAccountId.toString()]
    throws on a [null] key as soon as an activity has a truthy account. *)
Definition getCustomerActivities (legacyData : LegacyData) (legacyAccountId : MapKey)
    : Async (list Activity) :=
  match legacyAccountId with
  | KStr k => ret (List.filter (is_customer_activity k) (activities legacyData))
  | KNum n => ret (List.filter (is_customer_activity (toString n)) (activities legacyData))
  | KNull =>
      if existsb (fun activity => truthy (AccountID activity)) (activities legacyData)
      then throw TypeError
      else ret []
  end.

(** [seedOperationGroups()] *)
Definition seedOperationGroups (defaultTenantId : uuid) (legacyData : LegacyData)
    : Async unit :=
  customerIdMap <- gets (getCustomerIdMap defaultTenantId) ;;
  caseIdMap <- gets (getCaseIdMap defaultTenantId) ;;
  for_of customerIdMap
    (fun entry =>
       customerActivities <- getCustomerActivities legacyData (fst entry) ;;
       for_of customerActivities
         (fun activity =>
            createOperationGroup ImportCaseData defaultTenantId legacyData caseIdMap
              (snd entry) activity ;;;
            ret tt)).

(** [caseDetail.WineQuantity <= 0]: [null] converts to [0]. *)
Definition not_greater_than_zero (v : option Z) : bool :=
  match v with
  | Some n => (n <=? 0)%Z
  | None => true
  end.

(** [caseDetail.WineQuantity || 0] *)
Definition or_zero (v : option Z) : Z :=
  match js_or v (Some 0%Z) with
  | Some n => n
  | None => 0%Z
  end.

(** [DELETE FROM wine_inventory_entries WHERE tenant_id = $1 AND
    operation_id IS NULL] *)
Definition is_snapshot_entry (defaultTenantId : uuid) (e : WineInventoryEntryRow) : bool :=
  bool_decide (wie_tenant_id e = defaultTenantId)
  && bool_decide (wie_operation_id e = None).

Definition delete_snapshot_entries (defaultTenantId : uuid) : Async unit :=
  modify (with_dataSource (with_wine_inventory_entries
    (List.filter (fun e => negb (is_snapshot_entry defaultTenantId e))))).

(** The body of the [try] of the loop of
    [seedWineInventoryEntriesFromCaseDetails]; [ret tt] is [continue]. *)
Definition seed_caseDetail (defaultTenantId : uuid) (caseIdMap : gmap MapKey uuid)
    (caseDetail : CaseDetail) : Async unit :=
  if negb (truthy (legacy_wine_item_id caseDetail)) then ret tt else
  newWineId <- getNewWineId defaultTenantId (legacy_wine_item_id caseDetail) ;;
  match newWineId with
  | None => ret tt
  | Some newWineId =>
  newBottleFormatId <- getNewBottleFormatId defaultTenantId (legacy_bottle_size_id caseDetail) ;;
  match newBottleFormatId with
  | None => ret tt
  | Some newBottleFormatId =>
  newBottleVintageId <- getNewBottleVintageId defaultTenantId (legacy_vintage_id caseDetail) ;;
  match newBottleVintageId with
  | None => ret tt
  | Some newBottleVintageId =>
  if not_greater_than_zero (WineQuantity caseDetail) then ret tt else
  if negb (truthy (legacy_case_id caseDetail)) then ret tt else
  key <- toString_of (legacy_case_id caseDetail) ;;
  match caseIdMap !! KStr key with
  | None => ret tt
  | Some newCaseId =>
      entryId <- uuidv4 ;;
      modify (with_dataSource (with_wine_inventory_entries (fun es => es ++
        [ {| wie_id := entryId; wie_tenant_id := defaultTenantId;
             wie_operation_id := None; wie_wine_id := newWineId;
             wie_bottle_format_id := newBottleFormatId;
             wie_bottle_vintage_id := newBottleVintageId;
             wie_amount := or_zero (WineQuantity caseDetail);
             wie_case_id := Some newCaseId |} ])))
  end end end end.

(** [this.wineMapId = await this.getWineIdMap()] and the like. *)
Definition loadMappings (defaultTenantId : uuid) : Async unit :=
  modify (fun s => with_wineMapId (fun _ => getWineIdMap defaultTenantId s) s) ;;;
  modify (fun s => with_bottleFormatMapId (fun _ => getBottleFormatIdMap defaultTenantId s) s) ;;;
  modify (fun s => with_bottleVintageMapId (fun _ => getBottleVintageIdMap defaultTenantId s) s).

(** [seedWineInventoryEntriesFromCaseDetails()] *)
Definition seedWineInventoryEntriesFromCaseDetails (defaultTenantId : uuid)
    (legacyData : LegacyData) : Async unit :=
  caseIdMap <- gets (getCaseIdMap defaultTenantId) ;;
  loadMappings defaultTenantId ;;;
  match caseDetails legacyData with
  | [] => ret tt
  | _ :: _ =>
      delete_snapshot_entries defaultTenantId ;;;
      for_of (caseDetails legacyData)
        (fun caseDetail =>
           try_catch (seed_caseDetail defaultTenantId caseIdMap caseDetail) (ret tt))
  end.

(** ** One activity: migrate-specific-activity.js *)

(** SQL [LIKE]: [%] matches any run of characters, [_] any one character. *)
Fixpoint like (pattern text : string) : bool :=
  match pattern with
  | EmptyString =>
      match text with
      | EmptyString => true
      | String _ _ => false
      end
  | String c pattern' =>
      if Ascii.eqb c "%" then
        (fix skip (t : string) : bool :=
           like pattern' t
           || match t with
              | EmptyString => false
              | String _ t' => skip t'
              end) text
      else
        match text with
        | EmptyString => false
        | String d text' => (Ascii.eqb c "_" || Ascii.eqb c d) && like pattern' text'
        end
  end.

(** The pattern [`%"legacy_activity_id":"${activityId}"%`]. *)
Definition legacy_activity_pattern (activityId : string) : string :=
  "%" +:+ dquote +:+ "legacy_activity_id" +:+ dquote +:+ ":"
  +:+ dquote +:+ activityId +:+ dquote +:+ "%".

(** The rows of [operations_groups og JOIN cases_operations co ON
    co.group_id = og.id WHERE og.tenant_id = $1 AND co.logs::text LIKE $2];
    [logs::text] is taken to be the text that was stored. *)
Definition select_activity_groups (defaultTenantId : uuid) (activityId : string) (s : Store)
    : list OperationGroupRow :=
  flat_map
    (fun og =>
       List.map (fun _ => og)
         (List.filter
            (fun co => bool_decide (co_group_id co = og_id og)
                       && bool_decide (og_tenant_id og = defaultTenantId)
                       && like (legacy_activity_pattern activityId) (co_logs co))
            (cases_operations (dataSource s))))
    (operations_groups (dataSource s)).

(** [findExistingOperationGroup(activityId)] *)
Definition findExistingOperationGroup (defaultTenantId : uuid) (activityId : string)
    (s : Store) : option OperationGroupRow :=
  head (select_activity_groups defaultTenantId activityId s).

(** The three [DELETE]s of [clearExistingActivityData] for one group. *)
Definition delete_group (defaultTenantId : uuid) (groupId : uuid) (d : DataSource)
    : DataSource :=
  let op_ids :=
    List.map co_id
      (List.filter (fun co => bool_decide (co_group_id co = groupId)) (cases_operations d)) in
  let d1 :=
    with_wine_inventory_entries
      (List.filter (fun e =>
         negb (match wie_operation_id e with
               | Some op => bool_decide (op ∈ op_ids)
               | None => false
               end
               && bool_decide (wie_tenant_id e = defaultTenantId)))) d in
  let d2 :=
    with_cases_operations
      (List.filter (fun co =>
         negb (bool_decide (co_group_id co = groupId)
               && bool_decide (co_tenant_id co = defaultTenantId)))) d1 in
  with_operations_groups
    (List.filter (fun og =>
       negb (bool_decide (og_id og = groupId)
             && bool_decide (og_tenant_id og = defaultTenantId)))) d2.

(** [clearExistingActivityData(activityId)] *)
Definition clearExistingActivityData (defaultTenantId : uuid) (activityId : string)
    : Async unit :=
  operationGroups <- gets (select_activity_groups defaultTenantId activityId) ;;
  for_of operationGroups
    (fun group => modify (with_dataSource (delete_group defaultTenantId (og_id group)))).

(** [findActivityById(activityId)] *)
Definition findActivityById (legacyData : LegacyData) (activityId : string) : option Activity :=
  List.find (fun activity => bool_decide (toString (ActivityID activity) = activityId))
    (activities legacyData).

Definition Error : string := "Error".

(** [validateDependencies(activity)] *)
Definition validateDependencies (defaultTenantId : uuid) (legacyData : LegacyData)
    (activity : Activity) : Async unit :=
  account <- toString_of (AccountID activity) ;;
  customer <- gets (fun s => select_rows defaultTenantId account (users (dataSource s))) ;;
  match customer with
  | [] => throw Error
  | _ :: _ =>
      for_of (getInventoryActivityDetails legacyData activity)
        (fun detail =>
           key <- toString_of (CaseID detail) ;;
           caseExists <- gets (fun s => select_rows defaultTenantId key (cases (dataSource s))) ;;
           match caseExists with
           | [] => throw Error
           | _ :: _ => ret tt
           end)
  end.

(** [migrateActivity(activity)], with the maps of [loadMappings]. *)
Definition migrateActivity (defaultTenantId : uuid) (legacyData : LegacyData)
    (customerIdMap : list (MapKey * uuid)) (caseIdMap : gmap MapKey uuid)
    (activity : Activity) : Async unit :=
  account <- toString_of (AccountID activity) ;;
  match Map_get (KStr account) customerIdMap with
  | None => throw Error
  | Some customerId =>
      operationGroupId <-
        createOperationGroup MigrateSpecificActivity defaultTenantId legacyData caseIdMap
          customerId activity ;;
      dispatch MigrateSpecificActivity defaultTenantId legacyData caseIdMap
        operationGroupId activity
  end.

(** [migrate(activityId, options)] *)
Definition migrate (defaultTenantId : uuid) (legacyData : LegacyData)
    (activityId : string) (clearExisting : bool) : Async unit :=
  match findActivityById legacyData activityId with
  | None => throw Error
  | Some activity =>
      validateDependencies defaultTenantId legacyData activity ;;;
      (if clearExisting then clearExistingActivityData defaultTenantId activityId
       else ret tt) ;;;
      existingOperationGroup <- gets (findExistingOperationGroup defaultTenantId activityId) ;;
      if bool_decide (is_Some existingOperationGroup) && negb clearExisting then ret tt
      else
        customerIdMap <- gets (getCustomerIdMap defaultTenantId) ;;
        caseIdMap <- gets (getCaseIdMap defaultTenantId) ;;
        loadMappings defaultTenantId ;;;
        migrateActivity defaultTenantId legacyData customerIdMap caseIdMap activity
  end.

(** * Vocabulary of the properties *)

(** ** Frames: a method keeps a relation between the state before and after *)

Definition preserves {A} (R : Store -> Store -> Prop) (m : Async A) : Prop :=
  forall s, R s (snd (m s)).

(** A component of the state is left as it was. *)
Definition same {B} (f : Store -> B) (s s' : Store) : Prop := f s' = f s.

(** The identifier supply only grows. *)
Definition supply_grows (s s' : Store) : Prop := uuid_supply s <= uuid_supply s'.

(** Every row of a table after the call was there before or satisfies [P]. *)
Definition only_adds {B} (table : Store -> list B) (P : B -> Prop) (s s' : Store) : Prop :=
  forall row, In row (table s') -> In row (table s) \/ P row.

Definition operations (s : Store) : list CaseOperationRow :=
  cases_operations (dataSource s).
Definition entries (s : Store) : list WineInventoryEntryRow :=
  wine_inventory_entries (dataSource s).
Definition groups (s : Store) : list OperationGroupRow :=
  operations_groups (dataSource s).

(** ** Well-formed stores: the identifiers that case operations and ledger
    entries refer to were minted, so they are below the supply. *)
Definition operation_minted (s : Store) (co : CaseOperationRow) : Prop :=
  co_id co < uuid_supply s.

Definition entry_minted (s : Store) (e : WineInventoryEntryRow) : Prop :=
  match wie_operation_id e with
  | Some op => op < uuid_supply s
  | None => True
  end.

Definition store_wf (s : Store) : Prop :=
  Forall (operation_minted s) (operations s) /\ Forall (entry_minted s) (entries s).

(** ** Identity resolution, read off the store *)

(** The target case of a legacy case id: [this.caseIdMap.get(id.toString())]. *)
Definition resolve_case (caseIdMap : gmap MapKey uuid) (legacy : option Z) : option uuid :=
  match legacy with
  | Some n => caseIdMap !! KStr (toString n)
  | None => None
  end.

(** The target case of the case detail a line refers to (the source case of
    a transfer line). *)
Definition case_of_caseDetail (legacyData : LegacyData) (caseIdMap : gmap MapKey uuid)
    (caseDetailId : option Z) : option uuid :=
  match find_caseDetail legacyData caseDetailId with
  | Some caseDetail => resolve_case caseIdMap (legacy_case_id caseDetail)
  | None => None
  end.

(** The legacy wine, bottle-format or vintage id of a line: the field of the
    line when truthy, else the property of its case detail; [None] when there
    is none (or when looking it up throws). *)
Definition legacy_value (sc : Script) (legacyData : LegacyData)
    (caseIdMap : gmap MapKey uuid) (direct caseDetailId : option Z) (prop : string)
    : option Z :=
  if truthy direct then direct
  else
    match find_caseDetail legacyData caseDetailId with
    | None => None
    | Some caseDetail =>
        match sc with
        | ImportCaseData =>
            match resolve_case caseIdMap (legacy_case_id caseDetail) with
            | Some _ => caseDetail_prop prop caseDetail
            | None => None
            end
        | MigrateSpecificActivity => caseDetail_prop prop caseDetail
        end
    end.

Definition legacy_wine sc legacyData caseIdMap (d : ActivityDetail) : option Z :=
  legacy_value sc legacyData caseIdMap (WineItemID d) (CaseDetailID d) "wineId".
Definition legacy_format sc legacyData caseIdMap (d : ActivityDetail) : option Z :=
  legacy_value sc legacyData caseIdMap (BottleSizeID d) (CaseDetailID d) "bottleFormatId".
Definition legacy_vintage sc legacyData caseIdMap (d : ActivityDetail) : option Z :=
  legacy_value sc legacyData caseIdMap (VintageID d) (CaseDetailID d) "bottleVintageId".

(** A truthy legacy id has a target identifier: it is memoized or the table
    has a row for it. *)
Definition id_resolves (defaultTenantId : uuid) (memo : gmap MapKey uuid)
    (rows : list LegacyRow) (legacy : option Z) : bool :=
  match legacy with
  | Some n =>
      bool_decide (is_Some (memo !! KNum n))
      || bool_decide (select_rows defaultTenantId (toString n) rows <> [])
  | None => false
  end.

Definition format_resolves (defaultTenantId : uuid) (s : Store) (legacy : option Z) : bool :=
  id_resolves defaultTenantId (bottleFormatMapId s)
    (wine_bottle_formats (dataSource s)) legacy.

Definition vintage_resolves (defaultTenantId : uuid) (s : Store) (legacy : option Z) : bool :=
  id_resolves defaultTenantId (bottleVintageMapId s)
    (wine_bottle_vintages (dataSource s)) legacy.

(** The wine, bottle format and vintage of a line all resolve: the three
    legacy ids are truthy and format and vintage have a target identifier
    (the wine gets a placeholder when it has none). *)
Definition inventory_resolves (sc : Script) (defaultTenantId : uuid)
    (legacyData : LegacyData) (caseIdMap : gmap MapKey uuid) (s : Store)
    (d : ActivityDetail) : bool :=
  truthy (legacy_wine sc legacyData caseIdMap d)
  && truthy (legacy_format sc legacyData caseIdMap d)
  && truthy (legacy_vintage sc legacyData caseIdMap d)
  && format_resolves defaultTenantId s (legacy_format sc legacyData caseIdMap d)
  && vintage_resolves defaultTenantId s (legacy_vintage sc legacyData caseIdMap d).

(** Format and vintage resolution is the same in two stores. *)
Definition resolves_alike (defaultTenantId : uuid) (s s' : Store) : Prop :=
  forall legacy,
    format_resolves defaultTenantId s' legacy = format_resolves defaultTenantId s legacy
    /\ vintage_resolves defaultTenantId s' legacy = vintage_resolves defaultTenantId s legacy.

(** ** Case operations of a group *)

(** The case operations of group [g] (in the tenant of the run). *)
Definition group_operations (defaultTenantId g : uuid) (s : Store) : list CaseOperationRow :=
  List.filter (fun co => bool_decide (co_group_id co = g)
                         && bool_decide (co_tenant_id co = defaultTenantId))
    (operations s).

(** The resolvable cases the lines refer to. *)
Definition resolved_cases (caseIdMap : gmap MapKey uuid) (lines : list ActivityDetail)
    : list uuid :=
  omap (fun d => resolve_case caseIdMap (CaseID d)) lines.

(** ** Transfers *)

(** A transfer line is reconciled: it is a "Bottle" line, its source and
    destination cases resolve, and so do its wine, bottle format and vintage. *)
Definition transfer_reconciles (sc : Script) (defaultTenantId : uuid)
    (legacyData : LegacyData) (caseIdMap : gmap MapKey uuid) (s : Store)
    (d : ActivityDetail) : bool :=
  String.eqb (ActivityType d) "Bottle"
  && bool_decide (is_Some (case_of_caseDetail legacyData caseIdMap (CaseDetailID d)))
  && bool_decide (is_Some (resolve_case caseIdMap (CaseID d)))
  && inventory_resolves sc defaultTenantId legacyData caseIdMap s d.

(** The case operation a ledger entry is posted to: the first operation with
    the identifier of the entry's [operation_id]. *)
Definition operation_of (s : Store) (e : WineInventoryEntryRow) : option CaseOperationRow :=
  match wie_operation_id e with
  | Some op => List.find (fun co => bool_decide (co_id co = op)) (operations s)
  | None => None
  end.

(** The total amount posted to the operations of kind [type] of group [g]. *)
Definition posted_to (g : uuid) (type : OperationType) (s : Store)
    (e : WineInventoryEntryRow) : bool :=
  match operation_of s e with
  | Some co => bool_decide (co_group_id co = g) && bool_decide (co_type co = Some type)
  | None => false
  end.

Definition sumZ (l : list Z) : Z := fold_right Z.add 0%Z l.

Definition total_posted (g : uuid) (type : OperationType) (s : Store) : Z :=
  sumZ (List.map wie_amount (List.filter (posted_to g type s) (entries s))).

(** The rows a reconciled transfer line adds. *)
Definition transfer_operation (sc : Script) (defaultTenantId : uuid) (activity : Activity)
    (g id caseId : uuid) (type : OperationType) : CaseOperationRow :=
  {| co_id := id; co_tenant_id := defaultTenantId; co_case_id := caseId;
     co_type := Some type;
     co_status := parseActivityStatus sc (Status activity);
     co_logs := logs_of sc activity;
     co_group_id := g |}.

Definition ledger_entry (defaultTenantId id op w f v : uuid) (amount : Z)
    : WineInventoryEntryRow :=
  {| wie_id := id; wie_tenant_id := defaultTenantId; wie_operation_id := Some op;
     wie_wine_id := w; wie_bottle_format_id := f; wie_bottle_vintage_id := v;
     wie_amount := amount; wie_case_id := None |}.

(** ** Selection of activities in the full run *)

(** The activities [getCustomerActivities] selects for the customer of a key
    of [customerIdMap] when it does not throw. *)
Definition customer_activities (legacyData : LegacyData) (legacyAccountId : MapKey)
    : list Activity :=
  match legacyAccountId with
  | KStr k => List.filter (is_customer_activity k) (activities legacyData)
  | KNum n => List.filter (is_customer_activity (toString n)) (activities legacyData)
  | KNull => []
  end.

Definition group_summary (g : OperationGroupRow) : uuid * uuid * option OperationStatus :=
  (og_tenant_id g, og_customer_id g, og_status g).

(** One group per selected activity, customer by customer, in the order of
    [customerIdMap]. *)
Definition selected_groups (defaultTenantId : uuid) (legacyData : LegacyData)
    (customerIdMap : list (MapKey * uuid)) : list (uuid * uuid * option OperationStatus) :=
  flat_map
    (fun entry =>
       List.map (fun _ : Activity => (defaultTenantId, snd entry, Some processed))
         (customer_activities legacyData (fst entry)))
    customerIdMap.

(** ** Example data *)

Definition empty_dataSource : DataSource :=
  {| users := []; cases := []; wines := [];
     wine_bottle_formats := []; wine_bottle_vintages := [];
     operations_groups := []; cases_operations := [];
     wine_inventory_entries := [] |}.

Definition empty_store : Store :=
  {| dataSource := empty_dataSource; uuid_supply := 100;
     wineMapId := ∅; bottleFormatMapId := ∅; bottleVintageMapId := ∅ |}.

(** The tenant of the examples. *)
Definition tenant1 : uuid := 1.

(** A target store with customer 900, cases 10, 20 and 30, wine 7, bottle
    format 1 and vintage 2015. *)
Definition example_dataSource : DataSource :=
  {| users := [ {| row_id := 10; row_tenant_id := tenant1; row_legacy_id := Some "900" |} ];
     cases := [ {| row_id := 20; row_tenant_id := tenant1; row_legacy_id := Some "10" |};
                {| row_id := 21; row_tenant_id := tenant1; row_legacy_id := Some "20" |};
                {| row_id := 22; row_tenant_id := tenant1; row_legacy_id := Some "30" |} ];
     wines := [ {| wine_id := 30; wine_tenant_id := tenant1; wine_legacy_id := Some "7";
                   wine_description := "Barolo" |} ];
     wine_bottle_formats :=
       [ {| row_id := 40; row_tenant_id := tenant1; row_legacy_id := Some "1" |} ];
     wine_bottle_vintages :=
       [ {| row_id := 50; row_tenant_id := tenant1; row_legacy_id := Some "2015" |} ];
     operations_groups := []; cases_operations := [];
     wine_inventory_entries := [] |}.

Definition example_store : Store :=
  {| dataSource := example_dataSource; uuid_supply := 100;
     wineMapId := ∅; bottleFormatMapId := ∅; bottleVintageMapId := ∅ |}.

Definition bottle_line (id activity case : Z) (caseDetail : option Z)
    (wine format vintage : option Z) (quantity : Z) : ActivityDetail :=
  {| ActivityDetailID := id; detail_ActivityID := Some activity;
     ActivityType := "Bottle"; CaseID := Some case; CaseDetailID := caseDetail;
     WineItemID := wine; BottleSizeID := format; VintageID := vintage;
     Quantity := quantity |}.

(** Two activities of customer 900: one with legacy status 1, one with
    legacy status 3. *)
Definition activity_status1 : Activity :=
  {| ActivityID := 501; AccountID := Some 900%Z; TransactionType := "D"; Status := 1 |}.
Definition activity_status3 : Activity :=
  {| ActivityID := 503; AccountID := Some 900%Z; TransactionType := "D"; Status := 3 |}.

Definition status_data : LegacyData :=
  {| activities := [activity_status1; activity_status3];
     activityDetails :=
       [ bottle_line 1 501 10 None (Some 7%Z) (Some 1%Z) (Some 2015%Z) 3;
         bottle_line 2 501 10 None (Some 7%Z) (Some 1%Z) (Some 2015%Z) 2;
         bottle_line 3 503 20 None (Some 7%Z) (Some 1%Z) (Some 2015%Z) 6 ];
     caseDetails := [] |}.

(** The cases that have a case operation under group [g]. *)
Definition group_cases (defaultTenantId g : uuid) (s : Store) : list uuid :=
  List.map co_case_id (group_operations defaultTenantId g s).

(** The case operation [createCaseOperationFromActivityDetail] inserts. *)
Definition detail_operation (sc : Script) (defaultTenantId : uuid) (activity : Activity)
    (g id caseId : uuid) : CaseOperationRow :=
  {| co_id := id; co_tenant_id := defaultTenantId; co_case_id := caseId;
     co_type := parseActivityTransactionType sc activity;
     co_status := parseActivityStatus sc (Status activity);
     co_logs := logs_of sc activity;
     co_group_id := g |}.

(** The case operation a deposit or withdrawal line adds, if any: one for a
    resolvable case that has none under the group yet. *)
Definition operation_added (sc : Script) (defaultTenantId : uuid)
    (caseIdMap : gmap MapKey uuid) (activity : Activity) (g : uuid) (s : Store)
    (d : ActivityDetail) : list CaseOperationRow :=
  match resolve_case caseIdMap (CaseID d) with
  | Some c =>
      if bool_decide (c ∈ group_cases defaultTenantId g s) then []
      else [detail_operation sc defaultTenantId activity g (uuid_supply s) c]
  | None => []
  end.

(** The two legs of a transfer line: a withdrawal on the source case and a
    deposit on the destination case. *)
Definition operation_leg (co : CaseOperationRow) : option OperationType * uuid :=
  (co_type co, co_case_id co).

Definition transfer_legs (legacyData : LegacyData) (caseIdMap : gmap MapKey uuid)
    (d : ActivityDetail) : list (option OperationType * uuid) :=
  match case_of_caseDetail legacyData caseIdMap (CaseDetailID d),
        resolve_case caseIdMap (CaseID d) with
  | Some sourceCaseId, Some destinationCaseId =>
      [(Some withdrawal, sourceCaseId); (Some deposit, destinationCaseId)]
  | _, _ => []
  end.

(** What a reconciled transfer line writes: two case operations with fresh
    identifiers [n] and [n + 2], and one ledger entry on each with the
    quantity of the line. *)
Definition transfer_written (sc : Script) (defaultTenantId : uuid)
    (legacyData : LegacyData) (caseIdMap : gmap MapKey uuid) (g : uuid)
    (activity : Activity) (d : ActivityDetail) (s s' : Store) : Prop :=
  exists n sourceCaseId destinationCaseId w f v,
    uuid_supply s <= n
    /\ case_of_caseDetail legacyData caseIdMap (CaseDetailID d) = Some sourceCaseId
    /\ resolve_case caseIdMap (CaseID d) = Some destinationCaseId
    /\ operations s' = operations s ++
         [ transfer_operation sc defaultTenantId activity g n sourceCaseId withdrawal;
           transfer_operation sc defaultTenantId activity g (n + 2) destinationCaseId deposit ]
    /\ entries s' = entries s ++
         [ ledger_entry defaultTenantId (n + 1) n w f v (Quantity d);
           ledger_entry defaultTenantId (n + 3) (n + 2) w f v (Quantity d) ]
    /\ uuid_supply s' = n + 4.

(** The elementary writes. *)
Definition minted (s : Store) : Store := snd (uuidv4 s).

Definition add_operation (co : CaseOperationRow) (s : Store) : Store :=
  with_dataSource (with_cases_operations (fun ops => ops ++ [co])) s.

Definition add_entry (e : WineInventoryEntryRow) (s : Store) : Store :=
  with_dataSource (with_wine_inventory_entries (fun es => es ++ [e])) s.

(** The sum of the quantities of lines. *)
Definition quantity_total (lines : list ActivityDetail) : Z :=
  sumZ (List.map Quantity lines).

(** A case operation created under group [g] from identifier [n] on. *)
Definition created_in (defaultTenantId g : uuid) (n : nat) (co : CaseOperationRow) : Prop :=
  n <= co_id co /\ co_group_id co = g /\ co_tenant_id co = defaultTenantId.

(** A transfer activity of customer 900 with a "Case" line and two "Bottle"
    lines that move bottles of case detail 77 (in case 20) to case 30; wine 8
    has no counterpart in the example store. *)
Definition activity_transfer : Activity :=
  {| ActivityID := 502; AccountID := Some 900%Z; TransactionType := "T"; Status := 1 |}.

Definition transfer_data : LegacyData :=
  {| activities := [activity_transfer];
     activityDetails :=
       [ {| ActivityDetailID := 11; detail_ActivityID := Some 502%Z;
            ActivityType := "Case"; CaseID := Some 30%Z; CaseDetailID := None;
            WineItemID := None; BottleSizeID := None; VintageID := None;
            Quantity := 1 |};
         bottle_line 12 502 30 (Some 77%Z) None None None 4;
         bottle_line 13 502 30 (Some 77%Z) (Some 7%Z) (Some 1%Z) (Some 2015%Z) 5 ];
     caseDetails :=
       [ {| legacy_case_detail_id := 77; legacy_case_id := Some 20%Z;
            legacy_wine_item_id := Some 8%Z; legacy_bottle_size_id := Some 1%Z;
            legacy_vintage_id := Some 2015%Z; WineQuantity := Some 6%Z |} ] |}.

(** An invariant of the state is kept. *)
Definition keeps (Inv : Store -> Prop) (s s' : Store) : Prop := Inv s -> Inv s'.

(** ** Placeholder wines *)

Definition placeholder_description (w : Z) : string :=
  "Legacy Wine - Veritas - " +:+ toString w.

Definition placeholder_wine (defaultTenantId p : uuid) (w : Z) : WineRow :=
  {| wine_id := p; wine_tenant_id := defaultTenantId;
     wine_legacy_id := Some (toString w);
     wine_description := placeholder_description w |}.

(** The store has exactly one wine for the legacy id [w], with identifier
    [p], and the memoization map does not say otherwise. *)
Definition one_wine (defaultTenantId : uuid) (w : Z) (p : uuid) (s : Store) : Prop :=
  List.map wine_id (select_wines defaultTenantId (toString w) s) = [p]
  /\ (wineMapId s !! KNum w = None \/ wineMapId s !! KNum w = Some p).

(** ** A deposit with a line whose bottle format has no target identifier *)

Definition activity_deposit : Activity :=
  {| ActivityID := 504; AccountID := Some 900%Z; TransactionType := "D"; Status := 1 |}.

(** Line 21 is on case 10 with bottle format 99, which the example store
    does not have; line 22 is on case 20 and resolves. *)
Definition unresolved_format_data : LegacyData :=
  {| activities := [activity_deposit];
     activityDetails :=
       [ bottle_line 21 504 10 None (Some 7%Z) (Some 99%Z) (Some 2015%Z) 3;
         bottle_line 22 504 20 None (Some 7%Z) (Some 1%Z) (Some 2015%Z) 2 ];
     caseDetails := [] |}.

Definition wine_rows (s : Store) : list WineRow := wines (dataSource s).

(** ** The legacy activity id in the logs of a case operation *)

(** [JSON.stringify([{ legacy_activity_id: n }])] for a number [n]. *)
Definition legacy_activity_stamp (n : Z) : string :=
  "[{" +:+ dquote +:+ "legacy_activity_id" +:+ dquote +:+ ":" +:+ toString n +:+ "}]".

(** A store in which activity 501 was recorded with its id as a JSON
    string: the search of [findExistingOperationGroup] finds it. *)
Definition recorded_store : Store :=
  {| dataSource :=
       {| users := users example_dataSource; cases := cases example_dataSource;
          wines := wines example_dataSource;
          wine_bottle_formats := wine_bottle_formats example_dataSource;
          wine_bottle_vintages := wine_bottle_vintages example_dataSource;
          operations_groups :=
            [ {| og_id := 60; og_tenant_id := tenant1; og_customer_id := 10;
                 og_status := Some processed |} ];
          cases_operations :=
            [ {| co_id := 61; co_tenant_id := tenant1; co_case_id := 20;
                 co_type := Some deposit; co_status := Some processed;
                 co_logs := "[{" +:+ dquote +:+ "legacy_activity_id" +:+ dquote +:+ ":"
                            +:+ dquote +:+ "501" +:+ dquote +:+ "}]";
                 co_group_id := 60 |} ];
          wine_inventory_entries := [] |};
     uuid_supply := 100;
     wineMapId := ∅; bottleFormatMapId := ∅; bottleVintageMapId := ∅ |}.

(** ** Snapshot entries seeded from the case details *)

Definition format_rows (s : Store) : list LegacyRow := wine_bottle_formats (dataSource s).
Definition vintage_rows (s : Store) : list LegacyRow := wine_bottle_vintages (dataSource s).
Definition case_rows (s : Store) : list LegacyRow := cases (dataSource s).

(** The first row the store returns for a legacy id. *)
Definition first_row (defaultTenantId : uuid) (rows : list LegacyRow) (n : Z) : option uuid :=
  row_id <$> head (select_rows defaultTenantId (toString n) rows).

Definition first_wine (defaultTenantId : uuid) (s : Store) (n : Z) : option uuid :=
  wine_id <$> head (select_wines defaultTenantId (toString n) s).

(** What a legacy bottle-format or vintage id resolves to with the maps
    loaded from the store: the first row with that legacy id and, for
    [null], the row the loaded map has under the key [null]. *)
Definition loaded_resolve (defaultTenantId : uuid) (rows : list LegacyRow)
    (legacy : option Z) : option uuid :=
  match legacy with
  | Some n => first_row defaultTenantId rows n
  | None => load_id_map defaultTenantId rows !! KNull
  end.

(** Everything of a ledger entry but its own identifier. *)
Definition entry_content (e : WineInventoryEntryRow)
    : uuid * option uuid * uuid * uuid * uuid * Z * option uuid :=
  (wie_tenant_id e, wie_operation_id e, wie_wine_id e, wie_bottle_format_id e,
   wie_bottle_vintage_id e, wie_amount e, wie_case_id e).

(** The snapshot entry of a case detail, when it has one: its wine, bottle
    format, vintage and case resolve and its quantity is positive. *)
Definition snapshot_of (defaultTenantId : uuid) (s : Store) (caseDetail : CaseDetail)
    : option (uuid * option uuid * uuid * uuid * uuid * Z * option uuid) :=
  if negb (truthy (legacy_wine_item_id caseDetail)) then None else
  match legacy_wine_item_id caseDetail with
  | None => None
  | Some n =>
  match first_wine defaultTenantId s n with
  | None => None
  | Some newWineId =>
  match loaded_resolve defaultTenantId (format_rows s) (legacy_bottle_size_id caseDetail) with
  | None => None
  | Some newBottleFormatId =>
  match loaded_resolve defaultTenantId (vintage_rows s) (legacy_vintage_id caseDetail) with
  | None => None
  | Some newBottleVintageId =>
  if not_greater_than_zero (WineQuantity caseDetail) then None else
  if negb (truthy (legacy_case_id caseDetail)) then None else
  match resolve_case (getCaseIdMap defaultTenantId s) (legacy_case_id caseDetail) with
  | None => None
  | Some newCaseId =>
      Some (defaultTenantId, None, newWineId, newBottleFormatId, newBottleVintageId,
            or_zero (WineQuantity caseDetail), Some newCaseId)
  end end end end end.

(** The snapshot entries of the tenant. *)
Definition snapshot_entries (defaultTenantId : uuid) (s : Store) : list WineInventoryEntryRow :=
  List.filter (is_snapshot_entry defaultTenantId) (entries s).

Definition other_entries (defaultTenantId : uuid) (s : Store) : list WineInventoryEntryRow :=
  List.filter (fun e => negb (is_snapshot_entry defaultTenantId e)) (entries s).

(** A memoization map agrees with the store: a number key has the first row
    of its legacy id, and the key [null] is as loaded. *)
Definition memo_sound (first : Z -> option uuid) (null_id : option uuid)
    (memo : gmap MapKey uuid) : Prop :=
  (forall n id, memo !! KNum n = Some id -> first n = Some id)
  /\ memo !! KNull = null_id.

(** The state during the seeding loop that started from the tables of [s0]. *)
Definition seeding (defaultTenantId : uuid) (s0 s : Store) : Prop :=
  wine_rows s = wine_rows s0 /\ format_rows s = format_rows s0
  /\ vintage_rows s = vintage_rows s0
  /\ memo_sound (first_wine defaultTenantId s0)
       (getWineIdMap defaultTenantId s0 !! KNull) (wineMapId s)
  /\ memo_sound (first_row defaultTenantId (format_rows s0))
       (load_id_map defaultTenantId (format_rows s0) !! KNull) (bottleFormatMapId s)
  /\ memo_sound (first_row defaultTenantId (vintage_rows s0))
       (load_id_map defaultTenantId (vintage_rows s0) !! KNull) (bottleVintageMapId s).

(** A snapshot entry as the seeding inserts them. *)
Definition seeded_entry (e : WineInventoryEntryRow) : Prop :=
  wie_operation_id e = None /\ (0 < wie_amount e)%Z /\ is_Some (wie_case_id e).

(** Case details for the example store: 77 resolves, 78 has no quantity
    left, 79 is of a wine the store does not have. *)
Definition snapshot_data : LegacyData :=
  {| activities := []; activityDetails := [];
     caseDetails :=
       [ {| legacy_case_detail_id := 77; legacy_case_id := Some 20%Z;
            legacy_wine_item_id := Some 7%Z; legacy_bottle_size_id := Some 1%Z;
            legacy_vintage_id := Some 2015%Z; WineQuantity := Some 6%Z |};
         {| legacy_case_detail_id := 78; legacy_case_id := Some 20%Z;
            legacy_wine_item_id := Some 7%Z; legacy_bottle_size_id := Some 1%Z;
            legacy_vintage_id := Some 2015%Z; WineQuantity := Some 0%Z |};
         {| legacy_case_detail_id := 79; legacy_case_id := Some 30%Z;
            legacy_wine_item_id := Some 8%Z; legacy_bottle_size_id := Some 1%Z;
            legacy_vintage_id := Some 2015%Z; WineQuantity := Some 2%Z |} ] |}.

(** A store that already holds a snapshot entry, and legacy data without
    case details. *)
Definition stale_entry : WineInventoryEntryRow :=
  {| wie_id := 70; wie_tenant_id := tenant1; wie_operation_id := None;
     wie_wine_id := 30; wie_bottle_format_id := 40; wie_bottle_vintage_id := 50;
     wie_amount := 12; wie_case_id := Some 20 |}.

Definition stale_store : Store :=
  with_dataSource (with_wine_inventory_entries (fun _ => [stale_entry])) example_store.

Definition no_caseDetails : LegacyData :=
  {| activities := []; activityDetails := []; caseDetails := [] |}.

(** ** A transfer with a line whose bottle format has no target identifier *)

(** Both lines move bottles of case detail 77 (in case 20) to case 30.
    Line 14 has bottle format 99, which the example store does not have;
    line 13 resolves. *)
Definition unresolved_transfer_data : LegacyData :=
  {| activities := [activity_transfer];
     activityDetails :=
       [ bottle_line 14 502 30 (Some 77%Z) (Some 7%Z) (Some 99%Z) (Some 2015%Z) 4;
         bottle_line 13 502 30 (Some 77%Z) (Some 7%Z) (Some 1%Z) (Some 2015%Z) 5 ];
     caseDetails :=
       [ {| legacy_case_detail_id := 77; legacy_case_id := Some 20%Z;
            legacy_wine_item_id := Some 8%Z; legacy_bottle_size_id := Some 1%Z;
            legacy_vintage_id := Some 2015%Z; WineQuantity := Some 6%Z |} ] |}.
(** * Vocabulary of the further properties *)

(** A table only grows at its end: the rows it had keep their place and
    their content, and the rows that follow them satisfy [P]. *)
Definition appends {B} (table : Store -> list B) (P : B -> Prop) (s s' : Store) : Prop :=
  exists new, table s' = table s ++ new /\ Forall P new.

Definition user_rows (s : Store) : list LegacyRow := users (dataSource s).

(** The rows of a table that carry a legacy id, whatever their tenant. *)
Definition rows_of_legacy (legacy : string) (rows : list LegacyRow) : list LegacyRow :=
  List.filter (fun r => bool_decide (row_legacy_id r = Some legacy)) rows.

(** Identifiers are primary keys and were all minted: no two case
    operations and no two ledger entries share an identifier, and the
    identifiers in use are below the supply. *)
Definition keys_wf (s : Store) : Prop :=
  store_wf s
  /\ NoDup (List.map co_id (operations s))
  /\ NoDup (List.map wie_id (entries s))
  /\ Forall (fun e => wie_id e < uuid_supply s) (entries s).

(** The case operations of group [g] are all of kind [ty]. *)
Definition group_typed (g : uuid) (ty : OperationType) (s : Store) : Prop :=
  Forall (fun co => co_group_id co = g -> co_type co = Some ty) (operations s).

(** A deposit or withdrawal line is reconciled: its case resolves, and so do
    its wine, bottle format and vintage. *)
Definition deposit_reconciles (sc : Script) (defaultTenantId : uuid)
    (legacyData : LegacyData) (caseIdMap : gmap MapKey uuid) (s : Store)
    (d : ActivityDetail) : bool :=
  bool_decide (is_Some (resolve_case caseIdMap (CaseID d)))
  && inventory_resolves sc defaultTenantId legacyData caseIdMap s d.

(** What a run that only reconciles activities may do to the store of
    tenant [T]: the users, the cases, the bottle formats and the bottle
    vintages are as they were, and the operation groups, the case operations
    and the wines keep their rows, followed by new rows of the tenant. *)
Definition append_only (defaultTenantId : uuid) (s s' : Store) : Prop :=
  user_rows s' = user_rows s /\ case_rows s' = case_rows s
  /\ format_rows s' = format_rows s /\ vintage_rows s' = vintage_rows s
  /\ appends groups (fun og => og_tenant_id og = defaultTenantId) s s'
  /\ appends operations (fun co => co_tenant_id co = defaultTenantId) s s'
  /\ appends wine_rows (fun w => wine_tenant_id w = defaultTenantId) s s'.

(** What [validateDependencies] asks of the target store: the customer of
    the activity is a user of the tenant, and the case of every line of the
    activity is a case of the tenant. *)
Definition dependencies_imported (defaultTenantId : uuid) (legacyData : LegacyData)
    (activity : Activity) (s : Store) : Prop :=
  (exists n, AccountID activity = Some n
             /\ select_rows defaultTenantId (toString n) (user_rows s) <> [])
  /\ Forall (fun d => exists n, CaseID d = Some n
                      /\ select_rows defaultTenantId (toString n) (case_rows s) <> [])
       (getInventoryActivityDetails legacyData activity).

(** The state after [createOperationGroup] has inserted its group. *)
Definition add_group (og : OperationGroupRow) (s : Store) : Store :=
  with_dataSource (with_operations_groups (fun gs => gs ++ [og])) s.

Definition activity_group (sc : Script) (defaultTenantId customerId : uuid)
    (activity : Activity) (id : uuid) : OperationGroupRow :=
  {| og_id := id; og_tenant_id := defaultTenantId; og_customer_id := customerId;
     og_status := parseActivityStatus sc (Status activity) |}.

(** An activity of a kind the reconciler does not know, and an activity all
    of whose lines are "Supply" lines. *)
Definition activity_adjustment : Activity :=
  {| ActivityID := 505; AccountID := Some 900%Z; TransactionType := "A"; Status := 1 |}.

Definition supply_line (id activity case : Z) : ActivityDetail :=
  {| ActivityDetailID := id; detail_ActivityID := Some activity;
     ActivityType := "Supply"; CaseID := Some case; CaseDetailID := None;
     WineItemID := None; BottleSizeID := None; VintageID := None; Quantity := 1 |}.

Definition supply_data : LegacyData :=
  {| activities := [activity_status1];
     activityDetails := [supply_line 1 501 10; supply_line 2 501 20];
     caseDetails := [] |}.

(** No character of the text is a double quote. *)
Fixpoint no_dquote (text : string) : bool :=
  match text with
  | EmptyString => true
  | String c text' => negb (Ascii.eqb c "034"%char) && no_dquote text'
  end.

(** The [logs] the two scripts write: ["[]"] (import-case-data.js) or the
    stamp of a numeric activity id (migrate-specific-activity.js). *)
Definition written_logs (co : CaseOperationRow) : Prop :=
  co_logs co = "[]" \/ exists n, co_logs co = legacy_activity_stamp n.

(** The operation groups [clearExistingActivityData] finds for an activity,
    and what is to stay when they are cleared. *)
Definition found_groups (defaultTenantId : uuid) (activityId : string) (s : Store)
    : list uuid :=
  List.map og_id (select_activity_groups defaultTenantId activityId s).

Definition group_stays (defaultTenantId : uuid) (found : list uuid)
    (og : OperationGroupRow) : bool :=
  negb (bool_decide (og_id og ∈ found) && bool_decide (og_tenant_id og = defaultTenantId)).

Definition operation_stays (defaultTenantId : uuid) (found : list uuid)
    (co : CaseOperationRow) : bool :=
  negb (bool_decide (co_group_id co ∈ found)
        && bool_decide (co_tenant_id co = defaultTenantId)).

(** The store after the [DELETE]s of [clearExistingActivityData] for the
    groups found. *)
Definition clear_groups_of (defaultTenantId : uuid) (found : list OperationGroupRow)
    (s : Store) : Store :=
  fold_left (fun s group => with_dataSource (delete_group defaultTenantId (og_id group)) s)
    found s.

(** * Command lines

    [process.argv] is the list of the arguments, the first two being the
    path of node and the path of the script. *)

(** [s.split(sep)] for a one-character separator. *)
Fixpoint split (sep : ascii) (s : string) : list string :=
  match s with
  | EmptyString => [EmptyString]
  | String c s' =>
      if Ascii.eqb c sep then EmptyString :: split sep s'
      else
        match split sep s' with
        | piece :: pieces => String c piece :: pieces
        | [] => [String c EmptyString]
        end
  end.

(** [parseConfigPath(argv, defaultPath)] of utils/database-config.js:
    [argv.find(arg => arg.startsWith('--config='))], then
    [configArg ? configArg.split('=')[1] : defaultPath].  [None] is
    [undefined]. *)
Definition parseConfigPath (argv : list string) (defaultPath : string) : option string :=
  match List.find (String.prefix "--config=") argv with
  | Some configArg =>
      if String.eqb configArg "" then Some defaultPath
      else nth_error (split "=" configArg) 1
  | None => Some defaultPath
  end.

Definition default_config_path : string := "./database-import.local.config.json".

(** The command line of import-case-data.js. *)
Module ImportCaseDataCli.

Record Options := { clearExisting : bool; help : bool }.

(** The body of the [for (const arg of args)] loop: an unknown argument is
    warned about and changes nothing. *)
Definition parse_arg (options : Options) (arg : string) : Options :=
  if String.eqb arg "--clear-existing" then
    {| clearExisting := true; help := help options |}
  else if String.eqb arg "--help" || String.eqb arg "-h" then
    {| clearExisting := clearExisting options; help := true |}
  else options.

(** [parseArguments()] *)
Definition parseArguments (argv : list string) : Options :=
  fold_left parse_arg (drop 2 argv) {| clearExisting := false; help := false |}.

(** What [bootstrap] goes on to do once the command line is read: show the
    help and return, or connect with the configuration of [configPath] and
    run [seed({ clearExisting })]. *)
Inductive Start :=
  | ShowHelp
  | Seed (clearExisting : bool) (configPath : option string).

Definition bootstrap (argv : list string) : Start :=
  let options := parseArguments argv in
  let configPath := parseConfigPath argv default_config_path in
  if help options then ShowHelp
  else Seed (clearExisting options) configPath.

End ImportCaseDataCli.

(** The command line of migrate-specific-activity.js. *)
Module MigrateSpecificActivityCli.

(** [options.activityId]: [null] at first, then [args[i + 1]], which is
    [undefined] past the end of the arguments. *)
Inductive ActivityIdOption :=
  | IdNull
  | IdUndefined
  | IdString (s : string).

Record Options := {
  activityId : ActivityIdOption;
  clearExisting : bool;
  help : bool
}.

(** The [for (let i = 0; i < args.length; i++)] loop from [args[i]] on: the
    argument after [--activity-id] is its value and is skipped. *)
Fixpoint parse_from (args : list string) (options : Options) : Options :=
  match args with
  | [] => options
  | arg :: rest =>
      if String.eqb arg "--activity-id" then
        match rest with
        | [] =>
            {| activityId := IdUndefined; clearExisting := clearExisting options;
               help := help options |}
        | value :: rest' =>
            parse_from rest'
              {| activityId := IdString value; clearExisting := clearExisting options;
                 help := help options |}
        end
      else if String.eqb arg "--clear-existing" then
        parse_from rest
          {| activityId := activityId options; clearExisting := true;
             help := help options |}
      else if String.eqb arg "--help" || String.eqb arg "-h" then
        parse_from rest
          {| activityId := activityId options; clearExisting := clearExisting options;
             help := true |}
      else parse_from rest options
  end.

(** [parseArguments()] *)
Definition parseArguments (argv : list string) : Options :=
  parse_from (drop 2 argv) {| activityId := IdNull; clearExisting := false; help := false |}.

(** [!options.activityId] *)
Definition missing (id : ActivityIdOption) : bool :=
  match id with
  | IdString s => String.eqb s ""
  | _ => true
  end.

(** What [bootstrap] goes on to do: show the help and return, complain
    that [--activity-id] is required and exit with code 1, or connect and
    run [migrate(options.activityId, { clearExisting })]. *)
Inductive Start :=
  | ShowHelp
  | ActivityIdRequired
  | Migrate (activityId : string) (clearExisting : bool) (configPath : option string).

Definition bootstrap (argv : list string) : Start :=
  let options := parseArguments argv in
  let configPath := parseConfigPath argv default_config_path in
  if help options then ShowHelp
  else
    match activityId options with
    | IdString id =>
        if String.eqb id "" then ActivityIdRequired
        else Migrate id (clearExisting options) configPath
    | _ => ActivityIdRequired
    end.

End MigrateSpecificActivityCli.

(** The command line of full-migration.js, and the arguments it runs
    import-case-data.js with. *)
Module FullMigrationCli.

Record Options := {
  extractData : bool;
  deleteData : bool;
  clearExisting : bool;
  config : option string;
  help : bool
}.

Definition parse_arg (options : Options) (arg : string) : Options :=
  if String.eqb arg "--extract-data" then
    {| extractData := true; deleteData := deleteData options;
       clearExisting := clearExisting options; config := config options;
       help := help options |}
  else if String.eqb arg "--no-delete-data" then
    {| extractData := extractData options; deleteData := false;
       clearExisting := clearExisting options; config := config options;
       help := help options |}
  else if String.eqb arg "--clear-existing" then
    {| extractData := extractData options; deleteData := deleteData options;
       clearExisting := true; config := config options; help := help options |}
  else if String.eqb arg "--help" || String.eqb arg "-h" then
    {| extractData := extractData options; deleteData := deleteData options;
       clearExisting := clearExisting options; config := config options;
       help := true |}
  else if String.prefix "--config=" arg then
    {| extractData := extractData options; deleteData := deleteData options;
       clearExisting := clearExisting options;
       config := nth_error (split "=" arg) 1; help := help options |}
  else options.

(** [parseArguments()] *)
Definition parseArguments (argv : list string) : Options :=
  fold_left parse_arg (drop 2 argv)
    {| extractData := false; deleteData := true; clearExisting := true;
       config := None; help := false |}.

(** [caseArgs] of [step4ImportData]: [this.options.config] is pushed when
    truthy. *)
Definition caseArgs (options : Options) : list string :=
  (if clearExisting options then ["--clear-existing"] else [])
  ++ match config options with
     | Some path => if String.eqb path "" then [] else ["--config=" +:+ path]
     | None => []
     end.

End FullMigrationCli.

(** * The seeding run of import-case-data.js: tenant, clearing, cases

    The methods below read and write more of the database than the
    reconciliation does.  The table [cases] is kept in two parts: the
    columns [id], [tenant_id] and [legacy_id], which the reconciliation
    reads, are the rows of [cases] in the store; the other columns are the
    rows of [cases_columns], with the [id] of their row. *)

Record TenantRow := {
  tenant_id : uuid;
  tenant_name : string;
  tenant_document_number : string
}.

Record CaseColumns := {
  cc_id : uuid;
  cc_customer_id : uuid;
  cc_name : string;
  cc_location : option string;
  cc_description : string;
  cc_billing_ended : bool;
  cc_max_items : option Z;
  cc_current_items : Z
}.

(** A row of [operation_extras] or [operations_requests]: the seeding only
    deletes them, by tenant. *)
Record TenantOwned := {
  owned_id : uuid;
  owned_tenant_id : uuid
}.

(** The database and the fields [this.caseIdMap] and [this.customerIdMap],
    which [seedCases] creates when they are not there yet ([None]). *)
Record Seeder := {
  store : Store;
  tenants : list TenantRow;
  cases_columns : list CaseColumns;
  operation_extras : list TenantOwned;
  operations_requests : list TenantOwned;
  this_caseIdMap : option (gmap MapKey uuid);
  this_customerIdMap : option (list (MapKey * uuid))
}.

Definition with_store (f : Store -> Store) (sd : Seeder) : Seeder :=
  {| store := f (store sd); tenants := tenants sd; cases_columns := cases_columns sd;
     operation_extras := operation_extras sd;
     operations_requests := operations_requests sd;
     this_caseIdMap := this_caseIdMap sd; this_customerIdMap := this_customerIdMap sd |}.

Definition with_cases (f : list LegacyRow -> list LegacyRow) (d : DataSource) : DataSource :=
  {| users := users d; cases := f (cases d); wines := wines d;
     wine_bottle_formats := wine_bottle_formats d;
     wine_bottle_vintages := wine_bottle_vintages d;
     operations_groups := operations_groups d;
     cases_operations := cases_operations d;
     wine_inventory_entries := wine_inventory_entries d |}.

(** The extracted data [seedCases] reads: [cases-cases.json], [accounts.json]
    and [cases-caseLocations.json].  [is_active] is the text 'true' or
    'false' of the extraction query; [CaseNumber] is given as the text it
    renders to in a template string. *)
Module Legacy.

Record Case := {
  legacy_case_id : option Z;
  legacy_account_id : option Z;
  is_active : string;
  MaxQuantity : option Z;
  CaseNumber : string;
  legacy_case_location_id : option Z
}.

Record Account := {
  account_legacy_account_id : option Z
}.

Record CaseLocation := {
  location_legacy_case_location_id : option Z;
  CaseLocationName : option string
}.

Record Data := {
  cases : list Case;
  accounts : list Account;
  caseLocations : list CaseLocation
}.

End Legacy.

(** The counters of [seedCases], which it logs when done. *)
Record CaseCounters := {
  inserted : nat;
  skipped : nat;
  noAccountFound : nat;
  userNotImported : nat
}.

(** Methods over the whole database. *)
Definition Run (A : Type) : Type := Seeder -> Completion A * Seeder.

Definition run_ret {A} (a : A) : Run A := fun sd => (Normal a, sd).

Definition run_bind {A B} (m : Run A) (k : A -> Run B) : Run B :=
  fun sd =>
    match m sd with
    | (Normal a, sd') => k a sd'
    | (Throw e, sd') => (Throw e, sd')
    end.

Definition run_gets {A} (f : Seeder -> A) : Run A := fun sd => (Normal (f sd), sd).
Definition run_modify (f : Seeder -> Seeder) : Run unit := fun sd => (Normal tt, f sd).

(** A method of the reconciliation, run on the store of the database. *)
Definition lift {A} (m : Async A) : Run A :=
  fun sd =>
    match m (store sd) with
    | (c, s') => (c, with_store (fun _ => s') sd)
    end.

Declare Scope run_scope.
Delimit Scope run_scope with run.
Notation "x <- m ;; k" := (run_bind m (fun x => k))
  (at level 100, m at next level, right associativity) : run_scope.
Notation "m ;;; k" := (run_bind m (fun _ => k))
  (at level 100, right associativity) : run_scope.

(** [for (const x of xs) { ... }] with the local variables of the loop in
    [acc]; the body returns them as they are at the end of the iteration,
    also on [continue]. *)
Fixpoint run_for_of {A B} (xs : list A) (body : B -> A -> Run B) (acc : B) : Run B :=
  match xs with
  | [] => run_ret acc
  | x :: xs' => run_bind (body acc x) (run_for_of xs' body)
  end.

Section SeederMethods.

Local Open Scope run_scope.

(** [SELECT id FROM tenants WHERE name = $1] *)
Definition select_tenants (tenantName : string) (sd : Seeder) : list TenantRow :=
  List.filter (fun t => bool_decide (tenant_name t = tenantName)) (tenants sd).

(** [createDefaultTenant(dataSource, tenantName, documentNumber)] of
    utils/tenant-utils.js; its [catch] logs and throws again. *)
Definition createDefaultTenant (tenantName documentNumber : string) : Run uuid :=
  existingTenant <- run_gets (select_tenants tenantName) ;;
  match existingTenant with
  | [] =>
      tenantId <- lift uuidv4 ;;
      run_modify (fun sd =>
        {| store := store sd;
           tenants := tenants sd ++
             [ {| tenant_id := tenantId; tenant_name := tenantName;
                  tenant_document_number := documentNumber |} ];
           cases_columns := cases_columns sd;
           operation_extras := operation_extras sd;
           operations_requests := operations_requests sd;
           this_caseIdMap := this_caseIdMap sd;
           this_customerIdMap := this_customerIdMap sd |}) ;;;
      run_ret tenantId
  | t :: _ => run_ret (tenant_id t)
  end.

(** [getTenantByName(dataSource, tenantName)] *)
Definition getTenantByName (tenantName : string) : Run (option uuid) :=
  tenant <- run_gets (select_tenants tenantName) ;;
  run_ret (tenant_id <$> head tenant).

Context (defaultTenantId : uuid).

Definition other_tenant {A} (tenant_of : A -> uuid) (row : A) : bool :=
  negb (bool_decide (tenant_of row = defaultTenantId)).

(** [clearExistingData()]: the six [DELETE ... WHERE tenant_id = $1], in
    the order of the source.  The rows of [cases_columns] go with their row
    of [cases]. *)
Definition clearExistingData : Run unit :=
  run_modify (with_store (with_dataSource (with_wine_inventory_entries
    (List.filter (other_tenant wie_tenant_id))))) ;;;
  run_modify (fun sd =>
    {| store := store sd; tenants := tenants sd; cases_columns := cases_columns sd;
       operation_extras := List.filter (other_tenant owned_tenant_id) (operation_extras sd);
       operations_requests := operations_requests sd;
       this_caseIdMap := this_caseIdMap sd;
       this_customerIdMap := this_customerIdMap sd |}) ;;;
  run_modify (with_store (with_dataSource (with_cases_operations
    (List.filter (other_tenant co_tenant_id))))) ;;;
  run_modify (fun sd =>
    {| store := store sd; tenants := tenants sd; cases_columns := cases_columns sd;
       operation_extras := operation_extras sd;
       operations_requests :=
         List.filter (other_tenant owned_tenant_id) (operations_requests sd);
       this_caseIdMap := this_caseIdMap sd;
       this_customerIdMap := this_customerIdMap sd |}) ;;;
  run_modify (with_store (with_dataSource (with_operations_groups
    (List.filter (other_tenant og_tenant_id))))) ;;;
  run_modify (fun sd =>
    let deleted :=
      List.map row_id
        (List.filter (fun r => bool_decide (row_tenant_id r = defaultTenantId))
           (cases (dataSource (store sd)))) in
    {| store := with_dataSource (with_cases (List.filter (other_tenant row_tenant_id)))
                  (store sd);
       tenants := tenants sd;
       cases_columns :=
         List.filter (fun c => negb (bool_decide (cc_id c ∈ deleted))) (cases_columns sd);
       operation_extras := operation_extras sd;
       operations_requests := operations_requests sd;
       this_caseIdMap := this_caseIdMap sd;
       this_customerIdMap := this_customerIdMap sd |}).

Context (legacyCases : Legacy.Data).

(** [v.toString()] of a number-or-null, over the database. *)
Definition run_toString_of (v : option Z) : Run string := lift (toString_of v).

(** [this.legacyData.caseLocations.find(...)] and the [caseLocation] of a
    case: the name of the location when the case has a truthy location id
    and the location is found. *)
Definition caseLocation_of (caseData : Legacy.Case) : option string :=
  if truthy (Legacy.legacy_case_location_id caseData) then
    match List.find
            (fun loc => bool_decide (Legacy.location_legacy_case_location_id loc
                                     = Legacy.legacy_case_location_id caseData))
            (Legacy.caseLocations legacyCases) with
    | Some location => Legacy.CaseLocationName location
    | None => None
    end
  else None.

(** The two parts of the row [seedCases] inserts. *)
Definition case_row (caseId : uuid) (key : string) : LegacyRow :=
  {| row_id := caseId; row_tenant_id := defaultTenantId; row_legacy_id := Some key |}.

Definition case_columns_of (caseId customerId : uuid) (caseData : Legacy.Case)
    : CaseColumns :=
  {| cc_id := caseId; cc_customer_id := customerId;
     cc_name := "#" +:+ Legacy.CaseNumber caseData;
     cc_location := caseLocation_of caseData;
     cc_description :=
       "Legacy Case ID: " +:+ js_string (Legacy.legacy_case_id caseData)
       +:+ ". Legacy Case Status: " +:+ Legacy.is_active caseData +:+ ".";
     cc_billing_ended := String.eqb (Legacy.is_active caseData) "false";
     cc_max_items := Legacy.MaxQuantity caseData;
     cc_current_items := 0 |}.

(** [SELECT id FROM cases WHERE legacy_id = $1] and [SELECT id FROM users
    WHERE legacy_user_id = $1]: no tenant in these two. *)
Definition select_cases_by_legacy (key : string) (sd : Seeder) : list LegacyRow :=
  rows_of_legacy key (cases (dataSource (store sd))).

Definition select_users_by_legacy (key : string) (sd : Seeder) : list LegacyRow :=
  rows_of_legacy key (users (dataSource (store sd))).

(** [if (!this.caseIdMap) this.caseIdMap = new Map(); this.caseIdMap.set(...)]
    and the same for [this.customerIdMap]. *)
Definition remember_case (key : string) (caseId : uuid) (account : string)
    (customerId : uuid) (sd : Seeder) : Seeder :=
  {| store := store sd; tenants := tenants sd; cases_columns := cases_columns sd;
     operation_extras := operation_extras sd;
     operations_requests := operations_requests sd;
     this_caseIdMap :=
       Some (<[KStr key := caseId]> (default ∅ (this_caseIdMap sd)));
     this_customerIdMap :=
       Some (Map_set (KStr account) customerId (default [] (this_customerIdMap sd))) |}.

Definition insert_case (caseId customerId : uuid) (key : string)
    (caseData : Legacy.Case) (sd : Seeder) : Seeder :=
  {| store := with_dataSource (with_cases (fun rows => rows ++ [case_row caseId key]))
                (store sd);
     tenants := tenants sd;
     cases_columns := cases_columns sd ++ [case_columns_of caseId customerId caseData];
     operation_extras := operation_extras sd;
     operations_requests := operations_requests sd;
     this_caseIdMap := this_caseIdMap sd;
     this_customerIdMap := this_customerIdMap sd |}.

Arguments remember_case : simpl never.
Arguments insert_case : simpl never.

(** The body of the loop of [seedCases]. *)
Definition seed_case (counters : CaseCounters) (caseData : Legacy.Case)
    : Run CaseCounters :=
  key <- run_toString_of (Legacy.legacy_case_id caseData) ;;
  existing <- run_gets (select_cases_by_legacy key) ;;
  match existing with
  | _ :: _ =>
      run_ret {| inserted := inserted counters; skipped := S (skipped counters);
                 noAccountFound := noAccountFound counters;
                 userNotImported := userNotImported counters |}
  | [] =>
      match List.find
              (fun acc => bool_decide (Legacy.account_legacy_account_id acc
                                       = Legacy.legacy_account_id caseData))
              (Legacy.accounts legacyCases) with
      | None =>
          run_ret {| inserted := inserted counters; skipped := skipped counters;
                     noAccountFound := S (noAccountFound counters);
                     userNotImported := userNotImported counters |}
      | Some _ =>
          account <- run_toString_of (Legacy.legacy_account_id caseData) ;;
          newUser <- run_gets (select_users_by_legacy account) ;;
          match newUser with
          | [] =>
              run_ret {| inserted := inserted counters; skipped := skipped counters;
                         noAccountFound := noAccountFound counters;
                         userNotImported := S (userNotImported counters) |}
          | user :: _ =>
              let customerId := row_id user in
              caseId <- lift uuidv4 ;;
              run_modify (insert_case caseId customerId key caseData) ;;;
              run_modify (remember_case key caseId account customerId) ;;;
              run_ret {| inserted := S (inserted counters); skipped := skipped counters;
                         noAccountFound := noAccountFound counters;
                         userNotImported := userNotImported counters |}
          end
      end
  end.

(** [seedCases()]; the result is the counters it logs. *)
Definition seedCases : Run CaseCounters :=
  run_for_of (Legacy.cases legacyCases) seed_case
    {| inserted := 0; skipped := 0; noAccountFound := 0; userNotImported := 0 |}.

End SeederMethods.

(** [this.customerIdMap = await this.getCustomerIdMap(); this.caseIdMap =
    await this.getCaseIdMap()], at the head of [seedOperationGroups] and of
    [seedWineInventoryEntriesFromCaseDetails]. *)
Definition assign_maps (defaultTenantId : uuid) : Run unit :=
  run_modify (fun sd =>
    {| store := store sd; tenants := tenants sd; cases_columns := cases_columns sd;
       operation_extras := operation_extras sd;
       operations_requests := operations_requests sd;
       this_caseIdMap := Some (getCaseIdMap defaultTenantId (store sd));
       this_customerIdMap := Some (getCustomerIdMap defaultTenantId (store sd)) |}).

(** [seed(options)], once the extracted data is loaded: the default tenant,
    the clearing when asked for, the cases, the operation groups and the
    snapshot entries.  Its [catch] logs and throws again. *)
Definition seed (legacyData : LegacyData) (legacyCases : Legacy.Data)
    (clearExisting : bool) : Run unit :=
  run_bind (createDefaultTenant "Veritas002" "VERITAS-002") (fun defaultTenantId =>
  run_bind (if clearExisting then clearExistingData defaultTenantId else run_ret tt) (fun _ =>
  run_bind (seedCases defaultTenantId legacyCases) (fun _ =>
  run_bind (assign_maps defaultTenantId) (fun _ =>
  run_bind (lift (seedOperationGroups defaultTenantId legacyData)) (fun _ =>
  run_bind (assign_maps defaultTenantId) (fun _ =>
  lift (seedWineInventoryEntriesFromCaseDetails defaultTenantId legacyData))))))).

(** ** Example database *)

Definition example_seeder : Seeder :=
  {| store := example_store; tenants := []; cases_columns := [];
     operation_extras := []; operations_requests := [];
     this_caseIdMap := None; this_customerIdMap := None |}.

(** Extracted cases: case 40 of account 900, which is imported; case 41 of
    account 901, which has no user; case 10, which is in the store already;
    case 42 of account 902, which is not among the accounts. *)
Definition example_cases : Legacy.Data :=
  {| Legacy.cases :=
       [ {| Legacy.legacy_case_id := Some 40%Z; Legacy.legacy_account_id := Some 900%Z;
            Legacy.is_active := "true"; Legacy.MaxQuantity := Some 12%Z;
            Legacy.CaseNumber := "A-40"; Legacy.legacy_case_location_id := Some 5%Z |};
         {| Legacy.legacy_case_id := Some 41%Z; Legacy.legacy_account_id := Some 901%Z;
            Legacy.is_active := "true"; Legacy.MaxQuantity := Some 12%Z;
            Legacy.CaseNumber := "A-41"; Legacy.legacy_case_location_id := None |};
         {| Legacy.legacy_case_id := Some 10%Z; Legacy.legacy_account_id := Some 900%Z;
            Legacy.is_active := "false"; Legacy.MaxQuantity := Some 6%Z;
            Legacy.CaseNumber := "A-10"; Legacy.legacy_case_location_id := None |};
         {| Legacy.legacy_case_id := Some 42%Z; Legacy.legacy_account_id := Some 902%Z;
            Legacy.is_active := "true"; Legacy.MaxQuantity := None;
            Legacy.CaseNumber := "A-42"; Legacy.legacy_case_location_id := None |} ];
     Legacy.accounts :=
       [ {| Legacy.account_legacy_account_id := Some 900%Z |};
         {| Legacy.account_legacy_account_id := Some 901%Z |} ];
     Legacy.caseLocations :=
       [ {| Legacy.location_legacy_case_location_id := Some 5%Z;
            Legacy.CaseLocationName := Some "Cellar 5" |} ] |}.

(** A case [seedCases] does not insert: a row carries its legacy id
    already, or its account is not among the extracted accounts, or no user
    carries its account id. *)
Definition case_settled (legacyCases : Legacy.Data) (sd : Seeder)
    (caseData : Legacy.Case) : Prop :=
  exists n,
    Legacy.legacy_case_id caseData = Some n
    /\ (select_cases_by_legacy (toString n) sd <> []
        \/ List.find
             (fun acc => bool_decide (Legacy.account_legacy_account_id acc
                                      = Legacy.legacy_account_id caseData))
             (Legacy.accounts legacyCases) = None
        \/ exists a, Legacy.legacy_account_id caseData = Some a
                     /\ select_users_by_legacy (toString a) sd = []).

Definition counted (counters : CaseCounters) : nat :=
  inserted counters + skipped counters + noAccountFound counters
  + userNotImported counters.

(** The tables [seedCases] does not write. *)
Definition beside_cases (sd : Seeder)
    : list LegacyRow * list WineRow * list LegacyRow * list LegacyRow
      * list OperationGroupRow * list CaseOperationRow * list WineInventoryEntryRow
      * list TenantRow * list TenantOwned * list TenantOwned :=
  (users (dataSource (store sd)), wines (dataSource (store sd)),
   wine_bottle_formats (dataSource (store sd)),
   wine_bottle_vintages (dataSource (store sd)),
   operations_groups (dataSource (store sd)),
   cases_operations (dataSource (store sd)),
   wine_inventory_entries (dataSource (store sd)),
   tenants sd, operation_extras sd, operations_requests sd).

(** The database after [createDefaultTenant] has inserted a tenant. *)
Definition add_tenant (t : TenantRow) (sd : Seeder) : Seeder :=
  {| store := minted (store sd); tenants := tenants sd ++ [t];
     cases_columns := cases_columns sd;
     operation_extras := operation_extras sd;
     operations_requests := operations_requests sd;
     this_caseIdMap := this_caseIdMap sd;
     this_customerIdMap := this_customerIdMap sd |}.

(** What a run of [seed] for the tenant [T] may write, once the tenant is
    there.  The users, the bottle formats, the bottle vintages and the
    tenants stay as they are, and the wines keep their rows, followed by new
    wines of the tenant.  Without --clear-existing the cases, the operation
    groups and the case operations only grow in the same way. *)
Definition seed_writes (clearExisting : bool) (T : uuid) (sd sd' : Seeder) : Prop :=
  user_rows (store sd') = user_rows (store sd)
  /\ format_rows (store sd') = format_rows (store sd)
  /\ vintage_rows (store sd') = vintage_rows (store sd)
  /\ tenants sd' = tenants sd
  /\ appends wine_rows (fun w => wine_tenant_id w = T) (store sd) (store sd')
  /\ if clearExisting then True
     else appends case_rows (fun r => row_tenant_id r = T) (store sd) (store sd')
          /\ appends groups (fun og => og_tenant_id og = T) (store sd) (store sd')
          /\ appends operations (fun co => co_tenant_id co = T) (store sd) (store sd').

Definition run_preserves {A} (R : Seeder -> Seeder -> Prop) (m : Run A) : Prop :=
  forall sd, R sd (snd (m sd)).

(** The tenant [seed] creates when there is none of the name. *)
Definition veritas_tenant (id : uuid) : TenantRow :=
  {| tenant_id := id; tenant_name := "Veritas002";
     tenant_document_number := "VERITAS-002" |}.

(** * Properties of the reconciliation *)

(** ** Running asynchronous methods *)

Ltac run_async :=
  unfold bind, ret, gets, modify, throw, try_catch, uuidv4 in *; simpl in *.

Lemma bind_normal {A B} (m : Async A) (k : A -> Async B) s a s' :
  m s = (Normal a, s') -> bind m k s = k a s'.
Proof. intros H. unfold bind. by rewrite H. Qed.

Lemma bind_throw {A B} (m : Async A) (k : A -> Async B) s e s' :
  m s = (Throw e, s') -> bind m k s = (Throw e, s').
Proof. intros H. unfold bind. by rewrite H. Qed.

Lemma for_of_step {A B} (m : Async B) (xs : list A) (body : A -> Async unit) s :
  ((m ;;; ret tt) ;;; for_of xs body) s
  = match m s with
    | (Normal _, s1) => for_of xs body s1
    | (Throw e, s1) => (Throw e, s1)
    end.
Proof. unfold bind, ret. by destruct (m s) as [[b|e] s1]. Qed.

Lemma for_of_cons {A} (x : A) (xs : list A) (body : A -> Async unit) s :
  for_of (x :: xs) body s
  = match body x s with
    | (Normal _, s1) => for_of xs body s1
    | (Throw e, s1) => (Throw e, s1)
    end.
Proof. simpl. unfold bind. by destruct (body x s) as [[b|e] s1]. Qed.

Lemma filter_map_commute {A} (p : A -> bool) (f : A -> A) (l : list A) :
  (forall x, p (f x) = p x) ->
  List.filter p (List.map f l) = List.map f (List.filter p l).
Proof.
  intros Hp. induction l as [|x l IH]; simpl; [done|].
  rewrite Hp. destruct (p x); simpl; by rewrite IH.
Qed.

(** ** The status mapping (C8) *)

(** C8, as stated, fails on migrate-specific-activity.js: the legacy status
    code 5 is outside 1..4 and maps to "pending", not to undefined. *)
Lemma C8_counterexample :
  parseActivityStatus MigrateSpecificActivity 5 = Some pending
  /\ ~ (forall sc status, (status < 1 \/ 4 < status)%Z ->
          parseActivityStatus sc status = None).
Proof.
  split; [reflexivity|].
  intros H. specialize (H MigrateSpecificActivity 5%Z). simpl in H.
  assert (Some pending = None) as H' by (apply H; lia). discriminate H'.
Qed.

(** C8 (amended): in both scripts the legacy status codes 1, 2, 3, 4 map to
    processed, on_hold, confirmed, on_hold; for a code outside 1..4 the
    mapping of import-case-data.js falls through to undefined and the one of
    migrate-specific-activity.js returns "pending". *)
Theorem C8_status_mapping (sc : Script) (status : Z) :
  (status < 1 \/ 4 < status)%Z ->
  parseActivityStatus sc 1 = Some processed
  /\ parseActivityStatus sc 2 = Some on_hold
  /\ parseActivityStatus sc 3 = Some confirmed
  /\ parseActivityStatus sc 4 = Some on_hold
  /\ parseActivityStatus ImportCaseData status = None
  /\ parseActivityStatus MigrateSpecificActivity status = Some pending.
Proof.
  intros Hout. repeat split; try reflexivity.
  - destruct status as [|p|p]; try reflexivity.
    repeat (match goal with q : positive |- _ => destruct q end;
            try reflexivity; try lia).
  - destruct status as [|p|p]; try reflexivity.
    repeat (match goal with q : positive |- _ => destruct q end;
            try reflexivity; try lia).
Qed.

Lemma C8_status_mapping_witness :
  parseActivityStatus ImportCaseData 1 = Some processed
  /\ parseActivityStatus ImportCaseData 2 = Some on_hold
  /\ parseActivityStatus ImportCaseData 3 = Some confirmed
  /\ parseActivityStatus ImportCaseData 4 = Some on_hold
  /\ parseActivityStatus ImportCaseData 7 = None
  /\ parseActivityStatus MigrateSpecificActivity 7 = Some pending.
Proof. apply (C8_status_mapping ImportCaseData 7). right. lia. Defined.

(** ** The inventory ledger writer (C3) *)

Section Ledger.

Context (defaultTenantId : uuid).

Lemma entry_matches_set_amount op w f v n i e :
  entry_matches defaultTenantId op w f v (set_amount n i e)
  = entry_matches defaultTenantId op w f v e.
Proof. unfold set_amount. by case_bool_decide. Qed.

(** A post on a key without an entry appends one entry, with the amount
    given. *)
Lemma post_absent op w f v a s :
  select_entries defaultTenantId op w f v s = [] ->
  createCaseOperationInventoryEntry defaultTenantId op w f v a s =
    (Normal tt,
     with_dataSource (with_wine_inventory_entries (fun es => es ++
       [ {| wie_id := uuid_supply s; wie_tenant_id := defaultTenantId;
            wie_operation_id := Some op; wie_wine_id := w;
            wie_bottle_format_id := f; wie_bottle_vintage_id := v;
            wie_amount := a; wie_case_id := None |} ]))
       {| dataSource := dataSource s; uuid_supply := S (uuid_supply s);
          wineMapId := wineMapId s; bottleFormatMapId := bottleFormatMapId s;
          bottleVintageMapId := bottleVintageMapId s |}).
Proof.
  intros H. unfold createCaseOperationInventoryEntry. run_async.
  by rewrite H.
Qed.

(** A post on a key with an entry rewrites the amount of the first entry
    found and inserts nothing. *)
Lemma post_present op w f v b s e0 rest :
  select_entries defaultTenantId op w f v s = e0 :: rest ->
  createCaseOperationInventoryEntry defaultTenantId op w f v b s =
    (Normal tt,
     with_dataSource (with_wine_inventory_entries
       (List.map (set_amount (wie_amount e0 + b)%Z (wie_id e0)))) s).
Proof.
  intros H. unfold createCaseOperationInventoryEntry. run_async.
  by rewrite H.
Qed.

Lemma lookup_after_insert op w f v a s s' :
  select_entries defaultTenantId op w f v s = [] ->
  createCaseOperationInventoryEntry defaultTenantId op w f v a s = (Normal tt, s') ->
  select_entries defaultTenantId op w f v s' =
    [ {| wie_id := uuid_supply s; wie_tenant_id := defaultTenantId;
         wie_operation_id := Some op; wie_wine_id := w;
         wie_bottle_format_id := f; wie_bottle_vintage_id := v;
         wie_amount := a; wie_case_id := None |} ].
Proof.
  intros H0 Hpost. rewrite (post_absent _ _ _ _ _ _ H0) in Hpost.
  injection Hpost as <-. unfold select_entries in *. simpl.
  rewrite List.filter_app, H0. simpl.
  unfold entry_matches. simpl. by rewrite !bool_decide_eq_true_2.
Qed.

(** C3: on a key (operation, wine, bottle format, vintage) that has no
    ledger entry yet, posting [a] inserts one entry with amount [a], and
    posting [b] afterwards leaves exactly one entry for the key, with amount
    [a + b]: the second post inserts no row and does not overwrite. *)
Theorem C3_ledger_accumulation (op w f v : uuid) (a b : Z) (s : Store) :
  select_entries defaultTenantId op w f v s = [] ->
  let r1 := createCaseOperationInventoryEntry defaultTenantId op w f v a s in
  let r2 := createCaseOperationInventoryEntry defaultTenantId op w f v b (snd r1) in
  fst r1 = Normal tt /\ fst r2 = Normal tt
  /\ List.map wie_amount (select_entries defaultTenantId op w f v (snd r1)) = [a]
  /\ List.map wie_amount (select_entries defaultTenantId op w f v (snd r2)) = [(a + b)%Z]
  /\ length (wine_inventory_entries (dataSource (snd r1)))
     = S (length (wine_inventory_entries (dataSource s)))
  /\ length (wine_inventory_entries (dataSource (snd r2)))
     = length (wine_inventory_entries (dataSource (snd r1))).
Proof.
  intros H0 r1 r2.
  assert (Hr1 : r1 = (Normal tt, snd r1)).
  { subst r1. by rewrite (post_absent _ _ _ _ _ _ H0). }
  pose proof (lookup_after_insert _ _ _ _ _ _ _ H0 Hr1) as Hl1.
  assert (Hr2 : r2 = (Normal tt,
             with_dataSource (with_wine_inventory_entries
               (List.map (set_amount (a + b)%Z (uuid_supply s)))) (snd r1))).
  { subst r2. by rewrite (post_present _ _ _ _ _ _ _ _ Hl1). }
  split; [by rewrite Hr1|]. split; [by rewrite Hr2|].
  split; [by rewrite Hl1|].
  split.
  - rewrite Hr2. unfold select_entries in *. simpl.
    rewrite filter_map_commute by apply entry_matches_set_amount.
    rewrite Hl1. simpl. unfold set_amount. simpl.
    by rewrite bool_decide_eq_true_2.
  - split.
    + subst r1. rewrite (post_absent _ _ _ _ _ _ H0). simpl.
      rewrite length_app. simpl. lia.
    + rewrite Hr2. simpl. by rewrite length_map.
Qed.

End Ledger.

Lemma C3_ledger_accumulation_witness :
  let s := {| dataSource :=
                {| users := []; cases := []; wines := [];
                   wine_bottle_formats := []; wine_bottle_vintages := [];
                   operations_groups := []; cases_operations := [];
                   wine_inventory_entries := [] |};
              uuid_supply := 10; wineMapId := ∅; bottleFormatMapId := ∅;
              bottleVintageMapId := ∅ |} in
  let r1 := createCaseOperationInventoryEntry 1 2 3 4 5 3%Z s in
  let r2 := createCaseOperationInventoryEntry 1 2 3 4 5 2%Z (snd r1) in
  fst r1 = Normal tt /\ fst r2 = Normal tt
  /\ List.map wie_amount (select_entries 1 2 3 4 5 (snd r1)) = [3%Z]
  /\ List.map wie_amount (select_entries 1 2 3 4 5 (snd r2)) = [(3 + 2)%Z]
  /\ length (wine_inventory_entries (dataSource (snd r1))) = 1
  /\ length (wine_inventory_entries (dataSource (snd r2)))
     = length (wine_inventory_entries (dataSource (snd r1))).
Proof.
  intros s.
  apply (C3_ledger_accumulation 1 2 3 4 5 3%Z 2%Z s). reflexivity.
Defined.

(** ** Frame rules *)

Lemma same_preorder {B} (f : Store -> B) : PreOrder (same f).
Proof. split; unfold same; [by intros s | intros s1 s2 s3 H1 H2; congruence]. Qed.
#[global] Existing Instance same_preorder.

Lemma supply_grows_preorder : PreOrder supply_grows.
Proof. split; unfold supply_grows; [by intros s | intros s1 s2 s3 H1 H2; lia]. Qed.
#[global] Existing Instance supply_grows_preorder.

Lemma only_adds_preorder {B} (table : Store -> list B) (P : B -> Prop) :
  PreOrder (only_adds table P).
Proof.
  split; unfold only_adds.
  - intros s row Hrow. by left.
  - intros s1 s2 s3 H1 H2 row Hrow.
    destruct (H2 row Hrow) as [Hin|HP]; [by apply H1 | by right].
Qed.
#[global] Existing Instance only_adds_preorder.

Lemma keeps_preorder (Inv : Store -> Prop) : PreOrder (keeps Inv).
Proof. split; unfold keeps; [by intros s | intros s1 s2 s3 H1 H2 H; auto]. Qed.
#[global] Existing Instance keeps_preorder.

Lemma resolves_alike_preorder T : PreOrder (resolves_alike T).
Proof.
  split; unfold resolves_alike.
  - by intros s legacy.
  - intros s1 s2 s3 H1 H2 legacy.
    destruct (H1 legacy) as [E1 E2], (H2 legacy) as [E3 E4].
    split; congruence.
Qed.
#[global] Existing Instance resolves_alike_preorder.

Section Preserves.

Context (R : Store -> Store -> Prop) `{!PreOrder R}.

Lemma preserves_ret {A} (a : A) : preserves R (ret a).
Proof. intros s. simpl. reflexivity. Qed.

Lemma preserves_throw {A} (e : string) : preserves R (@throw A e).
Proof. intros s. simpl. reflexivity. Qed.

Lemma preserves_gets {A} (f : Store -> A) : preserves R (gets f).
Proof. intros s. simpl. reflexivity. Qed.

Lemma preserves_modify (f : Store -> Store) :
  (forall s, R s (f s)) -> preserves R (modify f).
Proof. intros H s. apply H. Qed.

Lemma preserves_uuidv4 :
  (forall s, R s (snd (uuidv4 s))) -> preserves R uuidv4.
Proof. intros H s. apply H. Qed.

Lemma preserves_bind {A B} (m : Async A) (k : A -> Async B) :
  preserves R m -> (forall a, preserves R (k a)) -> preserves R (bind m k).
Proof.
  intros Hm Hk s. unfold bind. specialize (Hm s).
  destruct (m s) as [[a|e] s1]; simpl in *; [|done].
  etransitivity; [exact Hm | apply Hk].
Qed.

Lemma preserves_try_catch {A} (m h : Async A) :
  preserves R m -> preserves R h -> preserves R (try_catch m h).
Proof.
  intros Hm Hh s. unfold try_catch. specialize (Hm s).
  destruct (m s) as [[a|e] s1]; simpl in *; [done|].
  etransitivity; [exact Hm | apply Hh].
Qed.

Lemma preserves_for_of {A} (xs : list A) (body : A -> Async unit) :
  (forall x, preserves R (body x)) -> preserves R (for_of xs body).
Proof.
  intros Hbody. induction xs as [|x xs IH]; simpl.
  - apply preserves_ret.
  - apply preserves_bind; [apply Hbody | intros _; apply IH].
Qed.

Lemma preserves_toString_of (v : option Z) : preserves R (toString_of v).
Proof. destruct v; [apply preserves_ret | apply preserves_throw]. Qed.

End Preserves.

Lemma preserves_and {A} (R1 R2 : Store -> Store -> Prop) (m : Async A) :
  preserves R1 m -> preserves R2 m -> preserves (fun s s' => R1 s s' /\ R2 s s') m.
Proof. intros H1 H2 s. split; [apply H1 | apply H2]. Qed.

Create HintDb preserves.

(** Decompose a method along its control flow; the leaves are the writes. *)
Ltac preserves_leaf :=
  intros ?; simpl;
  solve [ reflexivity
        | unfold supply_grows; simpl; lia
        | intros ?; split; reflexivity
        | intros ? ?; left; assumption
        | intros H; exact H
        | unfold only_adds; simpl;
          intros ? [?|[<-|[]]]%in_app_or; [left; assumption | right; reflexivity] ].

Ltac head_of t :=
  match t with
  | ?f _ => head_of f
  | _ => t
  end.

Ltac preserves_unfold :=
  match goal with
  | |- preserves _ ?m =>
      let h := head_of m in
      first [ is_const h | fail 1 ];
      lazymatch h with
      | @modify => fail
      | @uuidv4 => fail
      | _ => unfold h
      end
  end.

Ltac preserves_rule l := apply l; try (solve [typeclasses eauto]).

Ltac preserves_step :=
  first
    [ solve [auto with preserves]
    | preserves_rule @preserves_ret
    | preserves_rule @preserves_throw
    | preserves_rule @preserves_gets
    | preserves_rule @preserves_toString_of
    | preserves_rule @preserves_modify; preserves_leaf
    | preserves_rule @preserves_uuidv4; preserves_leaf
    | preserves_rule @preserves_try_catch
    | preserves_rule @preserves_for_of; intros ?
    | preserves_rule @preserves_bind; [|intros ?]
    | match goal with
      | |- preserves _ (match ?x with _ => _ end) => destruct x
      end
    | progress cbv beta zeta
    | preserves_unfold ].

Ltac preserves_auto := repeat preserves_step.

Section Frames.

Context (sc : Script) (T : uuid) (ld : LegacyData) (cm : gmap MapKey uuid).

(** Resolving the inventory of a line writes no operation, ledger entry or
    group, and the ledger writer writes no operation or group. *)
Lemma validate_same_operations d :
  preserves (same operations) (validateInventoryActivityDetail sc T ld cm d).
Proof. preserves_auto. Qed.

Lemma validate_same_entries d :
  preserves (same entries) (validateInventoryActivityDetail sc T ld cm d).
Proof. preserves_auto. Qed.

Lemma validate_supply_grows d :
  preserves supply_grows (validateInventoryActivityDetail sc T ld cm d).
Proof. preserves_auto. Qed.

Lemma post_same_operations op w f v q :
  preserves (same operations) (createCaseOperationInventoryEntry T op w f v q).
Proof. preserves_auto. Qed.

Lemma dispatch_same_groups g a :
  preserves (same groups) (dispatch sc T ld cm g a).
Proof. preserves_auto. Qed.

Lemma getCaseOperationFromActivityDetail_alike g a d :
  preserves (resolves_alike T) (getCaseOperationFromActivityDetail sc T cm g d a).
Proof. preserves_auto. Qed.

Lemma getCaseOperationFromActivityDetail_entries g a d :
  preserves (same entries) (getCaseOperationFromActivityDetail sc T cm g d a).
Proof. preserves_auto. Qed.

Lemma dispatch_supply_grows g a :
  preserves supply_grows (dispatch sc T ld cm g a).
Proof. preserves_auto. Qed.

End Frames.

(** ** Selection of the activities of a customer (C5) *)

(** C5, as stated, fails: of the two activities of customer 900, the full
    run selects the one whose legacy status is 1, which maps to "processed",
    and leaves out the one whose legacy status is 3, which maps to
    "confirmed". *)
Lemma C5_counterexample :
  getCustomerActivities status_data (KStr "900") example_store
  = (Normal [activity_status1], example_store)
  /\ In activity_status3 (activities status_data)
  /\ AccountID activity_status3 = Some 900%Z
  /\ parseActivityStatus ImportCaseData (Status activity_status3) = Some confirmed
  /\ parseActivityStatus ImportCaseData (Status activity_status1) = Some processed.
Proof. vm_compute. repeat split; auto. Qed.

Lemma is_customer_activity_spec k a :
  is_customer_activity k a = true <->
  truthy (AccountID a) = true /\ toString <$> AccountID a = Some k /\ Status a = 1%Z.
Proof.
  unfold is_customer_activity.
  rewrite !andb_true_iff, bool_decide_eq_true, Z.eqb_eq. tauto.
Qed.

Lemma createOperationGroup_groups sc T ld cm c a s :
  groups (snd (createOperationGroup sc T ld cm c a s))
  = groups s ++ [ {| og_id := uuid_supply s; og_tenant_id := T; og_customer_id := c;
                     og_status := parseActivityStatus sc (Status a) |} ].
Proof.
  unfold createOperationGroup. run_async.
  destruct sc; simpl; [|reflexivity].
  match goal with
  | |- context [dispatch ?sc ?T ?ld ?cm ?g ?a ?s1] =>
      pose proof (dispatch_same_groups sc T ld cm g a s1) as Hd;
      destruct (dispatch sc T ld cm g a s1) as [[[]|e] s2]
  end; simpl in *; unfold same in Hd; by rewrite Hd.
Qed.

(** The groups one customer's selected activities add. *)
Lemma customer_groups T ld cm c acts s s' :
  (forall a, In a acts -> Status a = 1%Z) ->
  for_of acts (fun a => createOperationGroup ImportCaseData T ld cm c a ;;; ret tt) s
  = (Normal tt, s') ->
  exists new, groups s' = groups s ++ new
    /\ List.map group_summary new = List.map (fun _ => (T, c, Some processed)) acts.
Proof.
  revert s. induction acts as [|a acts IH]; intros s Hst Hrun; simpl in Hrun.
  - injection Hrun as <-. exists []. by rewrite app_nil_r.
  - unfold bind at 1 in Hrun. unfold bind at 1 in Hrun.
    pose proof (createOperationGroup_groups ImportCaseData T ld cm c a s) as Hg.
    destruct (createOperationGroup ImportCaseData T ld cm c a s) as [[g|e] s1];
      simpl in *; [|discriminate].
    apply IH in Hrun as (new & Hnew & Hsum); [|by intros; apply Hst; right].
    eexists (_ :: new). split.
    + rewrite Hnew, Hg, <- app_assoc. reflexivity.
    + simpl. rewrite Hsum. unfold group_summary at 1. simpl.
      rewrite (Hst a) by (by left). reflexivity.
Qed.

Lemma getCustomerActivities_normal ld key s acts s' :
  getCustomerActivities ld key s = (Normal acts, s') ->
  s' = s /\ acts = customer_activities ld key.
Proof.
  unfold getCustomerActivities, customer_activities.
  destruct key; run_async.
  - destruct (existsb _ _); intros [= <- <-]; done.
  - intros [= <- <-]; done.
  - intros [= <- <-]; done.
Qed.

Lemma customer_activities_status ld key a :
  In a (customer_activities ld key) -> Status a = 1%Z.
Proof.
  destruct key; simpl; [done| |]; intros [_ H]%filter_In;
    by apply is_customer_activity_spec in H as (_ & _ & ?).
Qed.

Lemma all_customers_groups T ld cm customers s s' :
  for_of customers
    (fun entry =>
       customerActivities <- getCustomerActivities ld (fst entry) ;;
       for_of customerActivities
         (fun activity =>
            createOperationGroup ImportCaseData T ld cm (snd entry) activity ;;;
            ret tt)) s
  = (Normal tt, s') ->
  exists new, groups s' = groups s ++ new
    /\ List.map group_summary new = selected_groups T ld customers.
Proof.
  revert s. induction customers as [|[key c] customers IH]; intros s Hrun; simpl in Hrun.
  - injection Hrun as <-. exists []. by rewrite app_nil_r.
  - unfold bind at 1 in Hrun. unfold bind at 1 in Hrun. simpl in Hrun.
    destruct (getCustomerActivities ld key s) as [[acts|e] s0] eqn:Hacts;
      [|discriminate].
    apply getCustomerActivities_normal in Hacts as [-> ->].
    destruct (for_of (customer_activities ld key) _ s) as [[[]|e] s1] eqn:Hinner;
      [|discriminate].
    apply customer_groups in Hinner as (new1 & Hnew1 & Hsum1);
      [|apply customer_activities_status].
    apply IH in Hrun as (new2 & Hnew2 & Hsum2).
    exists (new1 ++ new2). split.
    + by rewrite Hnew2, Hnew1, <- app_assoc.
    + unfold selected_groups in *. simpl. by rewrite List.map_app, Hsum1, Hsum2.
Qed.

(** C5 (amended): in the full run the activities selected for a customer
    are exactly the legacy activities of that customer's account whose
    legacy status is 1, the code that maps to "processed" (not 3, the code
    that maps to "confirmed"); when the run completes, it has built one
    operation group, of status "processed", per selected activity, and
    none for any other activity. *)
Theorem C5_selected_activities (T : uuid) (ld : LegacyData) (s s' : Store) :
  seedOperationGroups T ld s = (Normal tt, s') ->
  (forall k a,
     In a (customer_activities ld (KStr k)) <->
     In a (activities ld) /\ truthy (AccountID a) = true
     /\ toString <$> AccountID a = Some k /\ Status a = 1%Z)
  /\ (forall k a, In a (customer_activities ld (KStr k)) ->
        parseActivityStatus ImportCaseData (Status a) = Some processed)
  /\ (forall k, getCustomerActivities ld (KStr k) s
                = (Normal (customer_activities ld (KStr k)), s))
  /\ exists new, groups s' = groups s ++ new
       /\ List.map group_summary new
          = selected_groups T ld (getCustomerIdMap T s).
Proof.
  intros Hrun. split; [|split; [|split]].
  - intros k a. simpl. rewrite filter_In, is_customer_activity_spec. tauto.
  - intros k a Hin. by rewrite (customer_activities_status _ _ _ Hin).
  - reflexivity.
  - unfold seedOperationGroups in Hrun. run_async.
    by apply all_customers_groups in Hrun.
Qed.

Lemma C5_selected_activities_witness :
  exists new,
    groups (snd (seedOperationGroups tenant1 status_data example_store))
    = groups example_store ++ new
    /\ List.map group_summary new = [(tenant1, 10, Some processed)].
Proof.
  destruct (C5_selected_activities tenant1 status_data example_store
              (snd (seedOperationGroups tenant1 status_data example_store)))
    as (_ & _ & _ & new & Hnew & Hsum).
  - vm_compute. reflexivity.
  - exists new. split; [exact Hnew | exact Hsum].
Defined.

(** ** Deposits and withdrawals: one case operation per group and case *)

Section Deposit.

Context (sc : Script) (T : uuid) (ld : LegacyData) (cm : gmap MapKey uuid).
Context (g : uuid) (a : Activity).

Lemma select_case_operations_group c s :
  select_case_operations T g c s
  = List.filter (fun co => bool_decide (co_case_id co = c)) (group_operations T g s).
Proof.
  unfold select_case_operations, group_operations, operations.
  induction (cases_operations (dataSource s)) as [|co l IH]; simpl; [done|].
  rewrite IH. clear IH.
  destruct (bool_decide (co_group_id co = g)) eqn:E1,
           (bool_decide (co_tenant_id co = T)) eqn:E2,
           (bool_decide (co_case_id co = c)) eqn:E3; simpl; rewrite ?E3; done.
Qed.

Lemma select_case_operations_nil c s :
  select_case_operations T g c s = [] <-> c ∉ group_cases T g s.
Proof.
  rewrite select_case_operations_group. unfold group_cases.
  induction (group_operations T g s) as [|co l IH]; simpl.
  - split; [intros _; apply not_elem_of_nil | done].
  - rewrite not_elem_of_cons. case_bool_decide; simpl.
    + split; [done | intros [? _]; congruence].
    + rewrite IH. split; [by intros ?; split | by intros [_ ?]].
Qed.

(** Find-or-reuse: when the group has a case operation on the case of the
    line, its identifier is returned and nothing is written. *)
Lemma getCaseOperationFromActivityDetail_reuse d s c co rest :
  resolve_case cm (CaseID d) = Some c ->
  select_case_operations T g c s = co :: rest ->
  getCaseOperationFromActivityDetail sc T cm g d a s = (Normal (Some (co_id co)), s).
Proof.
  unfold resolve_case, getCaseOperationFromActivityDetail, getCaseOperation.
  destruct (CaseID d) as [n|]; [|done]. intros Hc Hsel.
  destruct sc; run_async; unfold toString_of; run_async; rewrite Hc, Hsel; done.
Qed.

(** Find-or-create: what [getCaseOperationFromActivityDetail] writes. *)
Lemma getCaseOperationFromActivityDetail_operations d s :
  operations (snd (getCaseOperationFromActivityDetail sc T cm g d a s))
  = operations s ++ operation_added sc T cm a g s d.
Proof.
  unfold operation_added, resolve_case, getCaseOperationFromActivityDetail.
  destruct (CaseID d) as [n|] eqn:Hcase.
  2:{ destruct sc; run_async; unfold toString_of; run_async; by rewrite app_nil_r. }
  assert (Hpre : forall m : Async (option uuid),
            m s = (Normal (cm !! KStr (toString n)), s) ->
            operations (snd ((caseId <- m ;;
               match caseId with
               | Some caseId => getCaseOperation sc T cm g caseId a d
               | None => ret None
               end) s))
            = operations s ++
              match cm !! KStr (toString n) with
              | Some c =>
                  if bool_decide (c ∈ group_cases T g s) then []
                  else [detail_operation sc T a g (uuid_supply s) c]
              | None => []
              end).
  { intros m Hm. unfold bind at 1. rewrite Hm.
    destruct (cm !! KStr (toString n)) as [c|] eqn:Hc; simpl;
      [|by rewrite app_nil_r].
    unfold getCaseOperation. run_async.
    destruct (select_case_operations T g c s) as [|co rest] eqn:Hsel.
    - apply select_case_operations_nil in Hsel.
      rewrite bool_decide_eq_false_2 by done.
      unfold createCaseOperationFromActivityDetail, insert_case_operation.
      run_async. rewrite Hcase. unfold toString_of. run_async. by rewrite Hc.
    - rewrite bool_decide_eq_true_2; [by rewrite app_nil_r|].
      destruct (decide (c ∈ group_cases T g s)) as [|Hn]; [done|].
      apply select_case_operations_nil in Hn. congruence. }
  destruct sc; apply Hpre; unfold toString_of; run_async; done.
Qed.

(** The whole line writes that operation and no other. *)
Lemma deposit_line_operations d s :
  operations
    (snd (createOrUpdateCaseOperationFromActivityDepositOrWithdrawalActivityDetail
            sc T ld cm g d a s))
  = operations s ++ operation_added sc T cm a g s d.
Proof.
  unfold createOrUpdateCaseOperationFromActivityDepositOrWithdrawalActivityDetail.
  pose proof (getCaseOperationFromActivityDetail_operations d s) as Hfirst.
  unfold bind at 1.
  destruct (getCaseOperationFromActivityDetail sc T cm g d a s) as [[oid|e] s1];
    simpl in *; [|done].
  rewrite <- Hfirst.
  match goal with
  | |- operations (snd (?k s1)) = _ =>
      assert (Hk : preserves (same operations) k) by preserves_auto
  end.
  apply Hk.
Qed.

Lemma group_cases_app s s' new :
  operations s' = operations s ++ new ->
  group_cases T g s'
  = group_cases T g s
    ++ List.map co_case_id
         (List.filter (fun co => bool_decide (co_group_id co = g)
                                 && bool_decide (co_tenant_id co = T)) new).
Proof.
  intros H. unfold group_cases, group_operations. by rewrite H, List.filter_app, List.map_app.
Qed.

Lemma deposit_line_cases d s :
  group_cases T g
    (snd (createOrUpdateCaseOperationFromActivityDepositOrWithdrawalActivityDetail
            sc T ld cm g d a s))
  = group_cases T g s
    ++ match resolve_case cm (CaseID d) with
       | Some c => if bool_decide (c ∈ group_cases T g s) then [] else [c]
       | None => []
       end.
Proof.
  rewrite (group_cases_app _ _ _ (deposit_line_operations d s)).
  unfold operation_added. f_equal.
  destruct (resolve_case cm (CaseID d)) as [c|]; [|done].
  case_bool_decide; [done|]. simpl.
  by rewrite !bool_decide_eq_true_2.
Qed.

Lemma deposit_loop lines : forall s,
  NoDup (group_cases T g s) ->
  let r := for_of lines
             (fun d =>
                createOrUpdateCaseOperationFromActivityDepositOrWithdrawalActivityDetail
                  sc T ld cm g d a ;;; ret tt) s in
  NoDup (group_cases T g (snd r))
  /\ (fst r = Normal tt ->
      forall c, c ∈ group_cases T g (snd r)
                <-> c ∈ group_cases T g s \/ c ∈ resolved_cases cm lines).
Proof.
  induction lines as [|d lines IH]; intros s Hnd; simpl.
  - split; [done|]. intros _ c. unfold resolved_cases. simpl.
    rewrite elem_of_nil. tauto.
  - rewrite for_of_step.
    pose proof (deposit_line_cases d s) as Hstep.
    destruct (createOrUpdateCaseOperationFromActivityDepositOrWithdrawalActivityDetail
                sc T ld cm g d a s) as [[oid|e] s1]; simpl in *.
    + assert (Hnd1 : NoDup (group_cases T g s1)).
      { rewrite Hstep. destruct (resolve_case cm (CaseID d)) as [c|];
          [|by rewrite app_nil_r].
        case_bool_decide; [by rewrite app_nil_r|].
        apply NoDup_app. split; [done|]. split; [|apply NoDup_singleton].
        intros x Hx ->%list_elem_of_singleton. done. }
      destruct (IH s1 Hnd1) as [IH1 IH2]. split; [done|].
      intros Hok c. rewrite (IH2 Hok c), Hstep.
      unfold resolved_cases. simpl.
      destruct (resolve_case cm (CaseID d)) as [c'|]; simpl.
      * rewrite elem_of_cons. case_bool_decide.
        -- rewrite app_nil_r. split; [tauto|].
           intros [?|[->|?]]; auto.
        -- rewrite elem_of_app, list_elem_of_singleton. tauto.
      * rewrite app_nil_r. tauto.
    + split; [|done].
      rewrite Hstep. destruct (resolve_case cm (CaseID d)) as [c|];
        [|by rewrite app_nil_r].
      case_bool_decide; [by rewrite app_nil_r|].
      apply NoDup_app. split; [done|]. split; [|apply NoDup_singleton].
      intros x Hx ->%list_elem_of_singleton. done.
Qed.

(** Find-or-create per case.  Reconciling a deposit or withdrawal activity
    under a group that has no case operation yet leaves at most one case
    operation per case under the group, whatever the outcome; a line whose
    case already has one gets its identifier back and writes no operation,
    and what it posts it posts to the ledger of that operation; and when the reconciliation completes, the group has as many case
    operations as there are distinct resolvable cases among the lines of the
    activity. *)
Theorem one_operation_per_case_complete (s : Store) :
  group_operations T g s = [] ->
  let r := createCaseOperationsFromActivityDepositOrWithdrawal sc T ld cm g a s in
  NoDup (group_cases T g (snd r))
  /\ (forall s0 d c co rest,
        resolve_case cm (CaseID d) = Some c ->
        select_case_operations T g c s0 = co :: rest ->
        getCaseOperationFromActivityDetail sc T cm g d a s0
        = (Normal (Some (co_id co)), s0)
        /\ operations
             (snd (createOrUpdateCaseOperationFromActivityDepositOrWithdrawalActivityDetail
                     sc T ld cm g d a s0))
           = operations s0
        /\ forall w f v s1,
             validateInventoryActivityDetail sc T ld cm d s0 = (Normal (Some (w, f, v)), s1) ->
             snd (createOrUpdateCaseOperationFromActivityDepositOrWithdrawalActivityDetail
                    sc T ld cm g d a s0)
             = snd (createCaseOperationInventoryEntry T (co_id co) w f v (Quantity d) s1))
  /\ (fst r = Normal tt ->
      length (group_operations T g (snd r))
      = length (remove_dups (resolved_cases cm (getInventoryActivityDetails ld a)))).
Proof.
  intros Hfresh r.
  assert (Hnd : NoDup (group_cases T g s)).
  { unfold group_cases. rewrite Hfresh. apply NoDup_nil_2. }
  destruct (deposit_loop (getInventoryActivityDetails ld a) s Hnd) as [H1 H2].
  change (for_of (getInventoryActivityDetails ld a) _ s) with r in H1, H2.
  split; [exact H1|]. split.
  - intros s0 d c co rest Hc Hsel.
    pose proof (getCaseOperationFromActivityDetail_reuse d s0 c co rest Hc Hsel) as Hre.
    split; [exact Hre|]. split.
    + rewrite deposit_line_operations. unfold operation_added. rewrite Hc.
      rewrite bool_decide_eq_true_2; [by rewrite app_nil_r|].
      destruct (decide (c ∈ group_cases T g s0)) as [|Hn]; [done|].
      apply select_case_operations_nil in Hn. congruence.
    + intros w f v s1 Hval.
      unfold createOrUpdateCaseOperationFromActivityDepositOrWithdrawalActivityDetail.
      unfold bind at 1. rewrite Hre. unfold bind at 1. rewrite Hval.
      unfold destructure_validated. run_async.
      destruct sc; simpl;
        by destruct (createCaseOperationInventoryEntry T (co_id co) w f v (Quantity d) s1)
          as [[[]|e] s2].
  - intros Hok.
    rewrite <- (length_map co_case_id). fold (group_cases T g (snd r)).
    apply Permutation_length.
    apply NoDup_Permutation; [done | apply NoDup_remove_dups|].
    intros c. rewrite (H2 Hok c), elem_of_remove_dups.
    unfold group_cases at 1. rewrite Hfresh. simpl. rewrite elem_of_nil. tauto.
Qed.

End Deposit.

(** The activity 501 of the example has two lines on case 10: one case
    operation. *)
Lemma one_operation_per_case_complete_example :
  let cm := getCaseIdMap tenant1 example_store in
  let r := createCaseOperationsFromActivityDepositOrWithdrawal ImportCaseData tenant1
             status_data cm 100 activity_status1 example_store in
  group_operations tenant1 100 example_store = []
  /\ NoDup (group_cases tenant1 100 (snd r))
  /\ length (getInventoryActivityDetails status_data activity_status1) = 2
  /\ length (group_operations tenant1 100 (snd r)) = 1.
Proof.
  intros cm r.
  destruct (one_operation_per_case_complete ImportCaseData tenant1 status_data cm 100
              activity_status1 example_store) as (Hnd & _ & Hlen).
  - reflexivity.
  - split; [reflexivity|]. split; [exact Hnd|]. split; [reflexivity|].
    apply Hlen. vm_compute. reflexivity.
Defined.

(** ** Resolving the wine, bottle format and vintage of a line *)

Section Validate.

Context (sc : Script) (T : uuid) (ld : LegacyData) (cm : gmap MapKey uuid).

Lemma legacy_lookup direct cdid prop s :
  exists c,
    (if truthy direct then ret direct
     else getWinePropFromCaseDetail sc ld cm cdid prop) s = (c, s)
    /\ match c with
       | Normal v => v = legacy_value sc ld cm direct cdid prop
       | Throw _ => legacy_value sc ld cm direct cdid prop = None
       end.
Proof.
  unfold legacy_value, getWinePropFromCaseDetail, resolve_case, toString_of.
  destruct (truthy direct); [by eexists|].
  destruct (find_caseDetail ld cdid) as [cd|]; [|by eexists].
  destruct sc; [|by eexists].
  destruct (legacy_case_id cd) as [n|]; run_async; [|by eexists].
  destruct (cm !! KStr (toString n)); by eexists.
Qed.

Lemma truthy_Some l : truthy l = true -> exists n, l = Some n.
Proof. destruct l; [by eexists | done]. Qed.

Lemma getNewWineId_result l s :
  exists c s', getNewWineId T l s = (c, s')
    /\ match c with
       | Normal _ => True
       | Throw _ => l = None
       end.
Proof.
  unfold getNewWineId, toString_of. run_async.
  destruct (wineMapId s !! num_key l); [by do 2 eexists|].
  destruct l as [n|]; [|by do 2 eexists].
  destruct (select_wines T (toString n) s); by do 2 eexists.
Qed.

Lemma getNewBottleFormatId_result l s :
  exists c s', getNewBottleFormatId T l s = (c, s')
    /\ match c with
       | Normal r => truthy l = true -> (is_Some r <-> format_resolves T s l = true)
       | Throw _ => l = None
       end.
Proof.
  unfold getNewBottleFormatId, toString_of, format_resolves, id_resolves. run_async.
  destruct l as [n|]; simpl.
  - destruct (bottleFormatMapId s !! KNum n) as [id|] eqn:Hm.
    + do 2 eexists. split; [done|]. intros _.
      rewrite bool_decide_eq_true_2 by done. simpl. by split.
    + rewrite (bool_decide_eq_false_2 (is_Some None)) by (by intros [? ?]). simpl.
      destruct (select_rows T (toString n) (wine_bottle_formats (dataSource s)))
        as [|r rest]; do 2 eexists; (split; [done|]); intros _.
      * rewrite bool_decide_eq_false_2 by (by intros H; apply H).
        split; [by intros [? ?] | done].
      * rewrite bool_decide_eq_true_2 by done. by split.
  - destruct (bottleFormatMapId s !! KNull); by do 2 eexists.
Qed.

Lemma getNewBottleVintageId_result l s :
  exists c s', getNewBottleVintageId T l s = (c, s')
    /\ match c with
       | Normal r => truthy l = true -> (is_Some r <-> vintage_resolves T s l = true)
       | Throw _ => l = None
       end.
Proof.
  unfold getNewBottleVintageId, toString_of, vintage_resolves, id_resolves. run_async.
  destruct l as [n|]; simpl.
  - destruct (bottleVintageMapId s !! KNum n) as [id|] eqn:Hm.
    + do 2 eexists. split; [done|]. intros _.
      rewrite bool_decide_eq_true_2 by done. simpl. by split.
    + rewrite (bool_decide_eq_false_2 (is_Some None)) by (by intros [? ?]). simpl.
      destruct (select_rows T (toString n) (wine_bottle_vintages (dataSource s)))
        as [|r rest]; do 2 eexists; (split; [done|]); intros _.
      * rewrite bool_decide_eq_false_2 by (by intros H; apply H).
        split; [by intros [? ?] | done].
      * rewrite bool_decide_eq_true_2 by done. by split.
  - destruct (bottleVintageMapId s !! KNull); by do 2 eexists.
Qed.

(** Memoizing a resolved identifier does not change what resolves. *)
Lemma id_resolves_insert memo rows n r rest l :
  select_rows T (toString n) rows = r :: rest ->
  id_resolves T (<[KNum n := row_id r]> memo) rows l = id_resolves T memo rows l.
Proof.
  intros Hsel. unfold id_resolves. destruct l as [n'|]; [|done].
  destruct (decide (n = n')) as [<-|Hne].
  - rewrite lookup_insert_eq, Hsel.
    rewrite (bool_decide_eq_true_2 (is_Some (Some _))) by done.
    rewrite (bool_decide_eq_true_2 (_ <> [])) by done.
    by rewrite !orb_true_r.
  - rewrite lookup_insert_ne by congruence. done.
Qed.

Lemma getNewBottleFormatId_alike l :
  preserves (resolves_alike T) (getNewBottleFormatId T l).
Proof.
  intros s. unfold getNewBottleFormatId, toString_of. run_async.
  destruct (bottleFormatMapId s !! num_key l); [done|].
  destruct l as [n|]; simpl; [|done].
  destruct (select_rows T (toString n) (wine_bottle_formats (dataSource s)))
    as [|r rest] eqn:Hsel; simpl; [done|].
  intros legacy. split; [|done].
  unfold format_resolves. simpl. by eapply id_resolves_insert.
Qed.

Lemma getNewBottleVintageId_alike l :
  preserves (resolves_alike T) (getNewBottleVintageId T l).
Proof.
  intros s. unfold getNewBottleVintageId, toString_of. run_async.
  destruct (bottleVintageMapId s !! num_key l); [done|].
  destruct l as [n|]; simpl; [|done].
  destruct (select_rows T (toString n) (wine_bottle_vintages (dataSource s)))
    as [|r rest] eqn:Hsel; simpl; [done|].
  intros legacy. split; [done|].
  unfold vintage_resolves. simpl. by eapply id_resolves_insert.
Qed.

End Validate.

#[global] Hint Resolve getNewBottleFormatId_alike getNewBottleVintageId_alike : preserves.

Section ValidateResult.

Context (sc : Script) (T : uuid) (ld : LegacyData) (cm : gmap MapKey uuid).

Lemma getNewWineId_alike l : preserves (resolves_alike T) (getNewWineId T l).
Proof. preserves_auto. Qed.

Lemma validate_alike d :
  preserves (resolves_alike T) (validateInventoryActivityDetail sc T ld cm d).
Proof. preserves_auto. Qed.

Lemma dispatch_alike g a : preserves (resolves_alike T) (dispatch sc T ld cm g a).
Proof. preserves_auto. Qed.

Lemma inventory_resolves_alike s s' d :
  resolves_alike T s s' ->
  inventory_resolves sc T ld cm s' d = inventory_resolves sc T ld cm s d.
Proof.
  intros H. unfold inventory_resolves.
  destruct (H (legacy_format sc ld cm d)) as [-> _].
  destruct (H (legacy_vintage sc ld cm d)) as [_ ->]. done.
Qed.

(** [validateInventoryActivityDetail] never throws, and it returns
    identifiers exactly when the inventory of the line resolves. *)
Lemma validate_result d s :
  exists r, fst (validateInventoryActivityDetail sc T ld cm d s) = Normal r
    /\ (is_Some r <-> inventory_resolves sc T ld cm s d = true).
Proof.
  unfold validateInventoryActivityDetail, validate_try, inventory_resolves,
    legacy_wine, legacy_format, legacy_vintage.
  destruct (legacy_lookup sc ld cm (WineItemID d) (CaseDetailID d) "wineId" s)
    as (c1 & E1 & V1).
  destruct (legacy_lookup sc ld cm (BottleSizeID d) (CaseDetailID d) "bottleFormatId" s)
    as (c2 & E2 & V2).
  destruct (legacy_lookup sc ld cm (VintageID d) (CaseDetailID d) "bottleVintageId" s)
    as (c3 & E3 & V3).
  set (lw := legacy_value sc ld cm (WineItemID d) (CaseDetailID d) "wineId") in *.
  set (lf := legacy_value sc ld cm (BottleSizeID d) (CaseDetailID d) "bottleFormatId") in *.
  set (lv := legacy_value sc ld cm (VintageID d) (CaseDetailID d) "bottleVintageId") in *.
  assert (Hfail : forall x : option (uuid * uuid * uuid),
            x = None -> (truthy lw && truthy lf && truthy lv = false) ->
            is_Some x <->
            truthy lw && truthy lf && truthy lv
            && format_resolves T s lf && vintage_resolves T s lv = true).
  { intros x -> ->. simpl. split; [by intros [? ?] | done]. }
  unfold bind at 1. unfold try_catch.
  unfold bind at 1. rewrite E1.
  destruct c1 as [v1|e1].
  2:{ simpl. eexists. split; [reflexivity|]. apply Hfail; [done|]. by rewrite V1. }
  subst v1. unfold bind at 1. rewrite E2.
  destruct c2 as [v2|e2].
  2:{ simpl. eexists. split; [reflexivity|]. apply Hfail; [done|].
      rewrite V2. simpl. by rewrite andb_false_r. }
  subst v2. unfold bind at 1. rewrite E3.
  destruct c3 as [v3|e3].
  2:{ simpl. eexists. split; [reflexivity|]. apply Hfail; [done|].
      rewrite V3. simpl. by rewrite andb_false_r. }
  subst v3.
  destruct (getNewWineId_result T lw s) as (c4 & s1 & E4 & V4).
  pose proof (getNewWineId_alike lw s) as A4. rewrite E4 in A4. simpl in A4.
  unfold bind at 1. rewrite E4.
  destruct c4 as [w|e4].
  2:{ simpl. eexists. split; [reflexivity|]. apply Hfail; [done|]. by rewrite V4. }
  destruct (getNewBottleFormatId_result T lf s1) as (c5 & s2 & E5 & V5).
  pose proof (getNewBottleFormatId_alike T lf s1) as A5. rewrite E5 in A5. simpl in A5.
  unfold bind at 1. rewrite E5.
  destruct c5 as [f|e5].
  2:{ simpl. eexists. split; [reflexivity|]. apply Hfail; [done|].
      rewrite V5. simpl. by rewrite andb_false_r. }
  destruct (getNewBottleVintageId_result T lv s2) as (c6 & s3 & E6 & V6).
  unfold bind at 1. rewrite E6.
  destruct c6 as [v|e6].
  2:{ simpl. eexists. split; [reflexivity|]. apply Hfail; [done|].
      rewrite V6. simpl. by rewrite andb_false_r. }
  simpl.
  assert (Hf : truthy lf = true -> (is_Some f <-> format_resolves T s lf = true)).
  { intros Ht. rewrite (V5 Ht). by destruct (A4 lf) as [-> _]. }
  assert (Hv : truthy lv = true -> (is_Some v <-> vintage_resolves T s lv = true)).
  { intros Ht. rewrite (V6 Ht).
    destruct (A5 lv) as [_ ->]. by destruct (A4 lv) as [_ ->]. }
  clear V5 V6 A4 A5 E4 E5 E6 E1 E2 E3 V4.
  match goal with
  | |- context [bind ?m _ s3] =>
      assert (Hw : exists x s4, m s3 = (Normal x, s4))
  end.
  { destruct w; [by do 2 eexists|].
    unfold createNewWine, insert_wine. run_async.
    destruct sc; [|by do 2 eexists].
    destruct (match lw with Some n => select_wines T (toString n) s3 | None => [] end);
      by do 2 eexists. }
  destruct Hw as (x & s4 & Hw). unfold bind. rewrite Hw.
  destruct f as [f|], v as [v|]; simpl.
  - destruct (truthy lw) eqn:Tw; simpl;
      [|eexists; split; [reflexivity|]; split; [by intros [? ?] | done]].
    destruct (truthy lf) eqn:Tf; simpl;
      [|eexists; split; [reflexivity|]; split; [by intros [? ?] | done]].
    destruct (truthy lv) eqn:Tv; simpl;
      [|eexists; split; [reflexivity|]; split; [by intros [? ?] | done]].
    eexists; split; [reflexivity|].
    rewrite (proj1 (Hf eq_refl)) by done. rewrite (proj1 (Hv eq_refl)) by done.
    by split.
  - eexists; split; [reflexivity|]. split; [by intros [? ?]|].
    intros H. repeat (apply andb_true_iff in H as [H ?]).
    destruct (Hv ltac:(done)) as [_ Hx]. by destruct Hx.
  - eexists; split; [reflexivity|]. split; [by intros [? ?]|].
    intros H. repeat (apply andb_true_iff in H as [H ?]).
    destruct (Hf ltac:(done)) as [_ Hx]. by destruct Hx.
  - eexists; split; [reflexivity|]. split; [by intros [? ?]|].
    intros H. repeat (apply andb_true_iff in H as [H ?]).
    destruct (Hf ltac:(done)) as [_ Hx]. by destruct Hx.
Qed.

End ValidateResult.

(** ** Transfers: two fresh case operations per reconciled line and
    conservation of the quantity *)

Section Transfer.

Context (sc : Script) (T : uuid) (ld : LegacyData) (cm : gmap MapKey uuid).
Context (g : uuid) (a : Activity).

Lemma source_case_result id s :
  exists c, getCaseIdFromCaseDetail sc ld cm id s = (c, s)
    /\ match c with
       | Normal r => r = case_of_caseDetail ld cm id
       | Throw _ => case_of_caseDetail ld cm id = None
       end.
Proof.
  unfold getCaseIdFromCaseDetail, case_of_caseDetail, resolve_case, toString_of.
  destruct (find_caseDetail ld id) as [cd|]; [|by eexists].
  destruct (legacy_case_id cd) as [n|]; destruct sc; run_async; by eexists.
Qed.

Lemma select_entries_none op w f v s :
  Forall (fun e => wie_operation_id e <> Some op) (entries s) ->
  select_entries T op w f v s = [].
Proof.
  unfold select_entries. fold (entries s).
  induction (entries s) as [|e es IH]; simpl; [done|].
  intros [He Hes]%Forall_cons. rewrite (IH Hes).
  unfold entry_matches.
  rewrite (bool_decide_eq_false_2 (wie_operation_id e = Some op)) by done.
  by rewrite andb_false_r.
Qed.

Lemma entries_below_supply s op :
  store_wf s -> uuid_supply s <= op ->
  Forall (fun e => wie_operation_id e <> Some op) (entries s).
Proof.
  intros [_ Hent] Hop. eapply Forall_impl; [exact Hent|].
  intros e He. unfold entry_minted in He.
  destruct (wie_operation_id e) as [op'|]; [intros [=]; lia | done].
Qed.

Lemma createCaseOperationFromActivityTransfer_run c ty s :
  createCaseOperationFromActivityTransfer sc T g a c ty s
  = (Normal (uuid_supply s),
     add_operation (transfer_operation sc T a g (uuid_supply s) c ty) (minted s)).
Proof. reflexivity. Qed.

Lemma post_fresh op w f v q s :
  Forall (fun e => wie_operation_id e <> Some op) (entries s) ->
  createCaseOperationInventoryEntry T op w f v q s
  = (Normal tt, add_entry (ledger_entry T (uuid_supply s) op w f v q) (minted s)).
Proof. intros H. by rewrite post_absent by by apply select_entries_none. Qed.

(** A reconciled transfer line: a new withdrawal on the source case, a new
    deposit on the destination case, and the quantity posted to each. *)
Lemma transfer_line_reconciled d s src dst w f v s1 :
  ActivityType d = "Bottle" ->
  case_of_caseDetail ld cm (CaseDetailID d) = Some src ->
  resolve_case cm (CaseID d) = Some dst ->
  validateInventoryActivityDetail sc T ld cm d s = (Normal (Some (w, f, v)), s1) ->
  store_wf s1 ->
  exists s2,
    createCaseOperationFromActivityTransferActivityDetail sc T ld cm g d a s = (Normal tt, s2)
    /\ operations s2 = operations s1 ++
         [ transfer_operation sc T a g (uuid_supply s1) src withdrawal;
           transfer_operation sc T a g (uuid_supply s1 + 2) dst deposit ]
    /\ entries s2 = entries s1 ++
         [ ledger_entry T (uuid_supply s1 + 1) (uuid_supply s1) w f v (Quantity d);
           ledger_entry T (uuid_supply s1 + 3) (uuid_supply s1 + 2) w f v (Quantity d) ]
    /\ uuid_supply s2 = uuid_supply s1 + 4.
Proof.
  intros Htype Hsrc Hdst Hval Hwf.
  unfold createCaseOperationFromActivityTransferActivityDetail.
  rewrite Htype. simpl.
  destruct (source_case_result (CaseDetailID d) s) as (c & Ec & Vc).
  unfold bind at 1. rewrite Ec.
  destruct c as [r|e]; [subst r|congruence]. rewrite Hsrc.
  unfold resolve_case in Hdst. destruct (CaseID d) as [nd|]; [|done].
  unfold bind at 1. simpl. rewrite Hdst.
  unfold bind at 1. rewrite Hval.
  unfold bind at 1. unfold destructure_validated. simpl.
  pose proof (entries_below_supply s1 (uuid_supply s1) Hwf (le_n _)) as Hfresh1.
  pose proof (entries_below_supply s1 (uuid_supply s1 + 2) Hwf ltac:(lia)) as Hfresh2.
  unfold bind at 1. rewrite createCaseOperationFromActivityTransfer_run.
  unfold bind at 1. rewrite post_fresh by exact Hfresh1.
  unfold bind at 1. rewrite createCaseOperationFromActivityTransfer_run.
  rewrite post_fresh.
  - eexists. split; [reflexivity|]. simpl.
    unfold operations, entries. simpl.
    rewrite <- !app_assoc. simpl.
    replace (S (S (uuid_supply s1))) with (uuid_supply s1 + 2) by lia.
    replace (S (uuid_supply s1)) with (uuid_supply s1 + 1) by lia.
    replace (S (uuid_supply s1 + 2)) with (uuid_supply s1 + 3) by lia.
    repeat split; try reflexivity. lia.
  - simpl. unfold entries. simpl. apply Forall_app. split.
    + replace (S (S (uuid_supply s1))) with (uuid_supply s1 + 2) by lia.
      exact Hfresh2.
    + repeat constructor. simpl. intros [=]. lia.
Qed.

Lemma step_supply_grows d :
  preserves supply_grows
    (createCaseOperationFromActivityTransferActivityDetail sc T ld cm g d a).
Proof. preserves_auto. Qed.

Lemma step_alike d :
  preserves (resolves_alike T)
    (createCaseOperationFromActivityTransferActivityDetail sc T ld cm g d a).
Proof. preserves_auto. Qed.

Lemma store_wf_frame s s' :
  store_wf s -> operations s' = operations s -> entries s' = entries s ->
  uuid_supply s <= uuid_supply s' -> store_wf s'.
Proof.
  intros [Hops Hent] Eo Ee Hle. split.
  - rewrite Eo. eapply Forall_impl; [exact Hops|].
    unfold operation_minted. intros co ?. lia.
  - rewrite Ee. eapply Forall_impl; [exact Hent|].
    unfold entry_minted. intros e ?. destruct (wie_operation_id e); [lia|done].
Qed.

(** What a transfer line writes: the two legs when it is reconciled, no case
    operation and no ledger entry otherwise. *)
Lemma transfer_line_effect d s :
  store_wf s ->
  let r := createCaseOperationFromActivityTransferActivityDetail sc T ld cm g d a s in
  if transfer_reconciles sc T ld cm s d
  then fst r = Normal tt /\ transfer_written sc T ld cm g a d s (snd r)
  else operations (snd r) = operations s /\ entries (snd r) = entries s.
Proof.
  intros Hwf r. subst r.
  destruct (validate_result sc T ld cm d s) as (rv & Ev & Vv).
  pose proof (validate_same_operations sc T ld cm d s) as Fo.
  pose proof (validate_same_entries sc T ld cm d s) as Fe.
  pose proof (validate_supply_grows sc T ld cm d s) as Fs.
  destruct (validateInventoryActivityDetail sc T ld cm d s) as [cv s1] eqn:Hval.
  simpl in *. subst cv. unfold same in Fo, Fe. unfold supply_grows in Fs.
  unfold transfer_reconciles.
  remember (createCaseOperationFromActivityTransferActivityDetail sc T ld cm g d a s)
    as r eqn:Er.
  unfold createCaseOperationFromActivityTransferActivityDetail in Er.
  destruct (String.eqb (ActivityType d) "Bottle") eqn:Htype; simpl in *.
  2:{ destruct (String.eqb (ActivityType d) "Case"); by subst r. }
  apply String.eqb_eq in Htype. rewrite Htype in Er. simpl in Er.
  destruct (source_case_result (CaseDetailID d) s) as (c & Ec & Vc).
  unfold bind at 1 in Er. rewrite Ec in Er.
  destruct (case_of_caseDetail ld cm (CaseDetailID d)) as [src|] eqn:Hsrc; simpl.
  2:{ destruct c as [r0|e]; [subst r0|by subst r].
      unfold bind in Er. destruct (toString_of (CaseID d) s) as [[k|e] s'] eqn:Ek.
      - unfold toString_of in Ek. destruct (CaseID d); [|done].
        injection Ek as <- <-. by subst r.
      - unfold toString_of in Ek. destruct (CaseID d); [done|].
        injection Ek as <- <-. by subst r. }
  rewrite ?(bool_decide_eq_true_2 (is_Some (Some src))) by done. simpl.
  destruct c as [r0|e]; [subst r0|congruence].
  destruct (resolve_case cm (CaseID d)) as [dst|] eqn:Hdst; simpl.
  2:{ rewrite ?(bool_decide_eq_false_2 (is_Some None)) by (by intros [? ?]). simpl.
      unfold resolve_case in Hdst.
      destruct (CaseID d) as [nd|]; [|by subst r].
      unfold bind in Er. simpl in Er. rewrite Hdst in Er. by subst r. }
  rewrite ?(bool_decide_eq_true_2 (is_Some (Some dst))) by done. simpl.
  destruct (inventory_resolves sc T ld cm s d) eqn:Hinv.
  - destruct (proj2 Vv eq_refl) as [[[w f] v] ->].
    assert (Hwf1 : store_wf s1) by (by apply (store_wf_frame s)).
    destruct (transfer_line_reconciled d s src dst w f v s1 Htype Hsrc Hdst Hval Hwf1)
      as (s2 & Erun & Eo & Ee & Es).
    unfold createCaseOperationFromActivityTransferActivityDetail in Erun.
    rewrite Htype in Erun. simpl in Erun.
    unfold bind at 1 in Erun. rewrite Ec in Erun. rewrite Erun in Er. subst r.
    simpl. split; [done|].
    exists (uuid_supply s1), src, dst, w, f, v.
    rewrite <- Fo, <- Fe. done.
  - assert (rv = None) as ->.
    { destruct rv; [|done]. by pose proof (proj1 Vv ltac:(done)). }
    unfold resolve_case in Hdst. destruct (CaseID d) as [nd|]; [|done].
    unfold bind at 1 in Er. simpl in Er. rewrite Hdst in Er.
    unfold bind at 1 in Er. rewrite Hval in Er.
    unfold destructure_validated in Er. destruct sc; run_async; by subst r.
Qed.

Lemma transfer_written_wf d s s' :
  store_wf s -> transfer_written sc T ld cm g a d s s' -> store_wf s'.
Proof.
  intros [Hops Hent] (n & src & dst & w & f & v & Hn & _ & _ & Eo & Ee & Es).
  split.
  - rewrite Eo. apply Forall_app. split.
    + eapply Forall_impl; [exact Hops|]. unfold operation_minted. intros co ?. lia.
    + repeat constructor; unfold operation_minted; simpl; lia.
  - rewrite Ee. apply Forall_app. split.
    + eapply Forall_impl; [exact Hent|]. unfold entry_minted.
      intros e ?. destruct (wie_operation_id e); [lia|done].
    + repeat constructor; unfold entry_minted; simpl; lia.
Qed.

Lemma find_app {A} (p : A -> bool) (l1 l2 : list A) :
  List.find p (l1 ++ l2)
  = match List.find p l1 with
    | Some x => Some x
    | None => List.find p l2
    end.
Proof. induction l1 as [|x l1 IH]; simpl; [done|]. by destruct (p x). Qed.

Lemma find_minted_none s n :
  store_wf s -> uuid_supply s <= n ->
  List.find (fun co => bool_decide (co_id co = n)) (operations s) = None.
Proof.
  intros [Hops _] Hn. induction Hops as [|co l Hco _ IH]; simpl; [done|].
  unfold operation_minted in Hco.
  rewrite bool_decide_eq_false_2 by lia. exact IH.
Qed.

(** A reconciled line adds its quantity to the total of each kind of leg. *)
Lemma total_posted_written d s s' ty :
  store_wf s -> transfer_written sc T ld cm g a d s s' ->
  ty = withdrawal \/ ty = deposit ->
  total_posted g ty s' = (total_posted g ty s + Quantity d)%Z.
Proof.
  intros Hwf (n & src & dst & w & f & v & Hn & _ & _ & Eo & Ee & Es) Hty.
  unfold total_posted. rewrite Ee, List.filter_app, List.map_app.
  assert (Hsum : forall l1 l2, sumZ (l1 ++ l2) = (sumZ l1 + sumZ l2)%Z).
  { intros l1 l2. induction l1 as [|x l1 IH]; simpl; [done|]. rewrite IH. lia. }
  rewrite Hsum. f_equal.
  - do 2 f_equal. apply filter_ext_in. intros e He.
    unfold posted_to, operation_of. rewrite Eo.
    destruct Hwf as [Hops Hent].
    pose proof (proj1 (Forall_forall _ _) Hent e) as Hmint.
    unfold entry_minted in Hmint.
    destruct (wie_operation_id e) as [op|]; [|done].
    assert (op < uuid_supply s) by (apply Hmint, list_elem_of_In, He).
    rewrite find_app.
    destruct (List.find _ (operations s)); [done|].
    simpl. by rewrite !bool_decide_eq_false_2 by lia.
  - simpl. unfold posted_to, operation_of. simpl. rewrite Eo, !find_app.
    rewrite (find_minted_none s n Hwf Hn).
    rewrite (find_minted_none s (n + 2) Hwf ltac:(lia)). simpl.
    rewrite (bool_decide_eq_true_2 (n = n)) by done.
    rewrite (bool_decide_eq_false_2 (n = n + 2)) by lia.
    rewrite (bool_decide_eq_true_2 (n + 2 = n + 2)) by done. simpl.
    rewrite (bool_decide_eq_true_2 (g = g)) by done. simpl.
    destruct Hty as [-> | ->]; simpl; lia.
Qed.

Lemma total_posted_frame s s' ty :
  operations s' = operations s -> entries s' = entries s ->
  total_posted g ty s' = total_posted g ty s.
Proof.
  intros Eo Ee. unfold total_posted, posted_to, operation_of. by rewrite Eo, Ee.
Qed.

Lemma transfer_reconciles_alike s0 s d :
  resolves_alike T s0 s ->
  transfer_reconciles sc T ld cm s d = transfer_reconciles sc T ld cm s0 d.
Proof.
  intros H. unfold transfer_reconciles.
  by rewrite (inventory_resolves_alike sc T ld cm s0 s d H).
Qed.

Lemma transfer_loop lines : forall s0 s,
  store_wf s -> resolves_alike T s0 s ->
  let r := for_of lines
             (fun d => createCaseOperationFromActivityTransferActivityDetail
                         sc T ld cm g d a) s in
  store_wf (snd r)
  /\ (total_posted g withdrawal (snd r) - total_posted g withdrawal s
      = total_posted g deposit (snd r) - total_posted g deposit s)%Z
  /\ (fst r = Normal tt ->
      (total_posted g withdrawal (snd r)
       = total_posted g withdrawal s
         + quantity_total (List.filter (transfer_reconciles sc T ld cm s0) lines))%Z
      /\ exists new,
           operations (snd r) = operations s ++ new
           /\ List.map operation_leg new
              = flat_map (transfer_legs ld cm)
                  (List.filter (transfer_reconciles sc T ld cm s0) lines)
           /\ Forall (created_in T g (uuid_supply s)) new
           /\ NoDup (List.map co_id new)).
Proof.
  induction lines as [|d lines IH]; intros s0 s Hwf Halike; cbv zeta.
  - simpl. split; [done|]. split; [lia|]. intros _. split.
    + unfold quantity_total. simpl. lia.
    + exists []. rewrite app_nil_r. repeat split; [constructor | apply NoDup_nil_2].
  - rewrite for_of_cons.
    pose proof (transfer_line_effect d s Hwf) as Hstep. cbv zeta in Hstep.
    pose proof (step_supply_grows d s) as Hgrow.
    pose proof (step_alike d s) as Halike1.
    rewrite (transfer_reconciles_alike s0 s d Halike) in Hstep.
    simpl List.filter.
    destruct (createCaseOperationFromActivityTransferActivityDetail sc T ld cm g d a s)
      as [[[]|e] s1] eqn:Erun; simpl in Hstep, Hgrow, Halike1.
    + assert (Halike' : resolves_alike T s0 s1) by (etransitivity; eassumption).
      destruct (transfer_reconciles sc T ld cm s0 d) eqn:Hrec.
      * destruct Hstep as [_ Hw].
        pose proof (transfer_written_wf d s s1 Hwf Hw) as Hwf1.
        pose proof (total_posted_written d s s1 withdrawal Hwf Hw ltac:(by left)) as Tw.
        pose proof (total_posted_written d s s1 deposit Hwf Hw ltac:(by right)) as Td.
        destruct (IH s0 s1 Hwf1 Halike') as (IHwf & IHeq & IHok).
        split; [done|]. split; [lia|]. intros Hok.
        destruct (IHok Hok) as (IHw & new & Enew & Elegs & Hcreated & Hnd).
        split.
        { rewrite IHw, Tw. unfold quantity_total. simpl. lia. }
        destruct Hw as (n & src & dst & w & f & v & Hn & Hsrc & Hdst & Eo & Ee & Es).
        eexists (_ :: _ :: new). split; [|split; [|split]].
        -- rewrite Enew, Eo, <- app_assoc. reflexivity.
        -- simpl. rewrite Elegs. unfold transfer_legs at 2. rewrite Hsrc, Hdst.
           reflexivity.
        -- repeat constructor; simpl; try lia.
           eapply Forall_impl; [exact Hcreated|].
           unfold created_in. intros co (? & ? & ?). repeat split; try done. lia.
        -- simpl. apply NoDup_cons. split.
           ++ rewrite elem_of_cons. intros [?|Hin]; [lia|].
              apply list_elem_of_fmap in Hin as (co & Hid & Hco).
              pose proof (proj1 (Forall_forall _ _) Hcreated co Hco) as (? & _).
              unfold created_in in *. lia.
           ++ apply NoDup_cons. split; [|done].
              intros Hin. apply list_elem_of_fmap in Hin as (co & Hid & Hco).
              pose proof (proj1 (Forall_forall _ _) Hcreated co Hco) as (? & _).
              lia.
      * destruct Hstep as [Eo Ee].
        pose proof (store_wf_frame s s1 Hwf Eo Ee Hgrow) as Hwf1.
        pose proof (total_posted_frame s s1 withdrawal Eo Ee) as Tw.
        pose proof (total_posted_frame s s1 deposit Eo Ee) as Td.
        destruct (IH s0 s1 Hwf1 Halike') as (IHwf & IHeq & IHok).
        split; [done|]. split; [lia|]. intros Hok.
        destruct (IHok Hok) as (IHw & new & Enew & Elegs & Hcreated & Hnd).
        split; [lia|].
        exists new. split; [by rewrite Enew, Eo|]. split; [done|]. split; [|done].
        eapply Forall_impl; [exact Hcreated|].
        unfold created_in. intros co (? & ? & ?). repeat split; try done.
        unfold supply_grows in Hgrow. lia.
    + destruct (transfer_reconciles sc T ld cm s0 d) eqn:Hrec.
      * by destruct Hstep as [? _].
      * destruct Hstep as [Eo Ee]. simpl.
        split; [by apply (store_wf_frame s)|].
        split; [|done].
        rewrite (total_posted_frame s s1 withdrawal Eo Ee).
        rewrite (total_posted_frame s s1 deposit Eo Ee). lia.
Qed.

End Transfer.

Section TransferClaims.

Context (sc : Script) (T : uuid) (ld : LegacyData) (cm : gmap MapKey uuid).
Context (g : uuid) (a : Activity).

Lemma transfer_legs_length s d :
  transfer_reconciles sc T ld cm s d = true -> length (transfer_legs ld cm d) = 2.
Proof.
  unfold transfer_reconciles, transfer_legs.
  rewrite !andb_true_iff, !bool_decide_eq_true.
  intros [[[_ [src ->]] [dst ->]] _]. reflexivity.
Qed.

Lemma resolves_alike_refl s : resolves_alike T s s.
Proof. reflexivity. Qed.

Lemma total_posted_fresh_group ty s :
  Forall (fun co => co_group_id co <> g) (operations s) ->
  total_posted g ty s = 0%Z.
Proof.
  intros Hfresh. unfold total_posted.
  replace (List.filter (posted_to g ty s) (entries s)) with (@nil WineInventoryEntryRow);
    [done|].
  symmetry. induction (entries s) as [|e es IH]; simpl; [done|].
  rewrite <- IH. unfold posted_to, operation_of.
  destruct (wie_operation_id e) as [op|]; [|done].
  destruct (List.find _ (operations s)) as [co|] eqn:Hfind; [|done].
  apply find_some in Hfind as [Hin _].
  pose proof (proj1 (Forall_forall _ _) Hfresh co) as Hco.
  rewrite bool_decide_eq_false_2; [done|]. apply Hco. by apply list_elem_of_In.
Qed.

(** The operations of a transfer.  In a transfer activity a "Case" line
    writes nothing; a fully
    resolved "Bottle" line creates a withdrawal on its source case and a
    deposit on its destination case, both with identifiers minted for them;
    and when the reconciliation of the activity completes, the case
    operations it has added are the two legs of each fully resolved "Bottle"
    line, 2N rows for N such lines, none of them an operation that existed
    before. *)
Theorem transfer_operations_complete (s : Store) :
  store_wf s ->
  let r := createCaseOperationsFromActivityTransfer sc T ld cm g a s in
  let resolved := List.filter (transfer_reconciles sc T ld cm s)
                    (getInventoryActivityDetails ld a) in
  (forall d s0, ActivityType d = "Case" ->
     createCaseOperationFromActivityTransferActivityDetail sc T ld cm g d a s0
     = (Normal tt, s0))
  /\ (forall d s0, store_wf s0 -> transfer_reconciles sc T ld cm s0 d = true ->
        let r0 := createCaseOperationFromActivityTransferActivityDetail
                    sc T ld cm g d a s0 in
        fst r0 = Normal tt /\ transfer_written sc T ld cm g a d s0 (snd r0))
  /\ (fst r = Normal tt ->
      exists new,
        operations (snd r) = operations s ++ new
        /\ length new = 2 * length resolved
        /\ List.map operation_leg new = flat_map (transfer_legs ld cm) resolved
        /\ Forall (created_in T g (uuid_supply s)) new
        /\ NoDup (List.map co_id new)
        /\ Forall (fun co =>
             Forall (fun old => co_id old <> co_id co) (operations s)) new).
Proof.
  intros Hwf r resolved. split; [|split].
  - intros d s0 Htype.
    unfold createCaseOperationFromActivityTransferActivityDetail. by rewrite Htype.
  - intros d s0 Hwf0 Hrec r0.
    pose proof (transfer_line_effect sc T ld cm g a d s0 Hwf0) as H.
    cbv zeta in H. by rewrite Hrec in H.
  - intros Hok.
    destruct (transfer_loop sc T ld cm g a (getInventoryActivityDetails ld a) s s Hwf
                (resolves_alike_refl s)) as (_ & _ & Hloop).
    destruct (Hloop Hok) as (_ & new & Enew & Elegs & Hcreated & Hnd).
    exists new. split; [exact Enew|]. split; [|split; [exact Elegs|]].
    + rewrite <- (length_map operation_leg), Elegs.
      fold resolved. clear -resolved.
      assert (Hall : Forall (fun d => transfer_reconciles sc T ld cm s d = true) resolved).
      { apply Forall_forall. intros d Hd%list_elem_of_In.
        by apply filter_In in Hd as [_ ?]. }
      induction Hall as [|d l Hd _ IH]; simpl; [done|].
      rewrite length_app, IH, (transfer_legs_length s d Hd). lia.
    + split; [exact Hcreated|]. split; [exact Hnd|].
      eapply Forall_impl; [exact Hcreated|].
      intros co (Hge & _). destruct Hwf as [Hops _].
      eapply Forall_impl; [exact Hops|].
      unfold operation_minted. intros old ?. lia.
Qed.

(** Conservation for transfers.  Every reconciled "Bottle" line of a
    transfer posts the same
    quantity to the withdrawal it creates on the source case and to the
    deposit it creates on the destination case; so the total posted to the
    withdrawals of the activity's group equals the total posted to its
    deposits, whatever the outcome, and when the reconciliation completes
    both equal the sum of the quantities of the reconciled lines. *)
Theorem transfer_conservation_complete (s : Store) :
  store_wf s ->
  Forall (fun co => co_group_id co <> g) (operations s) ->
  let r := createCaseOperationsFromActivityTransfer sc T ld cm g a s in
  let reconciled := List.filter (transfer_reconciles sc T ld cm s)
                      (getInventoryActivityDetails ld a) in
  (forall d s0, store_wf s0 -> transfer_reconciles sc T ld cm s0 d = true ->
     transfer_written sc T ld cm g a d s0
       (snd (createCaseOperationFromActivityTransferActivityDetail sc T ld cm g d a s0)))
  /\ total_posted g withdrawal (snd r) = total_posted g deposit (snd r)
  /\ (fst r = Normal tt ->
      total_posted g withdrawal (snd r) = quantity_total reconciled
      /\ total_posted g deposit (snd r) = quantity_total reconciled).
Proof.
  intros Hwf Hfresh r reconciled.
  pose proof (total_posted_fresh_group withdrawal s Hfresh) as Zw.
  pose proof (total_posted_fresh_group deposit s Hfresh) as Zd.
  destruct (transfer_loop sc T ld cm g a (getInventoryActivityDetails ld a) s s Hwf
              (resolves_alike_refl s)) as (_ & Heq & Hloop).
  change (for_of (getInventoryActivityDetails ld a) _ s) with r in Heq, Hloop.
  split; [|split].
  - intros d s0 Hwf0 Hrec.
    pose proof (transfer_line_effect sc T ld cm g a d s0 Hwf0) as H.
    cbv zeta in H. rewrite Hrec in H. apply H.
  - lia.
  - intros Hok. destruct (Hloop Hok) as (Hw & _).
    fold reconciled in Hw. lia.
Qed.

End TransferClaims.

Lemma example_store_wf : store_wf example_store.
Proof. split; constructor. Qed.

Lemma transfer_operations_complete_example :
  let cm := getCaseIdMap tenant1 example_store in
  let r := createCaseOperationsFromActivityTransfer ImportCaseData tenant1
             transfer_data cm 100 activity_transfer example_store in
  store_wf example_store
  /\ exists new,
       operations (snd r) = operations example_store ++ new
       /\ length new = 4
       /\ List.map operation_leg new
          = [(Some withdrawal, 21); (Some deposit, 22);
             (Some withdrawal, 21); (Some deposit, 22)].
Proof.
  intros cm r. split; [exact example_store_wf|].
  destruct (transfer_operations_complete ImportCaseData tenant1 transfer_data cm 100
              activity_transfer example_store example_store_wf)
    as (_ & _ & H).
  destruct H as (new & Enew & Elen & Elegs & _).
  - vm_compute. reflexivity.
  - exists new. split; [exact Enew|]. split; [exact Elen | exact Elegs].
Defined.

Lemma transfer_conservation_complete_example :
  let cm := getCaseIdMap tenant1 example_store in
  let r := createCaseOperationsFromActivityTransfer ImportCaseData tenant1
             transfer_data cm 100 activity_transfer example_store in
  store_wf example_store
  /\ total_posted 100 withdrawal (snd r) = 9%Z
  /\ total_posted 100 deposit (snd r) = 9%Z.
Proof.
  intros cm r. split; [exact example_store_wf|].
  destruct (transfer_conservation_complete ImportCaseData tenant1 transfer_data cm 100
              activity_transfer example_store example_store_wf)
    as (_ & _ & H).
  - constructor.
  - destruct H as [Hw Hd].
    + vm_compute. reflexivity.
    + split; [exact Hw | exact Hd].
Defined.

(** ** Lines whose bottle format or vintage does not resolve (C4) *)

Section Skip.

Context (T : uuid) (ld : LegacyData) (cm : gmap MapKey uuid).
Context (g : uuid) (a : Activity).

(** In import-case-data.js a deposit or withdrawal line whose case resolves
    and whose inventory does not is not skipped: destructuring the
    [undefined] that [validateInventoryActivityDetail] returned throws, after
    the case operation of the line has been found or created; no ledger
    entry is posted. *)
Lemma deposit_line_unresolved_throws d c s :
  resolve_case cm (CaseID d) = Some c ->
  inventory_resolves ImportCaseData T ld cm s d = false ->
  let r := createOrUpdateCaseOperationFromActivityDepositOrWithdrawalActivityDetail
             ImportCaseData T ld cm g d a s in
  fst r = Throw TypeError /\ entries (snd r) = entries s.
Proof.
  intros Hc Hinv r. subst r.
  remember (createOrUpdateCaseOperationFromActivityDepositOrWithdrawalActivityDetail
              ImportCaseData T ld cm g d a s) as r eqn:Er.
  unfold createOrUpdateCaseOperationFromActivityDepositOrWithdrawalActivityDetail in Er.
  assert (Hop : exists op s1,
            getCaseOperationFromActivityDetail ImportCaseData T cm g d a s
            = (Normal (Some op), s1) /\ entries s1 = entries s).
  { unfold getCaseOperationFromActivityDetail, getCaseOperation, resolve_case in *.
    destruct (CaseID d) as [n|] eqn:Hcase; [|done].
    unfold toString_of. run_async. rewrite Hc.
    destruct (select_case_operations T g c s) as [|co rest]; [|by do 2 eexists].
    unfold createCaseOperationFromActivityDetail, insert_case_operation, toString_of.
    run_async. rewrite Hcase, Hc. by do 2 eexists. }
  destruct Hop as (op & s1 & Eop & Ee1).
  unfold bind at 1 in Er. rewrite Eop in Er.
  destruct (validate_result ImportCaseData T ld cm d s1) as (rv & Ev & Vv).
  pose proof (validate_same_entries ImportCaseData T ld cm d s1) as Fe.
  assert (Hinv1 : inventory_resolves ImportCaseData T ld cm s1 d = false).
  { rewrite <- Hinv. apply inventory_resolves_alike.
    pose proof (getCaseOperationFromActivityDetail_alike ImportCaseData T cm g a d s) as H.
    by rewrite Eop in H. }
  destruct (validateInventoryActivityDetail ImportCaseData T ld cm d s1) as [cv s2] eqn:Hval.
  simpl in *. subst cv.
  assert (rv = None) as ->.
  { destruct rv; [|done]. pose proof (proj1 Vv ltac:(done)). congruence. }
  unfold bind at 1 in Er. rewrite Hval in Er. simpl in Er. subst r. simpl.
  split; [done|]. unfold same, entries in *. simpl in *. congruence.
Qed.

(** The same line in migrate-specific-activity.js is skipped: the call
    returns and posts no ledger entry. *)
Lemma deposit_line_unresolved_skipped d s :
  inventory_resolves MigrateSpecificActivity T ld cm s d = false ->
  resolve_case cm (CaseID d) <> None ->
  let r := createOrUpdateCaseOperationFromActivityDepositOrWithdrawalActivityDetail
             MigrateSpecificActivity T ld cm g d a s in
  fst r = Normal None /\ entries (snd r) = entries s.
Proof.
  intros Hinv Hc r. subst r.
  remember (createOrUpdateCaseOperationFromActivityDepositOrWithdrawalActivityDetail
              MigrateSpecificActivity T ld cm g d a s) as r eqn:Er.
  unfold createOrUpdateCaseOperationFromActivityDepositOrWithdrawalActivityDetail in Er.
  pose proof (getCaseOperationFromActivityDetail_alike MigrateSpecificActivity T cm g a d s)
    as Ha.
  pose proof (getCaseOperationFromActivityDetail_entries MigrateSpecificActivity T cm g a d s)
    as He.
  assert (Hn : exists r0 s1,
            getCaseOperationFromActivityDetail MigrateSpecificActivity T cm g d a s
            = (Normal r0, s1)).
  { unfold getCaseOperationFromActivityDetail, getCaseOperation, resolve_case in *.
    destruct (CaseID d) as [n|] eqn:Hcase; [|done].
    unfold toString_of. run_async.
    destruct (cm !! KStr (toString n)) as [c|] eqn:Hcm; [|done].
    destruct (select_case_operations T g c s) as [|co rest]; [|by do 2 eexists].
    unfold createCaseOperationFromActivityDetail, insert_case_operation, toString_of.
    run_async. rewrite Hcase, Hcm. by do 2 eexists. }
  destruct Hn as (r0 & s1 & Eop). rewrite Eop in Ha, He. simpl in Ha, He.
  unfold bind at 1 in Er. rewrite Eop in Er.
  destruct r0 as [op|]; [|by subst r].
  destruct (validate_result MigrateSpecificActivity T ld cm d s1) as (rv & Ev & Vv).
  pose proof (validate_same_entries MigrateSpecificActivity T ld cm d s1) as Fe.
  rewrite (inventory_resolves_alike MigrateSpecificActivity T ld cm s s1 d Ha) in Vv.
  destruct (validateInventoryActivityDetail MigrateSpecificActivity T ld cm d s1)
    as [cv s2] eqn:Hval.
  simpl in *. subst cv.
  assert (rv = None) as ->.
  { destruct rv; [|done]. pose proof (proj1 Vv ltac:(done)). congruence. }
  unfold bind at 1 in Er. rewrite Hval in Er. simpl in Er. subst r. simpl.
  split; [done|]. unfold same, entries in *. simpl in *. congruence.
Qed.

End Skip.

(** C4 fails on import-case-data.js.  Activity 504 has a line on case 10
    whose bottle format 99 has no target identifier, followed by a line on
    case 20 that resolves.  The full run throws a TypeError at the first
    line and stops: the case operation of case 10 is left without a ledger
    entry and the second line is never reconciled.  On the same data
    migrate-specific-activity.js skips the first line and posts the second. *)
Theorem C4_unresolved_format_aborts_run :
  let r := seedOperationGroups tenant1 unresolved_format_data example_store in
  let m := migrate tenant1 unresolved_format_data "504" false example_store in
  inventory_resolves ImportCaseData tenant1 unresolved_format_data
    (getCaseIdMap tenant1 example_store) example_store
    (bottle_line 21 504 10 None (Some 7%Z) (Some 99%Z) (Some 2015%Z) 3) = false
  /\ fst r = Throw TypeError
  /\ List.map co_case_id (operations (snd r)) = [20]
  /\ entries (snd r) = []
  /\ fst m = Normal tt
  /\ List.map co_case_id (operations (snd m)) = [20; 21]
  /\ List.map wie_amount (entries (snd m)) = [2%Z].
Proof. vm_compute. repeat split; reflexivity. Qed.

(** ** Placeholder wines are created once (C9) *)

Section Placeholder.

Context (T : uuid) (ld : LegacyData) (cm : gmap MapKey uuid).
Context (w : Z) (p : uuid).

Lemma toString_inj n m : toString n = toString m -> n = m.
Proof. unfold toString. apply (inj pretty). Qed.

(** A wine row of another legacy id does not show in the rows of [w]. *)
Lemma select_wines_add s row :
  wine_legacy_id row <> Some (toString w) ->
  select_wines T (toString w)
    (with_dataSource (with_wines (fun ws => ws ++ [row])) s)
  = select_wines T (toString w) s.
Proof.
  intros Hne. unfold select_wines. simpl. rewrite List.filter_app. simpl.
  rewrite (bool_decide_eq_false_2 _ Hne). simpl. by rewrite app_nil_r.
Qed.

Lemma getNewWineId_keeps l :
  preserves (keeps (one_wine T w p)) (getNewWineId T l).
Proof.
  intros s [Hrows Hmemo]. unfold getNewWineId, toString_of. run_async.
  destruct (wineMapId s !! num_key l); [done|].
  destruct l as [n|]; simpl; [|done].
  destruct (select_wines T (toString n) s) as [|row rest] eqn:Hsel; simpl; [done|].
  split; [exact Hrows|]. simpl.
  destruct (decide (n = w)) as [->|Hne].
  - rewrite lookup_insert_eq. right. rewrite Hsel in Hrows. simpl in Hrows. congruence.
  - rewrite lookup_insert_ne by congruence. exact Hmemo.
Qed.

Lemma createNewWine_keeps l description :
  preserves (keeps (one_wine T w p)) (createNewWine ImportCaseData T l description).
Proof.
  intros s [Hrows Hmemo]. unfold createNewWine, insert_wine. run_async.
  destruct l as [n|]; simpl.
  - destruct (select_wines T (toString n) s) as [|row rest] eqn:Hsel; simpl; [|done].
    split; [|exact Hmemo].
    rewrite select_wines_add.
    + exact Hrows.
    + simpl. intros [= E]. apply toString_inj in E as ->.
      rewrite Hsel in Hrows. discriminate.
  - split; [|exact Hmemo].
    rewrite select_wines_add; [exact Hrows | done].
Qed.

End Placeholder.

#[global] Hint Resolve getNewWineId_keeps createNewWine_keeps : preserves.

Section PlaceholderRun.

Context (T : uuid) (ld : LegacyData) (cm : gmap MapKey uuid).
Context (w : Z) (p : uuid).

Lemma validate_keeps d :
  preserves (keeps (one_wine T w p))
    (validateInventoryActivityDetail ImportCaseData T ld cm d).
Proof. preserves_auto. Qed.

Lemma createOperationGroup_keeps c a :
  preserves (keeps (one_wine T w p))
    (createOperationGroup ImportCaseData T ld cm c a).
Proof. preserves_auto. Qed.

Lemma deposit_line_keeps g d a :
  preserves (keeps (one_wine T w p))
    (createOrUpdateCaseOperationFromActivityDepositOrWithdrawalActivityDetail
       ImportCaseData T ld cm g d a).
Proof. preserves_auto. Qed.

Lemma transfer_line_keeps g d a :
  preserves (keeps (one_wine T w p))
    (createCaseOperationFromActivityTransferActivityDetail ImportCaseData T ld cm g d a).
Proof. preserves_auto. Qed.

End PlaceholderRun.

Section ValidateSteps.

Context (sc : Script) (T : uuid) (ld : LegacyData) (cm : gmap MapKey uuid).

Lemma getNewBottleFormatId_wines l :
  preserves (same wine_rows) (getNewBottleFormatId T l).
Proof. preserves_auto. Qed.
Lemma getNewBottleVintageId_wines l :
  preserves (same wine_rows) (getNewBottleVintageId T l).
Proof. preserves_auto. Qed.
Lemma getNewBottleFormatId_memo l :
  preserves (same wineMapId) (getNewBottleFormatId T l).
Proof. preserves_auto. Qed.
Lemma getNewBottleVintageId_memo l :
  preserves (same wineMapId) (getNewBottleVintageId T l).
Proof. preserves_auto. Qed.
Lemma getNewBottleFormatId_supply l :
  preserves (same uuid_supply) (getNewBottleFormatId T l).
Proof. preserves_auto. Qed.
Lemma getNewBottleVintageId_supply l :
  preserves (same uuid_supply) (getNewBottleVintageId T l).
Proof. preserves_auto. Qed.
Lemma validate_try_wines d : preserves (same wine_rows) (validate_try sc T ld cm d).
Proof. preserves_auto. Qed.
Lemma validate_try_supply d : preserves (same uuid_supply) (validate_try sc T ld cm d).
Proof. preserves_auto. Qed.

(** What the [try] of [validateInventoryActivityDetail] computes when it
    does not throw. *)
Lemma validate_try_normal d s r s3 :
  validate_try sc T ld cm d s = (Normal r, s3) ->
  exists wopt fopt vopt s1 s2,
    r = Some (legacy_wine sc ld cm d, legacy_format sc ld cm d,
              legacy_vintage sc ld cm d, wopt, fopt, vopt)
    /\ getNewWineId T (legacy_wine sc ld cm d) s = (Normal wopt, s1)
    /\ getNewBottleFormatId T (legacy_format sc ld cm d) s1 = (Normal fopt, s2)
    /\ getNewBottleVintageId T (legacy_vintage sc ld cm d) s2 = (Normal vopt, s3).
Proof.
  unfold validate_try, legacy_wine, legacy_format, legacy_vintage.
  destruct (legacy_lookup sc ld cm (WineItemID d) (CaseDetailID d) "wineId" s)
    as (c1 & E1 & V1).
  destruct (legacy_lookup sc ld cm (BottleSizeID d) (CaseDetailID d) "bottleFormatId" s)
    as (c2 & E2 & V2).
  destruct (legacy_lookup sc ld cm (VintageID d) (CaseDetailID d) "bottleVintageId" s)
    as (c3 & E3 & V3).
  unfold bind at 1. rewrite E1. destruct c1 as [v1|e1]; [subst v1|done].
  unfold bind at 1. rewrite E2. destruct c2 as [v2|e2]; [subst v2|done].
  unfold bind at 1. rewrite E3. destruct c3 as [v3|e3]; [subst v3|done].
  unfold bind at 1.
  destruct (getNewWineId T _ s) as [[wopt|e4] s1] eqn:E4; [|done].
  unfold bind at 1.
  destruct (getNewBottleFormatId T _ s1) as [[fopt|e5] s2] eqn:E5; [|done].
  unfold bind at 1.
  destruct (getNewBottleVintageId T _ s2) as [[vopt|e6] s3'] eqn:E6; [|done].
  unfold ret. intros [= <- <-]. by exists wopt, fopt, vopt, s1, s2.
Qed.

(** When the [try] throws, a legacy id is missing. *)
Lemma validate_try_throw d s e s3 :
  validate_try sc T ld cm d s = (Throw e, s3) ->
  legacy_wine sc ld cm d = None \/ legacy_format sc ld cm d = None
  \/ legacy_vintage sc ld cm d = None.
Proof.
  unfold validate_try, legacy_wine, legacy_format, legacy_vintage.
  destruct (legacy_lookup sc ld cm (WineItemID d) (CaseDetailID d) "wineId" s)
    as (c1 & E1 & V1).
  destruct (legacy_lookup sc ld cm (BottleSizeID d) (CaseDetailID d) "bottleFormatId" s)
    as (c2 & E2 & V2).
  destruct (legacy_lookup sc ld cm (VintageID d) (CaseDetailID d) "bottleVintageId" s)
    as (c3 & E3 & V3).
  unfold bind at 1. rewrite E1. destruct c1 as [v1|e1]; [subst v1|by left].
  unfold bind at 1. rewrite E2. destruct c2 as [v2|e2]; [subst v2|by right; left].
  unfold bind at 1. rewrite E3. destruct c3 as [v3|e3]; [subst v3|by right; right].
  unfold bind at 1.
  destruct (getNewWineId_result T (legacy_value sc ld cm (WineItemID d) (CaseDetailID d)
                                     "wineId") s) as (c4 & s1 & E4 & V4).
  rewrite E4. destruct c4 as [wopt|e4]; [|by left].
  unfold bind at 1.
  destruct (getNewBottleFormatId_result T
              (legacy_value sc ld cm (BottleSizeID d) (CaseDetailID d) "bottleFormatId") s1)
    as (c5 & s2 & E5 & V5).
  rewrite E5. destruct c5 as [fopt|e5]; [|by right; left].
  unfold bind at 1.
  destruct (getNewBottleVintageId_result T
              (legacy_value sc ld cm (VintageID d) (CaseDetailID d) "bottleVintageId") s2)
    as (c6 & s3' & E6 & V6).
  rewrite E6. destruct c6 as [vopt|e6]; [|by right; right].
  run_async. done.
Qed.

End ValidateSteps.

Section PlaceholderClaim.

Context (T : uuid) (ld : LegacyData) (cm : gmap MapKey uuid).
Context (w : Z).

Lemma getNewWineId_absent s :
  select_wines T (toString w) s = [] -> wineMapId s !! KNum w = None ->
  getNewWineId T (Some w) s = (Normal None, s).
Proof.
  intros Hsel Hmemo. unfold getNewWineId, toString_of. run_async.
  by rewrite Hmemo, Hsel.
Qed.

Lemma getNewWineId_present p s :
  one_wine T w p s ->
  exists s1, getNewWineId T (Some w) s = (Normal (Some p), s1)
             /\ wine_rows s1 = wine_rows s /\ uuid_supply s1 = uuid_supply s.
Proof.
  intros [Hrows Hmemo]. unfold getNewWineId, toString_of. run_async.
  destruct Hmemo as [Hmemo|Hmemo]; rewrite Hmemo; [|by eexists].
  destruct (select_wines T (toString w) s) as [|row rest]; [done|].
  simpl in Hrows. injection Hrows as -> _. by eexists.
Qed.

(** The first line that refers to a wine without a counterpart creates its
    placeholder. *)
Lemma validate_creates d s :
  select_wines T (toString w) s = [] -> wineMapId s !! KNum w = None ->
  legacy_wine ImportCaseData ld cm d = Some w ->
  is_Some (legacy_format ImportCaseData ld cm d) ->
  is_Some (legacy_vintage ImportCaseData ld cm d) ->
  let r := validateInventoryActivityDetail ImportCaseData T ld cm d s in
  (exists rv, fst r = Normal rv
              /\ forall x f v, rv = Some (x, f, v) -> x = uuid_supply s)
  /\ wine_rows (snd r) = wine_rows s ++ [placeholder_wine T (uuid_supply s) w]
  /\ one_wine T w (uuid_supply s) (snd r).
Proof.
  intros Hsel Hmemo Hw [lf Hf] [lv Hv] r. subst r.
  remember (validateInventoryActivityDetail ImportCaseData T ld cm d s) as r eqn:Er.
  unfold validateInventoryActivityDetail in Er.
  unfold bind at 1, try_catch in Er.
  destruct (validate_try ImportCaseData T ld cm d s) as [[r0|e] s3] eqn:Etry.
  2:{ apply validate_try_throw in Etry as [?|[?|?]]; congruence. }
  apply validate_try_normal in Etry
    as (wopt & fopt & vopt & s1 & s2 & -> & E1 & E2 & E3).
  rewrite Hw, (getNewWineId_absent s Hsel Hmemo) in E1. injection E1 as <- <-.
  pose proof (getNewBottleFormatId_wines T (legacy_format ImportCaseData ld cm d) s) as W2.
  pose proof (getNewBottleFormatId_memo T (legacy_format ImportCaseData ld cm d) s) as M2.
  pose proof (getNewBottleFormatId_supply T (legacy_format ImportCaseData ld cm d) s) as U2.
  rewrite E2 in W2, M2, U2.
  pose proof (getNewBottleVintageId_wines T (legacy_vintage ImportCaseData ld cm d) s2) as W3.
  pose proof (getNewBottleVintageId_memo T (legacy_vintage ImportCaseData ld cm d) s2) as M3.
  pose proof (getNewBottleVintageId_supply T (legacy_vintage ImportCaseData ld cm d) s2) as U3.
  rewrite E3 in W3, M3, U3. unfold same in *. simpl in *.
  assert (Hsel3 : select_wines T (toString w) s3 = []).
  { unfold select_wines in *. unfold wine_rows in *. by rewrite W3, W2. }
  cbv beta iota in Er.
  remember (truthy (legacy_wine ImportCaseData ld cm d)
            && truthy (legacy_format ImportCaseData ld cm d)
            && truthy (legacy_vintage ImportCaseData ld cm d)) as ok eqn:Hok.
  clear Hok.
  rewrite Hw in Er. unfold createNewWine, insert_wine in Er. run_async.
  rewrite Hsel3 in Er. simpl in Er.
  assert (Hrows : wine_rows
            (with_dataSource (with_wines (fun ws => ws ++
               [ {| wine_id := uuid_supply s3; wine_tenant_id := T;
                    wine_legacy_id := Some (toString w);
                    wine_description := "Legacy Wine - Veritas - " +:+ toString w |} ]))
               (minted s3))
            = wine_rows s ++ [placeholder_wine T (uuid_supply s) w]).
  { unfold wine_rows in *. simpl. by rewrite W3, W2, U3, U2. }
  assert (Hone : one_wine T w (uuid_supply s)
            (with_dataSource (with_wines (fun ws => ws ++
               [ {| wine_id := uuid_supply s3; wine_tenant_id := T;
                    wine_legacy_id := Some (toString w);
                    wine_description := "Legacy Wine - Veritas - " +:+ toString w |} ]))
               (minted s3))).
  { split.
    - unfold select_wines in *. simpl. rewrite List.filter_app, Hsel3. simpl.
      rewrite !bool_decide_eq_true_2 by done. simpl. by rewrite U3, U2.
    - left. simpl. by rewrite M3, M2. }
  destruct fopt as [f|], vopt as [v|], ok; simpl in Er; subst r; simpl;
    (split; [eexists; split; [reflexivity|]; intros x f' v' [=]; congruence|]);
    split; assumption.
Qed.

(** A later line that refers to the same wine gets the placeholder and
    creates no wine. *)
Lemma validate_reuses p d s :
  one_wine T w p s ->
  legacy_wine ImportCaseData ld cm d = Some w ->
  let r := validateInventoryActivityDetail ImportCaseData T ld cm d s in
  wine_rows (snd r) = wine_rows s
  /\ one_wine T w p (snd r)
  /\ forall x f v, fst r = Normal (Some (x, f, v)) -> x = p.
Proof.
  intros Hone Hw r. subst r.
  pose proof (validate_keeps T ld cm w p d s Hone) as Hkeep.
  remember (validateInventoryActivityDetail ImportCaseData T ld cm d s) as r eqn:Er.
  split; [|split; [exact Hkeep|]].
  - unfold validateInventoryActivityDetail in Er.
    unfold bind at 1, try_catch in Er.
    pose proof (validate_try_wines ImportCaseData T ld cm d s) as Wt.
    destruct (validate_try ImportCaseData T ld cm d s) as [[r0|e] s3] eqn:Etry;
      unfold same in Wt; simpl in Wt.
    2:{ run_async. by subst r. }
    apply validate_try_normal in Etry
      as (wopt & fopt & vopt & s1 & s2 & -> & E1 & E2 & E3).
    rewrite Hw in E1.
    destruct (getNewWineId_present p s Hone) as (s1' & E1' & _).
    rewrite E1' in E1. injection E1 as <- <-.
    cbv beta iota in Er.
    remember (truthy (legacy_wine ImportCaseData ld cm d)
              && truthy (legacy_format ImportCaseData ld cm d)
              && truthy (legacy_vintage ImportCaseData ld cm d)) as ok eqn:Hok.
    clear Hok. run_async.
    destruct fopt, vopt, ok; simpl in Er; by subst r.
  - intros x f v Hr.
    unfold validateInventoryActivityDetail in Er.
    unfold bind at 1, try_catch in Er.
    destruct (validate_try ImportCaseData T ld cm d s) as [[r0|e] s3] eqn:Etry.
    2:{ run_async. subst r. discriminate. }
    apply validate_try_normal in Etry
      as (wopt & fopt & vopt & s1 & s2 & -> & E1 & E2 & E3).
    rewrite Hw in E1.
    destruct (getNewWineId_present p s Hone) as (s1' & E1' & _).
    rewrite E1' in E1. injection E1 as <- <-.
    cbv beta iota in Er.
    remember (truthy (legacy_wine ImportCaseData ld cm d)
              && truthy (legacy_format ImportCaseData ld cm d)
              && truthy (legacy_vintage ImportCaseData ld cm d)) as ok eqn:Hok.
    clear Hok. run_async.
    destruct fopt, vopt, ok; simpl in Er; subst r; simpl in Hr; congruence.
Qed.

(** C9: when a wine legacy id has no wine in the target store, validating a
    first line that refers to it (and has a bottle format and a vintage)
    creates one placeholder wine, whose description ends with the legacy id,
    and resolves the line to it; from then on the store has exactly that one
    wine for the legacy id: every later line that refers to the legacy id
    resolves to the placeholder and creates no wine, and reconciling any
    further line or activity keeps it so. *)
Theorem C9_placeholder_created_once (d : ActivityDetail) (s : Store) :
  select_wines T (toString w) s = [] -> wineMapId s !! KNum w = None ->
  legacy_wine ImportCaseData ld cm d = Some w ->
  is_Some (legacy_format ImportCaseData ld cm d) ->
  is_Some (legacy_vintage ImportCaseData ld cm d) ->
  let r := validateInventoryActivityDetail ImportCaseData T ld cm d s in
  let p := uuid_supply s in
  (exists rv, fst r = Normal rv /\ forall x f v, rv = Some (x, f, v) -> x = p)
  /\ wine_rows (snd r) = wine_rows s ++ [placeholder_wine T p w]
  /\ one_wine T w p (snd r)
  /\ (forall d2 s2,
        one_wine T w p s2 -> legacy_wine ImportCaseData ld cm d2 = Some w ->
        let r2 := validateInventoryActivityDetail ImportCaseData T ld cm d2 s2 in
        wine_rows (snd r2) = wine_rows s2
        /\ one_wine T w p (snd r2)
        /\ forall x f v, fst r2 = Normal (Some (x, f, v)) -> x = p)
  /\ (forall g customerId activity d2 s2,
        one_wine T w p s2 ->
        one_wine T w p
          (snd (createOrUpdateCaseOperationFromActivityDepositOrWithdrawalActivityDetail
                  ImportCaseData T ld cm g d2 activity s2))
        /\ one_wine T w p
             (snd (createCaseOperationFromActivityTransferActivityDetail
                     ImportCaseData T ld cm g d2 activity s2))
        /\ one_wine T w p
             (snd (createOperationGroup ImportCaseData T ld cm customerId activity s2))).
Proof.
  intros Hsel Hmemo Hw Hf Hv r p.
  destruct (validate_creates d s Hsel Hmemo Hw Hf Hv) as (H1 & H2 & H3).
  split; [exact H1|]. split; [exact H2|]. split; [exact H3|]. split.
  - intros d2 s2 Hone Hw2. by apply validate_reuses.
  - intros g c a d2 s2 Hone. split; [|split].
    + by apply (deposit_line_keeps T ld cm w p g d2 a s2).
    + by apply (transfer_line_keeps T ld cm w p g d2 a s2).
    + by apply (createOperationGroup_keeps T ld cm w p c a s2).
Qed.

End PlaceholderClaim.

(** ** The legacy activity id in the logs, and the check before a
    migration (C6) *)

(** C6, as stated, fails on import-case-data.js.  The case operation the
    full run creates for activity 501 has the logs "[]", without the
    activity id; nothing finds the activity afterwards, and running the full
    run again creates a second group and a second case operation. *)
Lemma C6_counterexample :
  let s1 := snd (seedOperationGroups tenant1 status_data example_store) in
  let s2 := snd (seedOperationGroups tenant1 status_data s1) in
  List.map co_logs (operations s1) = ["[]"]
  /\ findExistingOperationGroup tenant1 "501" s1 = None
  /\ length (groups s1) = 1 /\ length (operations s1) = 1
  /\ length (groups s2) = 2 /\ length (operations s2) = 2.
Proof. vm_compute. repeat split; reflexivity. Qed.

(** In migrate-specific-activity.js the legacy ids of the extracted data are
    numbers: the logs read [{"legacy_activity_id":501}], the search looks for
    "legacy_activity_id":"501" with the id between quotes, and so finds
    nothing; migrating activity 501 a second time creates a second group. *)
Lemma migrate_again_not_detected :
  let s1 := snd (migrate tenant1 status_data "501" false example_store) in
  let s2 := snd (migrate tenant1 status_data "501" false s1) in
  List.map co_logs (operations s1) = [legacy_activity_stamp 501]
  /\ findExistingOperationGroup tenant1 "501" s1 = None
  /\ length (groups s1) = 1 /\ length (groups s2) = 2.
Proof. vm_compute. repeat split; reflexivity. Qed.

Section Logs.

Context (T : uuid) (ld : LegacyData) (cm : gmap MapKey uuid).

Lemma createOperationGroup_logs sc c a :
  preserves (only_adds operations (fun co => co_logs co = logs_of sc a))
    (createOperationGroup sc T ld cm c a).
Proof. preserves_auto. Qed.

Lemma migrateActivity_logs cim a :
  preserves (only_adds operations (fun co => co_logs co = logs_of MigrateSpecificActivity a))
    (migrateActivity T ld cim cm a).
Proof. preserves_auto. Qed.

Lemma validateDependencies_state a :
  preserves (same (fun s => s)) (validateDependencies T ld a).
Proof. preserves_auto. Qed.

(** The check of [migrate]: when the search finds a group and
    [--clear-existing] is not given, nothing is written. *)
Lemma migrate_gate activityId s :
  is_Some (findExistingOperationGroup T activityId s) ->
  snd (migrate T ld activityId false s) = s.
Proof.
  intros Hfound. unfold migrate.
  destruct (findActivityById ld activityId) as [a|]; [|done].
  pose proof (validateDependencies_state a s) as Hval. unfold same in Hval.
  unfold bind at 1.
  destruct (validateDependencies T ld a s) as [[[]|e] s1]; simpl in Hval; subst s1;
    [|done].
  run_async. by rewrite bool_decide_eq_true_2.
Qed.

(** C6 (amended): every case operation created by
    migrate-specific-activity.js carries the legacy id of its activity in
    its logs, as [{"legacy_activity_id":id}], and before processing an
    activity that script searches the logs of the existing case operations
    for "legacy_activity_id":"id" and, when the search finds a group and
    --clear-existing is not given, returns without writing anything; the
    case operations created by import-case-data.js have the empty logs "[]",
    and that script makes no check. *)
Theorem C6_logs_and_check (customerIdMap : list (MapKey * uuid)) (customerId : uuid)
    (a : Activity) (activityId : string) (s : Store) :
  (forall co,
     In co (operations (snd (migrateActivity T ld customerIdMap cm a s))) ->
     In co (operations s) \/ co_logs co = legacy_activity_stamp (ActivityID a))
  /\ (forall co,
        In co (operations (snd (createOperationGroup ImportCaseData T ld cm customerId a s))) ->
        In co (operations s) \/ co_logs co = "[]")
  /\ (is_Some (findExistingOperationGroup T activityId s) ->
      snd (migrate T ld activityId false s) = s).
Proof.
  split; [|split].
  - apply (migrateActivity_logs customerIdMap a s).
  - apply (createOperationGroup_logs ImportCaseData customerId a s).
  - apply migrate_gate.
Qed.

End Logs.

Lemma C6_logs_and_check_witness :
  is_Some (findExistingOperationGroup tenant1 "501" recorded_store)
  /\ snd (migrate tenant1 status_data "501" false recorded_store) = recorded_store.
Proof.
  assert (H : is_Some (findExistingOperationGroup tenant1 "501" recorded_store)).
  { vm_compute. by eexists. }
  split; [exact H|].
  destruct (C6_logs_and_check tenant1 status_data (getCaseIdMap tenant1 recorded_store)
              (getCustomerIdMap tenant1 recorded_store) 10 activity_status1 "501"
              recorded_store) as (_ & _ & Hgate).
  exact (Hgate H).
Defined.

Lemma C9_placeholder_created_once_witness :
  let cm := getCaseIdMap tenant1 example_store in
  let d := bottle_line 12 502 30 (Some 77%Z) None None None 4 in
  let r := validateInventoryActivityDetail ImportCaseData tenant1 transfer_data cm d
             example_store in
  let r2 := validateInventoryActivityDetail ImportCaseData tenant1 transfer_data cm d
              (snd r) in
  select_wines tenant1 (toString 8) example_store = []
  /\ wine_rows (snd r)
     = wine_rows example_store ++ [placeholder_wine tenant1 100 8]
  /\ wine_description (placeholder_wine tenant1 100 8) = "Legacy Wine - Veritas - 8"
  /\ wine_rows (snd r2) = wine_rows (snd r)
  /\ (forall x f v, fst r2 = Normal (Some (x, f, v)) -> x = 100).
Proof.
  intros cm d r r2.
  destruct (C9_placeholder_created_once tenant1 transfer_data cm 8 d example_store)
    as (_ & Hrows & Hone & Hlater & _).
  - reflexivity.
  - reflexivity.
  - reflexivity.
  - by eexists.
  - by eexists.
  - split; [reflexivity|]. split; [exact Hrows|]. split; [reflexivity|].
    destruct (Hlater d (snd r) Hone eq_refl) as (H1 & _ & H3).
    split; [exact H1 | exact H3].
Defined.

(** ** Seeding the snapshot entries from the case details (C10) *)

(** C10, as stated, fails when the extracted data has no case detail: the
    seeding returns before its DELETE, and the snapshot entry that was in
    the store is still there. *)
Lemma C10_counterexample :
  let r := seedWineInventoryEntriesFromCaseDetails tenant1 no_caseDetails stale_store in
  is_snapshot_entry tenant1 stale_entry = true
  /\ In stale_entry (entries stale_store)
  /\ fst r = Normal tt
  /\ snapshot_entries tenant1 (snd r) = [stale_entry].
Proof. vm_compute. repeat split; auto. Qed.

Section Snapshot.

Context (T : uuid).

Lemma load_id_map_no_number rows n : load_id_map T rows !! KNum n = None.
Proof.
  unfold load_id_map.
  assert (H : forall l (m : gmap MapKey uuid), m !! KNum n = None ->
            fold_left (fun m r => <[col_key (row_legacy_id r) := row_id r]> m) l m
            !! KNum n = None).
  { induction l as [|r l IH]; intros m Hm; simpl; [done|].
    apply IH. rewrite lookup_insert_ne; [done|]. by destruct (row_legacy_id r). }
  apply H, lookup_empty.
Qed.

Lemma getWineIdMap_no_number s n : getWineIdMap T s !! KNum n = None.
Proof.
  unfold getWineIdMap.
  assert (H : forall l (m : gmap MapKey uuid), m !! KNum n = None ->
            fold_left (fun m w => <[col_key (wine_legacy_id w) := wine_id w]> m) l m
            !! KNum n = None).
  { induction l as [|r l IH]; intros m Hm; simpl; [done|].
    apply IH. rewrite lookup_insert_ne; [done|]. by destruct (wine_legacy_id r). }
  apply H, lookup_empty.
Qed.

Lemma memo_sound_insert first null_id memo n id :
  memo_sound first null_id memo -> first n = Some id ->
  memo_sound first null_id (<[KNum n := id]> memo).
Proof.
  intros [Hnum Hnull] Hfirst. split.
  - intros n' id'. destruct (decide (n = n')) as [<-|Hne].
    + rewrite lookup_insert_eq. congruence.
    + rewrite lookup_insert_ne by congruence. apply Hnum.
  - by rewrite lookup_insert_ne.
Qed.

(** The three lookups during the seeding. *)
Lemma getNewWineId_seeding s0 s n :
  seeding T s0 s ->
  exists s', getNewWineId T (Some n) s = (Normal (first_wine T s0 n), s')
    /\ seeding T s0 s' /\ entries s' = entries s /\ uuid_supply s' = uuid_supply s.
Proof.
  intros Hseed. pose proof Hseed as (Hw & Hf & Hv & Mw & Mf & Mv).
  assert (Hfirst : first_wine T s0 n = wine_id <$> head (select_wines T (toString n) s)).
  { unfold first_wine, select_wines. unfold wine_rows in Hw. by rewrite Hw. }
  unfold getNewWineId, toString_of. run_async.
  destruct (wineMapId s !! KNum n) as [id|] eqn:Hmemo.
  - exists s. rewrite (proj1 Mw n id Hmemo). by split.
  - rewrite Hfirst.
    destruct (select_wines T (toString n) s) as [|row rest] eqn:Hsel; simpl.
    + exists s. by split.
    + eexists. split; [reflexivity|].
      split; [|done]. repeat split; try done; simpl.
      * intros n' id'. destruct (decide (n = n')) as [<-|Hne].
        -- rewrite lookup_insert_eq. intros [= <-]. by rewrite Hfirst.
        -- rewrite lookup_insert_ne by congruence. apply Mw.
      * rewrite lookup_insert_ne by done. apply Mw.
      * apply Mf.
      * apply Mf.
      * apply Mv.
      * apply Mv.
Qed.

Lemma getNewBottleFormatId_seeding s0 s l :
  seeding T s0 s ->
  exists c s', getNewBottleFormatId T l s = (c, s')
    /\ seeding T s0 s' /\ entries s' = entries s /\ uuid_supply s' = uuid_supply s
    /\ match c with
       | Normal r => r = loaded_resolve T (format_rows s0) l
       | Throw _ => loaded_resolve T (format_rows s0) l = None
       end.
Proof.
  intros Hseed. pose proof Hseed as (Hw & Hf & Hv & Mw & Mf & Mv).
  assert (Hfirst : forall n,
            first_row T (format_rows s0) n
            = row_id <$> head (select_rows T (toString n)
                                 (wine_bottle_formats (dataSource s)))).
  { intros n. unfold first_row. unfold format_rows in Hf. by rewrite Hf. }
  unfold getNewBottleFormatId, toString_of, loaded_resolve. run_async.
  destruct l as [n|]; simpl.
  - destruct (bottleFormatMapId s !! KNum n) as [id|] eqn:Hmemo.
    + exists (Normal (Some id)), s. rewrite (proj1 Mf n id Hmemo). by split.
    + rewrite Hfirst.
      destruct (select_rows T (toString n) (wine_bottle_formats (dataSource s)))
        as [|row rest] eqn:Hsel; simpl.
      * exists (Normal None), s. by split.
      * eexists (Normal _), _. split; [reflexivity|].
        split; [|done]. repeat split; try done; simpl; try apply Mw; try apply Mv.
        -- intros n' id'. destruct (decide (n = n')) as [<-|Hne].
           ++ rewrite lookup_insert_eq. intros [= <-]. by rewrite Hfirst, Hsel.
           ++ rewrite lookup_insert_ne by congruence. apply Mf.
        -- rewrite lookup_insert_ne by done. apply Mf.
  - rewrite (proj2 Mf).
    destruct (load_id_map T (format_rows s0) !! KNull) as [id|].
    + exists (Normal (Some id)), s. by split.
    + exists (Throw TypeError), s. by split.
Qed.

Lemma getNewBottleVintageId_seeding s0 s l :
  seeding T s0 s ->
  exists c s', getNewBottleVintageId T l s = (c, s')
    /\ seeding T s0 s' /\ entries s' = entries s /\ uuid_supply s' = uuid_supply s
    /\ match c with
       | Normal r => r = loaded_resolve T (vintage_rows s0) l
       | Throw _ => loaded_resolve T (vintage_rows s0) l = None
       end.
Proof.
  intros Hseed. pose proof Hseed as (Hw & Hf & Hv & Mw & Mf & Mv).
  assert (Hfirst : forall n,
            first_row T (vintage_rows s0) n
            = row_id <$> head (select_rows T (toString n)
                                 (wine_bottle_vintages (dataSource s)))).
  { intros n. unfold first_row. unfold vintage_rows in Hv. by rewrite Hv. }
  unfold getNewBottleVintageId, toString_of, loaded_resolve. run_async.
  destruct l as [n|]; simpl.
  - destruct (bottleVintageMapId s !! KNum n) as [id|] eqn:Hmemo.
    + exists (Normal (Some id)), s. rewrite (proj1 Mv n id Hmemo). by split.
    + rewrite Hfirst.
      destruct (select_rows T (toString n) (wine_bottle_vintages (dataSource s)))
        as [|row rest] eqn:Hsel; simpl.
      * exists (Normal None), s. by split.
      * eexists (Normal _), _. split; [reflexivity|].
        split; [|done]. repeat split; try done; simpl; try apply Mw; try apply Mf.
        -- intros n' id'. destruct (decide (n = n')) as [<-|Hne].
           ++ rewrite lookup_insert_eq. intros [= <-]. by rewrite Hfirst, Hsel.
           ++ rewrite lookup_insert_ne by congruence. apply Mv.
        -- rewrite lookup_insert_ne by done. apply Mv.
  - rewrite (proj2 Mv).
    destruct (load_id_map T (vintage_rows s0) !! KNull) as [id|].
    + exists (Normal (Some id)), s. by split.
    + exists (Throw TypeError), s. by split.
Qed.

Lemma not_greater_than_zero_false v :
  not_greater_than_zero v = false -> (0 < or_zero v)%Z.
Proof.
  destruct v as [q|]; [|done]. simpl. intros Hq%Z.leb_gt.
  unfold or_zero, js_or. simpl.
  destruct (q =? 0)%Z eqn:E; simpl; [apply Z.eqb_eq in E; lia | done].
Qed.

(** One turn of the seeding loop: the snapshot entry of the case detail is
    appended when it has one, and nothing else is written. *)
Lemma seed_caseDetail_effect s0 s cd :
  seeding T s0 s ->
  exists c s',
    seed_caseDetail T (getCaseIdMap T s0) cd s = (c, s')
    /\ seeding T s0 s' /\ uuid_supply s <= uuid_supply s'
    /\ exists new, entries s' = entries s ++ new
         /\ List.map entry_content new = option_list (snapshot_of T s0 cd).
Proof.
  intros Hseed. unfold seed_caseDetail, snapshot_of.
  assert (Hskip : forall s',
            seeding T s0 s' -> entries s' = entries s -> uuid_supply s' = uuid_supply s ->
            seeding T s0 s' /\ uuid_supply s <= uuid_supply s'
            /\ exists new, entries s' = entries s ++ new
                 /\ List.map entry_content new = []).
  { intros s' Hs He Hu. split; [exact Hs|]. split; [lia|].
    exists []. by rewrite app_nil_r. }
  destruct (truthy (legacy_wine_item_id cd)) eqn:Tw; simpl.
  2:{ exists (Normal tt), s. split; [reflexivity|]. by apply Hskip. }
  destruct (truthy_Some _ Tw) as [n Hn]. rewrite Hn.
  destruct (getNewWineId_seeding s0 s n Hseed) as (s1 & E1 & Hseed1 & Ee1 & Us1).
  unfold bind at 1. rewrite E1.
  destruct (first_wine T s0 n) as [w|].
  2:{ exists (Normal tt), s1. split; [reflexivity|]. by apply Hskip. }
  destruct (getNewBottleFormatId_seeding s0 s1 (legacy_bottle_size_id cd) Hseed1)
    as (c2 & s2 & E2 & Hseed2 & Ee2 & Us2 & V2).
  unfold bind at 1. rewrite E2.
  assert (Ee2' : entries s2 = entries s) by congruence.
  assert (Us2' : uuid_supply s2 = uuid_supply s) by congruence.
  destruct c2 as [r2|e2].
  2:{ rewrite V2. exists (Throw e2), s2. split; [reflexivity|]. by apply Hskip. }
  subst r2.
  destruct (loaded_resolve T (format_rows s0) (legacy_bottle_size_id cd)) as [f|].
  2:{ exists (Normal tt), s2. split; [reflexivity|]. by apply Hskip. }
  destruct (getNewBottleVintageId_seeding s0 s2 (legacy_vintage_id cd) Hseed2)
    as (c3 & s3 & E3 & Hseed3 & Ee3 & Us3 & V3).
  unfold bind at 1. rewrite E3.
  assert (Ee3' : entries s3 = entries s) by congruence.
  assert (Us3' : uuid_supply s3 = uuid_supply s) by congruence.
  destruct c3 as [r3|e3].
  2:{ rewrite V3. exists (Throw e3), s3. split; [reflexivity|]. by apply Hskip. }
  subst r3.
  destruct (loaded_resolve T (vintage_rows s0) (legacy_vintage_id cd)) as [v|].
  2:{ exists (Normal tt), s3. split; [reflexivity|]. by apply Hskip. }
  destruct (not_greater_than_zero (WineQuantity cd)) eqn:Hq.
  { exists (Normal tt), s3. split; [reflexivity|]. by apply Hskip. }
  destruct (truthy (legacy_case_id cd)) eqn:Tc; simpl.
  2:{ exists (Normal tt), s3. split; [reflexivity|]. by apply Hskip. }
  destruct (truthy_Some _ Tc) as [nc Hnc]. rewrite Hnc.
  unfold toString_of, resolve_case. run_async.
  destruct (getCaseIdMap T s0 !! KStr (toString nc)) as [c|].
  2:{ exists (Normal tt), s3. split; [reflexivity|]. by apply Hskip. }
  eexists (Normal tt), _. split; [reflexivity|].
  split; [exact Hseed3|]. split; [simpl; lia|].
  eexists [_]. split.
  - unfold entries in *. simpl. by rewrite Ee3'.
  - reflexivity.
Qed.

Lemma seeding_loop s0 cds : forall s,
  seeding T s0 s ->
  exists s',
    for_of cds (fun cd => try_catch (seed_caseDetail T (getCaseIdMap T s0) cd) (ret tt)) s
    = (Normal tt, s')
    /\ seeding T s0 s'
    /\ exists new, entries s' = entries s ++ new
         /\ List.map entry_content new = omap (snapshot_of T s0) cds.
Proof.
  induction cds as [|cd cds IH]; intros s Hseed.
  - exists s. split; [done|]. split; [done|]. exists []. by rewrite app_nil_r.
  - rewrite for_of_cons. unfold try_catch at 1.
    destruct (seed_caseDetail_effect s0 s cd Hseed)
      as (c & s1 & E1 & Hseed1 & _ & new1 & Ee1 & Ec1).
    rewrite E1.
    assert (Hnext : (let (c0, s') := (c, s1) in
                     match c0 with
                     | Normal a => (Normal a, s')
                     | Throw _ => ret tt s'
                     end) = (Normal tt, s1)).
    { destruct c as [[]|e]; reflexivity. }
    rewrite Hnext.
    destruct (IH s1 Hseed1) as (s' & Erun & Hseed' & new & Ee & Ec).
    exists s'. split; [exact Erun|]. split; [exact Hseed'|].
    exists (new1 ++ new). split.
    + by rewrite Ee, Ee1, <- app_assoc.
    + rewrite List.map_app, Ec1, Ec. simpl.
      by destruct (snapshot_of T s0 cd).
Qed.

End Snapshot.

Section SnapshotClaim.

Context (T : uuid) (ld : LegacyData).

Lemma seeding_start s :
  seeding T s
    (snd (delete_snapshot_entries T (snd (loadMappings T s)))).
Proof.
  repeat split; simpl.
  - intros n id. by rewrite getWineIdMap_no_number.
  - intros n id. unfold getBottleFormatIdMap. simpl. by rewrite load_id_map_no_number.
  - intros n id. unfold getBottleVintageIdMap. simpl. by rewrite load_id_map_no_number.
Qed.

(** What a run of the seeding writes. *)
Lemma seed_run s :
  exists s',
    seedWineInventoryEntriesFromCaseDetails T ld s = (Normal tt, s')
    /\ match caseDetails ld with
       | [] => entries s' = entries s
       | _ :: _ =>
           exists new, entries s' = other_entries T s ++ new
             /\ List.map entry_content new = omap (snapshot_of T s) (caseDetails ld)
       end.
Proof.
  unfold seedWineInventoryEntriesFromCaseDetails.
  unfold bind at 1, gets. unfold bind at 1.
  assert (Hload : loadMappings T s = (Normal tt, snd (loadMappings T s))) by reflexivity.
  rewrite Hload.
  destruct (caseDetails ld) as [|cd cds] eqn:Hcds.
  - eexists. split; [reflexivity|]. reflexivity.
  - unfold bind at 1.
    assert (Hdel : delete_snapshot_entries T (snd (loadMappings T s))
                   = (Normal tt, snd (delete_snapshot_entries T (snd (loadMappings T s)))))
      by reflexivity.
    rewrite Hdel.
    destruct (seeding_loop T s (cd :: cds) _ (seeding_start s))
      as (s' & Erun & _ & new & Ee & Ec).
    exists s'. split; [exact Erun|]. exists new. split; [|exact Ec].
    rewrite Ee. reflexivity.
Qed.

Lemma snapshot_of_content s cd c :
  snapshot_of T s cd = Some c ->
  exists w f v q cid, c = (T, None, w, f, v, q, Some cid) /\ (0 < q)%Z.
Proof.
  unfold snapshot_of.
  destruct (negb (truthy (legacy_wine_item_id cd))); [done|].
  destruct (legacy_wine_item_id cd) as [n|]; [|done].
  destruct (first_wine T s n) as [w|]; [|done].
  destruct (loaded_resolve T (format_rows s) _) as [f|]; [|done].
  destruct (loaded_resolve T (vintage_rows s) _) as [v|]; [|done].
  destruct (not_greater_than_zero (WineQuantity cd)) eqn:Hq; [done|].
  destruct (negb (truthy (legacy_case_id cd))); [done|].
  destruct (resolve_case _ _) as [cid|]; [|done].
  intros [= <-]. do 5 eexists. split; [reflexivity|].
  by apply not_greater_than_zero_false.
Qed.

Lemma seeded_new s cds new :
  List.map entry_content new = omap (snapshot_of T s) cds ->
  Forall (fun e => is_snapshot_entry T e = true /\ seeded_entry e) new.
Proof.
  revert new. induction cds as [|cd cds IH]; intros new Hnew; simpl in Hnew.
  - destruct new; [constructor | discriminate].
  - destruct (snapshot_of T s cd) as [c|] eqn:Hc; [|by apply IH].
    destruct new as [|e new]; [discriminate|]. simpl in Hnew.
    injection Hnew as He Hnew. constructor; [|by apply IH].
    apply snapshot_of_content in Hc as (w & f & v & q & cid & -> & Hq).
    unfold entry_content in He. injection He as Ht Ho _ _ _ Ha Hcase.
    unfold is_snapshot_entry, seeded_entry. rewrite Ht, Ho, Ha, Hcase.
    rewrite !bool_decide_eq_true_2 by done. by repeat split.
Qed.

Lemma filter_all {A} (p : A -> bool) l :
  Forall (fun x => p x = true) l -> List.filter p l = l.
Proof. induction 1 as [|x l Hx _ IH]; simpl; [done|]. by rewrite Hx, IH. Qed.

Lemma filter_none {A} (p : A -> bool) l :
  Forall (fun x => p x = true) l -> List.filter (fun x => negb (p x)) l = [].
Proof. induction 1 as [|x l Hx _ IH]; simpl; [done|]. by rewrite Hx. Qed.

Lemma filter_filter_negb {A} (p : A -> bool) l :
  List.filter p (List.filter (fun x => negb (p x)) l) = [].
Proof.
  induction l as [|x l IH]; simpl; [done|].
  destruct (p x) eqn:Hx; simpl; [done|]. by rewrite Hx.
Qed.

Lemma filter_idem {A} (p : A -> bool) l :
  List.filter p (List.filter p l) = List.filter p l.
Proof.
  induction l as [|x l IH]; simpl; [done|].
  destruct (p x) eqn:Hx; simpl; [|done]. by rewrite Hx, IH.
Qed.

Lemma seed_tables :
  preserves (fun s s' => wine_rows s' = wine_rows s /\ format_rows s' = format_rows s
                         /\ vintage_rows s' = vintage_rows s /\ case_rows s' = case_rows s)
    (seedWineInventoryEntriesFromCaseDetails T ld).
Proof.
  repeat apply preserves_and;
    unfold seedWineInventoryEntriesFromCaseDetails, loadMappings, delete_snapshot_entries;
    preserves_auto.
Qed.

Lemma snapshot_of_tables s s' cd :
  wine_rows s' = wine_rows s -> format_rows s' = format_rows s ->
  vintage_rows s' = vintage_rows s -> case_rows s' = case_rows s ->
  snapshot_of T s' cd = snapshot_of T s cd.
Proof.
  intros Hw Hf Hv Hc. unfold snapshot_of, first_wine, select_wines, getCaseIdMap.
  unfold wine_rows, case_rows in *. by rewrite Hw, Hf, Hv, Hc.
Qed.

(** C10 (amended): when the extracted data has case details, the seeding
    deletes every snapshot entry (null operation id) of the tenant and
    inserts one entry per case detail whose wine, bottle format, vintage and
    case resolve and whose quantity is positive; when it has none, the
    seeding returns at once and deletes nothing.  Either way it touches no
    other ledger entry, running it twice leaves the same snapshot entries
    (up to their freshly minted row identifiers) as running it once, and
    every entry it inserts has a null operation id, a positive amount and a
    case id. *)
Theorem C10_snapshot_seeding (s : Store) :
  let r1 := seedWineInventoryEntriesFromCaseDetails T ld s in
  let r2 := seedWineInventoryEntriesFromCaseDetails T ld (snd r1) in
  fst r1 = Normal tt /\ fst r2 = Normal tt
  /\ (caseDetails ld <> [] ->
      List.map entry_content (snapshot_entries T (snd r1))
      = omap (snapshot_of T s) (caseDetails ld))
  /\ (caseDetails ld = [] -> entries (snd r1) = entries s)
  /\ other_entries T (snd r1) = other_entries T s
  /\ List.map entry_content (snapshot_entries T (snd r2))
     = List.map entry_content (snapshot_entries T (snd r1))
  /\ only_adds entries seeded_entry s (snd r1).
Proof.
  intros r1 r2.
  destruct (seed_run s) as (s1 & E1 & H1). fold r1 in E1.
  destruct (seed_run s1) as (s2 & E2 & H2).
  assert (Hs1 : snd r1 = s1) by (by rewrite E1).
  assert (E2' : r2 = (Normal tt, s2)) by (subst r2; by rewrite Hs1).
  rewrite E2', E1. simpl.
  destruct (seed_tables s) as (Tw & Tf & Tv & Tc).
  fold r1 in Tw, Tf, Tv, Tc. rewrite Hs1 in Tw, Tf, Tv, Tc.
  split; [done|]. split; [done|].
  destruct (caseDetails ld) as [|cd cds] eqn:Hcds.
  - split; [done|]. split; [done|].
    unfold other_entries, snapshot_entries. rewrite H2, H1.
    split; [done|]. split; [done|]. intros e He. left. by rewrite <- H1.
  - destruct H1 as (new1 & Ee1 & Ec1). destruct H2 as (new2 & Ee2 & Ec2).
    pose proof (seeded_new s (cd :: cds) new1 Ec1) as Hnew1.
    pose proof (seeded_new s1 (cd :: cds) new2 Ec2) as Hnew2.
    assert (Hsnap : forall s' new,
              Forall (fun e => is_snapshot_entry T e = true /\ seeded_entry e) new ->
              forall base, entries s' = other_entries T base ++ new ->
              snapshot_entries T s' = new /\ other_entries T s' = other_entries T base).
    { intros s' new Hnew base Ee. unfold snapshot_entries, other_entries in *.
      rewrite Ee, !List.filter_app. split.
      - rewrite filter_filter_negb. simpl. apply filter_all.
        eapply Forall_impl; [exact Hnew|]. by intros e [? _].
      - rewrite (filter_idem (fun e => negb (is_snapshot_entry T e))).
        rewrite (filter_none (is_snapshot_entry T) new); [by rewrite app_nil_r|].
        eapply Forall_impl; [exact Hnew|]. by intros e [? _]. }
    destruct (Hsnap s1 new1 Hnew1 s Ee1) as [Sn1 So1].
    destruct (Hsnap s2 new2 Hnew2 s1 Ee2) as [Sn2 So2].
    split; [by intros _; rewrite Sn1|]. split; [done|]. split; [exact So1|].
    split.
    + rewrite Sn2, Sn1, Ec2, Ec1.
      clear -Tw Tf Tv Tc. induction (cd :: cds) as [|x l IH]; [done|].
      cbn [omap list_omap]. rewrite (snapshot_of_tables s s1 x Tw Tf Tv Tc).
      destruct (snapshot_of T s x); by rewrite IH.
    + intros e He. rewrite Ee1 in He. apply in_app_or in He as [He|He].
      * left. unfold other_entries in He. by apply filter_In in He as [? _].
      * right. pose proof (proj1 (Forall_forall _ _) Hnew1 e) as H.
        by apply H, list_elem_of_In.
Qed.

End SnapshotClaim.

Lemma C10_snapshot_seeding_witness :
  let r1 := seedWineInventoryEntriesFromCaseDetails tenant1 snapshot_data stale_store in
  let r2 := seedWineInventoryEntriesFromCaseDetails tenant1 snapshot_data (snd r1) in
  caseDetails snapshot_data <> []
  /\ List.map entry_content (snapshot_entries tenant1 (snd r1))
     = [(tenant1, None, 30, 40, 50, 6%Z, Some 21)]
  /\ List.map entry_content (snapshot_entries tenant1 (snd r2))
     = List.map entry_content (snapshot_entries tenant1 (snd r1)).
Proof.
  intros r1 r2.
  destruct (C10_snapshot_seeding tenant1 snapshot_data stale_store)
    as (_ & _ & Hsnap & _ & _ & Hidem & _).
  assert (Hne : caseDetails snapshot_data <> []) by discriminate.
  split; [exact Hne|]. split; [exact (Hsnap Hne) | exact Hidem].
Defined.

(** ** Runs of import-case-data.js cut short by an unresolved line *)

(** C2 fails on import-case-data.js.  Activity 504 refers to two resolvable
    cases: line 21 is on case 10 and line 22 on case 20.  The bottle format
    of line 21 has no target identifier, so the full run throws a TypeError
    at line 21, after the case operation of case 10 is inserted and before
    line 22 is looked at: the group is left with one case operation for two
    distinct resolvable cases, and nothing is posted.  On the same data
    migrate-specific-activity.js skips line 21 and goes on: one case
    operation per case, two in all. *)
Theorem C2_unresolved_line_leaves_case_without_operation :
  let cm := getCaseIdMap tenant1 example_store in
  let lines := getInventoryActivityDetails unresolved_format_data activity_deposit in
  let r := seedOperationGroups tenant1 unresolved_format_data example_store in
  let m := migrate tenant1 unresolved_format_data "504" false example_store in
  remove_dups (resolved_cases cm lines) = [20; 21]
  /\ List.map og_id (groups (snd r)) = [100]
  /\ fst r = Throw TypeError
  /\ List.map co_case_id (group_operations tenant1 100 (snd r)) = [20]
  /\ entries (snd r) = []
  /\ fst m = Normal tt
  /\ List.map co_case_id (group_operations tenant1 100 (snd m)) = [20; 21].
Proof. vm_compute. repeat split; reflexivity. Qed.

(** C7 fails on import-case-data.js.  The transfer activity 502 has two
    "Bottle" lines from case 20 to case 30.  Line 13 is fully resolved;
    line 14, before it, has a bottle format without target identifier.  The
    full run throws a TypeError at line 14 and stops: no case operation is
    created, where one resolved line asks for two.  On the same data
    migrate-specific-activity.js skips line 14 and creates the withdrawal
    and the deposit of line 13. *)
Theorem C7_unresolved_line_stops_transfer :
  let cm := getCaseIdMap tenant1 example_store in
  let lines := getInventoryActivityDetails unresolved_transfer_data activity_transfer in
  let r := seedOperationGroups tenant1 unresolved_transfer_data example_store in
  let m := migrate tenant1 unresolved_transfer_data "502" false example_store in
  List.map ActivityDetailID
    (List.filter (transfer_reconciles ImportCaseData tenant1 unresolved_transfer_data
                    cm example_store) lines) = [13%Z]
  /\ fst r = Throw TypeError
  /\ operations (snd r) = []
  /\ fst m = Normal tt
  /\ List.map operation_leg (operations (snd m))
     = [(Some withdrawal, 21); (Some deposit, 22)].
Proof. vm_compute. repeat split; reflexivity. Qed.

(** * Further properties of the code *)

(** ** Identifier maps and memoized lookups *)

Lemma filter_filter_andb {A} (p q : A -> bool) (l : list A) :
  List.filter p (List.filter q l) = List.filter (fun x => q x && p x) l.
Proof.
  induction l as [|x l IH]; simpl; [done|].
  destruct (q x); simpl; [|done]. destruct (p x); by rewrite IH.
Qed.

Lemma load_fold_lookup rows k : forall m : gmap MapKey uuid,
  fold_left (fun m r => <[col_key (row_legacy_id r) := row_id r]> m) rows m !! KStr k
  = match last (rows_of_legacy k rows) with
    | Some r => Some (row_id r)
    | None => m !! KStr k
    end.
Proof.
  unfold rows_of_legacy.
  induction rows as [|r rows IH]; intros m; simpl; [done|].
  rewrite IH. case_bool_decide as Hk; simpl.
  - rewrite last_cons. destruct (last _); [done|].
    rewrite Hk. simpl. by rewrite lookup_insert_eq.
  - destruct (last _); [done|].
    rewrite lookup_insert_ne; [done|].
    destruct (row_legacy_id r); simpl; congruence.
Qed.

Lemma load_id_map_lookup T rows k :
  load_id_map T rows !! KStr k = row_id <$> last (select_rows T k rows).
Proof.
  unfold load_id_map. rewrite load_fold_lookup, lookup_empty.
  unfold rows_of_legacy, tenant_rows, select_rows.
  rewrite filter_filter_andb.
  assert (E : forall l : list LegacyRow,
            List.filter (fun x => bool_decide (row_tenant_id x = T)
                                  && bool_decide (row_legacy_id x = Some k)) l
            = List.filter (fun r => bool_decide (row_legacy_id r = Some k)
                                    && bool_decide (row_tenant_id r = T)) l).
  { intros l. apply filter_ext. intros r. apply andb_comm. }
  rewrite E. by destruct (last _).
Qed.

(** The maps that [getCaseIdMap], [getBottleFormatIdMap] and
    [getBottleVintageIdMap] load send the text of a legacy id to the
    identifier of the last row of the tenant that carries it (a later
    [Map.set] overwrites an earlier one), and to nothing when the tenant has
    no such row; being keyed by text, they have no entry for a number. *)
Theorem id_maps_last_row (T : uuid) (s : Store) (k : string) (n : Z) :
  getCaseIdMap T s !! KStr k
  = row_id <$> last (select_rows T k (cases (dataSource s)))
  /\ getBottleFormatIdMap T s !! KStr k
     = row_id <$> last (select_rows T k (wine_bottle_formats (dataSource s)))
  /\ getBottleVintageIdMap T s !! KStr k
     = row_id <$> last (select_rows T k (wine_bottle_vintages (dataSource s)))
  /\ getCaseIdMap T s !! KNum n = None
  /\ getBottleFormatIdMap T s !! KNum n = None
  /\ getBottleVintageIdMap T s !! KNum n = None.
Proof.
  unfold getCaseIdMap, getBottleFormatIdMap, getBottleVintageIdMap.
  rewrite !load_id_map_lookup, !load_id_map_no_number. done.
Qed.

Lemma getNewWineId_again T legacy s c s1 :
  getNewWineId T legacy s = (c, s1) ->
  getNewWineId T legacy s1 = (c, s1) /\ dataSource s1 = dataSource s.
Proof.
  unfold getNewWineId, bind, gets, ret, modify, toString_of, throw. simpl.
  destruct (wineMapId s !! num_key legacy) as [id|] eqn:Hm.
  - intros [= <- <-]. by rewrite Hm.
  - destruct legacy as [n|]; simpl in *.
    + destruct (select_wines T (toString n) s) as [|w ws] eqn:Hsel; simpl.
      * intros [= <- <-]. by rewrite Hm, Hsel.
      * intros [= <- <-]. simpl. by rewrite lookup_insert_eq.
    + intros [= <- <-]. by rewrite Hm.
Qed.

Lemma getNewBottleFormatId_again T legacy s c s1 :
  getNewBottleFormatId T legacy s = (c, s1) ->
  getNewBottleFormatId T legacy s1 = (c, s1) /\ dataSource s1 = dataSource s.
Proof.
  unfold getNewBottleFormatId, bind, gets, ret, modify, toString_of, throw. simpl.
  destruct (bottleFormatMapId s !! num_key legacy) as [id|] eqn:Hm.
  - intros [= <- <-]. by rewrite Hm.
  - destruct legacy as [n|]; simpl in *.
    + destruct (select_rows T (toString n) (wine_bottle_formats (dataSource s)))
        as [|w ws] eqn:Hsel; simpl.
      * intros [= <- <-]. by rewrite Hm, Hsel.
      * intros [= <- <-]. simpl. by rewrite lookup_insert_eq.
    + intros [= <- <-]. by rewrite Hm.
Qed.

Lemma getNewBottleVintageId_again T legacy s c s1 :
  getNewBottleVintageId T legacy s = (c, s1) ->
  getNewBottleVintageId T legacy s1 = (c, s1) /\ dataSource s1 = dataSource s.
Proof.
  unfold getNewBottleVintageId, bind, gets, ret, modify, toString_of, throw. simpl.
  destruct (bottleVintageMapId s !! num_key legacy) as [id|] eqn:Hm.
  - intros [= <- <-]. by rewrite Hm.
  - destruct legacy as [n|]; simpl in *.
    + destruct (select_rows T (toString n) (wine_bottle_vintages (dataSource s)))
        as [|w ws] eqn:Hsel; simpl.
      * intros [= <- <-]. by rewrite Hm, Hsel.
      * intros [= <- <-]. simpl. by rewrite lookup_insert_eq.
    + intros [= <- <-]. by rewrite Hm.
Qed.

(** The three memoized lookups [getNewWineId], [getNewBottleFormatId] and
    [getNewBottleVintageId] write no table, and asking again gives the same
    answer (the same identifier, the same miss or the same TypeError on a
    null id) and changes nothing more: after the first call the memo map
    answers. *)
Theorem memoized_lookup_again (T : uuid) (legacy : option Z) (s : Store) :
  let w := getNewWineId T legacy s in
  let f := getNewBottleFormatId T legacy s in
  let v := getNewBottleVintageId T legacy s in
  (getNewWineId T legacy (snd w) = (fst w, snd w)
   /\ dataSource (snd w) = dataSource s)
  /\ (getNewBottleFormatId T legacy (snd f) = (fst f, snd f)
      /\ dataSource (snd f) = dataSource s)
  /\ (getNewBottleVintageId T legacy (snd v) = (fst v, snd v)
      /\ dataSource (snd v) = dataSource s).
Proof.
  intros w f v. split; [|split].
  - apply getNewWineId_again. subst w. by destruct (getNewWineId T legacy s).
  - apply getNewBottleFormatId_again. subst f.
    by destruct (getNewBottleFormatId T legacy s).
  - apply getNewBottleVintageId_again. subst v.
    by destruct (getNewBottleVintageId T legacy s).
Qed.
(** ** Deposits and withdrawals: the ledger total of the group *)

Lemma find_unique (ops : list CaseOperationRow) co :
  NoDup (List.map co_id ops) -> In co ops ->
  List.find (fun x => bool_decide (co_id x = co_id co)) ops = Some co.
Proof.
  induction ops as [|x l IH]; simpl; [done|].
  intros Hnd [->|Hin].
  - by rewrite bool_decide_eq_true_2.
  - apply NoDup_cons in Hnd as [Hx Hnd].
    rewrite bool_decide_eq_false_2; [by apply IH|].
    intros E. apply Hx. rewrite E. apply list_elem_of_fmap.
    exists co. split; [done|]. by apply list_elem_of_In.
Qed.

Lemma set_amount_other x id l :
  Forall (fun e => wie_id e <> id) l -> List.map (set_amount x id) l = l.
Proof.
  induction 1 as [|e l He _ IH]; simpl; [done|].
  rewrite IH. unfold set_amount. by rewrite bool_decide_eq_false_2.
Qed.

Lemma set_amount_id x id l :
  List.map wie_id (List.map (set_amount x id) l) = List.map wie_id l.
Proof.
  induction l as [|e l IH]; simpl; [done|]. rewrite IH. f_equal.
  unfold set_amount. by case_bool_decide.
Qed.

Lemma sumZ_app l1 l2 : sumZ (l1 ++ l2) = (sumZ l1 + sumZ l2)%Z.
Proof. induction l1 as [|x l1 IH]; simpl; [done|]. rewrite IH. lia. Qed.

(** Rewriting the amount of one entry changes the total of the entries that
    satisfy [p] by the difference, when that entry satisfies [p]. *)
Lemma sum_set_amount (p : WineInventoryEntryRow -> bool) l e0 q :
  NoDup (List.map wie_id l) -> In e0 l ->
  (forall e x, p (set_amount x (wie_id e0) e) = p e) ->
  sumZ (List.map wie_amount
          (List.filter p (List.map (set_amount (wie_amount e0 + q) (wie_id e0)) l)))
  = (sumZ (List.map wie_amount (List.filter p l)) + if p e0 then q else 0)%Z.
Proof.
  intros Hnd Hin Hp. induction l as [|x l IH]; [done|].
  simpl in Hnd. apply NoDup_cons in Hnd as [Hx Hnd].
  destruct Hin as [->|Hin].
  - assert (Hl : Forall (fun e => wie_id e <> wie_id e0) l).
    { apply Forall_forall. intros e He E. apply Hx. rewrite <- E.
      apply list_elem_of_fmap. by exists e. }
    simpl. rewrite (set_amount_other _ _ _ Hl), Hp.
    unfold set_amount at 1. rewrite bool_decide_eq_true_2 by done.
    destruct (p e0); simpl; lia.
  - assert (Hne : wie_id x <> wie_id e0).
    { intros E. apply Hx. rewrite E. apply list_elem_of_fmap.
      exists e0. split; [done|]. by apply list_elem_of_In. }
    simpl. rewrite Hp.
    unfold set_amount at 1. rewrite bool_decide_eq_false_2 by done.
    destruct (p x); simpl; rewrite (IH Hnd Hin); lia.
Qed.

Lemma keys_wf_frame s s' :
  keys_wf s -> operations s' = operations s -> entries s' = entries s ->
  uuid_supply s <= uuid_supply s' -> keys_wf s'.
Proof.
  intros (Hwf & Hops & Hent & Hids) Eo Ee Hle.
  split; [by apply (store_wf_frame s)|].
  rewrite Eo, Ee. split; [done|]. split; [done|].
  eapply Forall_impl; [exact Hids|]. simpl. intros e ?. lia.
Qed.

Section DepositLedger.

Context (sc : Script) (T : uuid) (ld : LegacyData) (cm : gmap MapKey uuid).
Context (g : uuid) (a : Activity) (ty : OperationType).
Context (Hty : parseActivityTransactionType sc a = Some ty).

(** Adding minted case operations does not change what the entries are
    posted to. *)
Lemma total_posted_ops_app s s' new ty' :
  store_wf s -> operations s' = operations s ++ new -> entries s' = entries s ->
  Forall (fun co => uuid_supply s <= co_id co) new ->
  total_posted g ty' s' = total_posted g ty' s.
Proof.
  intros [Hops Hent] Eo Ee Hnew. unfold total_posted. rewrite Ee.
  do 2 f_equal. apply filter_ext_in. intros e He.
  unfold posted_to, operation_of. rewrite Eo.
  pose proof (proj1 (Forall_forall _ _) Hent e) as Hmint.
  unfold entry_minted in Hmint.
  destruct (wie_operation_id e) as [op|]; [|done].
  assert (op < uuid_supply s) by (apply Hmint, list_elem_of_In, He).
  rewrite find_app.
  destruct (List.find _ (operations s)); [done|].
  assert (Hnone : List.find (fun co => bool_decide (co_id co = op)) new = None).
  { clear -Hnew H. induction Hnew as [|co l Hco _ IH]; simpl; [done|].
    rewrite bool_decide_eq_false_2 by lia. exact IH. }
  by rewrite Hnone.
Qed.

(** Finding or creating the case operation of a line whose case resolves. *)
Lemma getCaseOperationFromActivityDetail_result d s c :
  resolve_case cm (CaseID d) = Some c ->
  exists op s1,
    getCaseOperationFromActivityDetail sc T cm g d a s = (Normal (Some op), s1)
    /\ entries s1 = entries s
    /\ ((exists co rest, select_case_operations T g c s = co :: rest
                         /\ op = co_id co /\ s1 = s)
        \/ (op = uuid_supply s
            /\ operations s1
               = operations s ++ [detail_operation sc T a g (uuid_supply s) c]
            /\ uuid_supply s1 = S (uuid_supply s))).
Proof.
  intros Hc.
  destruct (select_case_operations T g c s) as [|co rest] eqn:Hsel.
  - unfold getCaseOperationFromActivityDetail, getCaseOperation, resolve_case in *.
    destruct (CaseID d) as [n|] eqn:Hcase; [|done].
    unfold createCaseOperationFromActivityDetail, insert_case_operation, toString_of.
    exists (uuid_supply s).
    destruct sc; run_async; rewrite Hc, Hsel, Hcase; simpl; rewrite Hc;
      (eexists; split; [reflexivity|]; split; [reflexivity|]; right; done).
  - exists (co_id co), s.
    rewrite (getCaseOperationFromActivityDetail_reuse sc T cm g a d s c co rest Hc Hsel).
    split; [done|]. split; [done|]. left. by exists co, rest.
Qed.

(** Posting a quantity to a case operation of the group adds it to the
    total of the group. *)
Lemma post_total co w f v q s :
  keys_wf s -> In co (operations s) ->
  co_group_id co = g -> co_type co = Some ty ->
  let r := createCaseOperationInventoryEntry T (co_id co) w f v q s in
  fst r = Normal tt
  /\ keys_wf (snd r)
  /\ operations (snd r) = operations s
  /\ total_posted g ty (snd r) = (total_posted g ty s + q)%Z.
Proof.
  intros (Hwf & Hops & Hent & Hids) Hco Hg Htype r. subst r.
  assert (Hpost : forall s' e, operations s' = operations s ->
            wie_operation_id e = Some (co_id co) -> posted_to g ty s' e = true).
  { intros s' e Eo He. unfold posted_to, operation_of. rewrite He, Eo.
    rewrite (find_unique _ co Hops Hco).
    by rewrite !bool_decide_eq_true_2. }
  assert (Hlt : co_id co < uuid_supply s).
  { destruct Hwf as [Hm _]. apply (proj1 (Forall_forall _ _) Hm co).
    by apply list_elem_of_In. }
  destruct (select_entries T (co_id co) w f v s) as [|e0 rest] eqn:Hsel.
  - rewrite (post_absent T _ _ _ _ q s Hsel). simpl.
    split; [done|]. split; [|split; [done|]].
    + split; [|split; [done|split]].
      * destruct Hwf as [Hm He]. split.
        -- eapply Forall_impl; [exact Hm|]. unfold operation_minted. simpl.
           intros ? ?. lia.
        -- unfold entries. simpl. apply Forall_app. split.
           ++ eapply Forall_impl; [exact He|]. unfold entry_minted. simpl.
              intros e ?. destruct (wie_operation_id e); [lia|done].
           ++ repeat constructor; unfold entry_minted; simpl; lia.
      * unfold entries. simpl. rewrite List.map_app. simpl.
        apply NoDup_app. split; [exact Hent|]. split; [|apply NoDup_singleton].
        intros x Hx ->%list_elem_of_singleton.
        apply list_elem_of_fmap in Hx as (e & He & Hin).
        pose proof (proj1 (Forall_forall _ _) Hids e Hin). simpl in *. lia.
      * unfold entries. simpl. apply Forall_app. split.
        -- eapply Forall_impl; [exact Hids|]. simpl. intros e ?. lia.
        -- repeat constructor; simpl; lia.
    + unfold total_posted at 1. unfold entries at 1. simpl.
      rewrite List.filter_app, List.map_app, sumZ_app. simpl.
      rewrite Hpost by done. simpl.
      unfold total_posted, entries.
      match goal with
      | |- (sumZ (List.map _ (List.filter ?p _)) + _ = _)%Z =>
          rewrite (filter_ext p (posted_to g ty s)) by (intros e; reflexivity)
      end.
      lia.
  - rewrite (post_present T _ _ _ _ q s e0 rest Hsel). simpl.
    assert (Hin0 : In e0 (entries s)).
    { assert (H : In e0 (select_entries T (co_id co) w f v s))
        by (rewrite Hsel; by left).
      unfold select_entries in H. by apply filter_In in H as [? _]. }
    assert (Hop0 : wie_operation_id e0 = Some (co_id co)).
    { assert (H : In e0 (select_entries T (co_id co) w f v s))
        by (rewrite Hsel; by left).
      unfold select_entries in H. apply filter_In in H as [_ H].
      unfold entry_matches in H. rewrite !andb_true_iff in H.
      destruct H as [[[[_ H] _] _] _]. by apply bool_decide_eq_true in H. }
    split; [done|]. split; [|split; [done|]].
    + split; [|split; [done|split]].
      * destruct Hwf as [Hm He]. split; [done|].
        unfold entries. simpl. fold (entries s).
        apply Forall_forall. intros e Hin.
        apply list_elem_of_In, in_map_iff in Hin as (e' & <- & Hin').
        pose proof (proj1 (Forall_forall _ _) He e' ltac:(by apply list_elem_of_In)) as H.
        unfold entry_minted, set_amount in *. by case_bool_decide.
      * unfold entries. simpl. fold (entries s). by rewrite set_amount_id.
      * unfold entries. simpl. fold (entries s).
        apply Forall_forall. intros e Hin.
        apply list_elem_of_In, in_map_iff in Hin as (e' & <- & Hin').
        pose proof (proj1 (Forall_forall _ _) Hids e' ltac:(by apply list_elem_of_In)) as H.
        unfold set_amount. by case_bool_decide.
    + unfold total_posted at 1. unfold entries at 1. simpl. fold (entries s).
      rewrite (sum_set_amount _ (entries s) e0 q Hent Hin0).
      * rewrite Hpost by done. unfold total_posted. do 3 f_equal.
      * intros e x. unfold posted_to, operation_of, set_amount.
        by case_bool_decide.
Qed.

Lemma deposit_line_alike d :
  preserves (resolves_alike T)
    (createOrUpdateCaseOperationFromActivityDepositOrWithdrawalActivityDetail
       sc T ld cm g d a).
Proof. preserves_auto. Qed.

Lemma group_typed_frame s s' :
  group_typed g ty s -> operations s' = operations s -> group_typed g ty s'.
Proof. unfold group_typed. by intros H ->. Qed.

(** A line whose case does not resolve writes nothing. *)
Lemma deposit_line_no_case d s :
  resolve_case cm (CaseID d) = None ->
  snd (createOrUpdateCaseOperationFromActivityDepositOrWithdrawalActivityDetail
         sc T ld cm g d a s) = s.
Proof.
  unfold createOrUpdateCaseOperationFromActivityDepositOrWithdrawalActivityDetail,
    getCaseOperationFromActivityDetail, resolve_case, toString_of.
  destruct (CaseID d) as [n|]; intros Hc; destruct sc; run_async;
    rewrite ?Hc; done.
Qed.

(** What a deposit or withdrawal line does to the total of the group: a
    reconciled line adds its quantity, any other line leaves it. *)
Lemma deposit_line_total d s :
  keys_wf s -> group_typed g ty s ->
  let r := createOrUpdateCaseOperationFromActivityDepositOrWithdrawalActivityDetail
             sc T ld cm g d a s in
  keys_wf (snd r) /\ group_typed g ty (snd r)
  /\ (deposit_reconciles sc T ld cm s d = true -> exists x, fst r = Normal x)
  /\ total_posted g ty (snd r)
     = (total_posted g ty s
        + if deposit_reconciles sc T ld cm s d then Quantity d else 0)%Z.
Proof.
  intros Hk Hg r. subst r. unfold deposit_reconciles.
  destruct (resolve_case cm (CaseID d)) as [c|] eqn:Hc.
  2:{ rewrite (deposit_line_no_case d s Hc).
      rewrite (bool_decide_eq_false_2 (is_Some None)) by (by intros [? ?]).
      simpl. split; [done|]. split; [done|]. split; [done|]. lia. }
  rewrite (bool_decide_eq_true_2 (is_Some (Some c))) by done. simpl.
  remember (createOrUpdateCaseOperationFromActivityDepositOrWithdrawalActivityDetail
              sc T ld cm g d a s) as r eqn:Er.
  unfold createOrUpdateCaseOperationFromActivityDepositOrWithdrawalActivityDetail in Er.
  destruct (getCaseOperationFromActivityDetail_result d s c Hc)
    as (op & s1 & Eop & Ee1 & Hop).
  pose proof (getCaseOperationFromActivityDetail_alike sc T cm g a d s) as Ha.
  rewrite Eop in Ha. simpl in Ha.
  unfold bind at 1 in Er. rewrite Eop in Er.
  assert (H1 : keys_wf s1 /\ group_typed g ty s1
               /\ total_posted g ty s1 = total_posted g ty s
               /\ exists co, In co (operations s1) /\ co_id co = op
                             /\ co_group_id co = g /\ co_type co = Some ty).
  { destruct Hop as [(co & rest & Hsel & -> & ->) | (-> & Eo & Es)].
    - split; [done|]. split; [done|]. split; [done|].
      assert (Hin : In co (select_case_operations T g c s))
        by (rewrite Hsel; by left).
      unfold select_case_operations in Hin. apply filter_In in Hin as [Hin Hb].
      rewrite !andb_true_iff, !bool_decide_eq_true in Hb.
      destruct Hb as [[Hgrp _] _].
      exists co. split; [done|]. split; [done|]. split; [done|].
      apply (proj1 (Forall_forall _ _) Hg co); [by apply list_elem_of_In | done].
    - destruct Hk as (Hwf & Hops & Hent & Hids).
      split; [|split; [|split]].
      + split; [|split; [|split]].
        * destruct Hwf as [Hm He]. split.
          -- rewrite Eo. apply Forall_app. split.
             ++ eapply Forall_impl; [exact Hm|]. unfold operation_minted.
                intros ? ?. lia.
             ++ repeat constructor; unfold operation_minted; simpl; lia.
          -- rewrite Ee1. eapply Forall_impl; [exact He|]. unfold entry_minted.
             intros e ?. destruct (wie_operation_id e); [lia|done].
        * rewrite Eo, List.map_app. simpl.
          apply NoDup_app. split; [exact Hops|]. split; [|apply NoDup_singleton].
          intros x Hx ->%list_elem_of_singleton.
          apply list_elem_of_fmap in Hx as (co & Hco & Hin).
          destruct Hwf as [Hm _].
          pose proof (proj1 (Forall_forall _ _) Hm co Hin) as Hlt.
          unfold operation_minted in Hlt. lia.
        * by rewrite Ee1.
        * rewrite Ee1. eapply Forall_impl; [exact Hids|]. simpl. intros e ?. lia.
      + unfold group_typed. rewrite Eo. apply Forall_app. split; [exact Hg|].
        repeat constructor. simpl. intros _. exact Hty.
      + apply (total_posted_ops_app s s1 _ ty Hwf Eo Ee1).
        repeat constructor; simpl; lia.
      + eexists. split; [rewrite Eo; apply in_or_app; right; by left|]. done. }
  destruct H1 as (Hk1 & Hg1 & Ht1 & co & Hco & <- & Hgrp & Htype).
  destruct (validate_result sc T ld cm d s1) as (rv & Ev & Vv).
  pose proof (validate_same_operations sc T ld cm d s1) as Fo.
  pose proof (validate_same_entries sc T ld cm d s1) as Fe.
  pose proof (validate_supply_grows sc T ld cm d s1) as Fs.
  rewrite (inventory_resolves_alike sc T ld cm s s1 d Ha) in Vv.
  destruct (validateInventoryActivityDetail sc T ld cm d s1) as [cv s2] eqn:Hval.
  simpl in *. subst cv. unfold same in Fo, Fe. unfold supply_grows in Fs.
  pose proof (keys_wf_frame s1 s2 Hk1 Fo Fe Fs) as Hk2.
  pose proof (group_typed_frame s1 s2 Hg1 Fo) as Hg2.
  pose proof (total_posted_frame g s1 s2 ty Fo Fe) as Ht2.
  unfold bind at 1 in Er. rewrite Hval in Er.
  destruct (inventory_resolves sc T ld cm s d) eqn:Hinv.
  - destruct (proj2 Vv eq_refl) as [[[w f] v] ->].
    unfold destructure_validated in Er. unfold bind at 1, ret at 1 in Er.
    assert (Hco2 : In co (operations s2)) by (by rewrite Fo).
    destruct (post_total co w f v (Quantity d) s2 Hk2 Hco2 Hgrp Htype)
      as (Hn & Hk3 & Eo3 & Ht3).
    unfold try_catch, bind at 1 in Er.
    destruct (createCaseOperationInventoryEntry T (co_id co) w f v (Quantity d) s2)
      as [[[]|e] s3]; simpl in Hn; [|done].
    simpl in *. subst r. simpl.
    split; [done|]. split; [by apply (group_typed_frame s2)|].
    split; [by eexists|]. lia.
  - assert (rv = None) as ->.
    { destruct rv; [|done]. by pose proof (proj1 Vv ltac:(done)). }
    unfold destructure_validated in Er.
    destruct sc; run_async; subst r; simpl;
      (split; [done|]; split; [done|]; split; [done|]; lia).
Qed.

(** The loop over the lines of a deposit or withdrawal activity. *)
Lemma deposit_ledger_loop lines : forall s0 s,
  keys_wf s -> group_typed g ty s -> resolves_alike T s0 s ->
  let r := for_of lines
             (fun d =>
                createOrUpdateCaseOperationFromActivityDepositOrWithdrawalActivityDetail
                  sc T ld cm g d a ;;; ret tt) s in
  keys_wf (snd r)
  /\ (fst r = Normal tt ->
      total_posted g ty (snd r)
      = (total_posted g ty s
         + quantity_total (List.filter (deposit_reconciles sc T ld cm s0) lines))%Z).
Proof.
  induction lines as [|d lines IH]; intros s0 s Hk Hg Ha; cbv zeta.
  - simpl. split; [done|]. intros _. unfold quantity_total. simpl. lia.
  - simpl for_of. rewrite for_of_step.
    destruct (deposit_line_total d s Hk Hg) as (Hk1 & Hg1 & _ & Ht1).
    pose proof (deposit_line_alike d s) as Ha1.
    assert (Erec : deposit_reconciles sc T ld cm s d = deposit_reconciles sc T ld cm s0 d).
    { unfold deposit_reconciles. by rewrite (inventory_resolves_alike sc T ld cm s0 s d Ha). }
    rewrite Erec in Ht1.
    destruct (createOrUpdateCaseOperationFromActivityDepositOrWithdrawalActivityDetail
                sc T ld cm g d a s) as [[x|e] s1]; simpl in *; [|done].
    assert (Ha' : resolves_alike T s0 s1) by (etransitivity; eassumption).
    destruct (IH s0 s1 Hk1 Hg1 Ha') as [IHk IHt]. split; [done|].
    intros Hok. rewrite (IHt Hok), Ht1. unfold quantity_total.
    destruct (deposit_reconciles sc T ld cm s0 d); simpl; lia.
Qed.

End DepositLedger.

(** Conservation for deposits and withdrawals.  In a store whose
    identifiers are primary keys, reconciling a deposit or withdrawal
    activity under a group that has no case operation yet, when it
    completes, leaves under the group a ledger total equal to the sum of the
    quantities of the lines whose case, wine, bottle format and vintage
    resolve: every reconciled line is posted once, to an operation of the
    group, and nothing else is posted there. *)
Theorem deposit_ledger_total (sc : Script) (T : uuid) (ld : LegacyData)
    (cm : gmap MapKey uuid) (g : uuid) (a : Activity) (ty : OperationType) (s : Store) :
  keys_wf s ->
  Forall (fun co => co_group_id co <> g) (operations s) ->
  parseActivityTransactionType sc a = Some ty ->
  let r := createCaseOperationsFromActivityDepositOrWithdrawal sc T ld cm g a s in
  fst r = Normal tt ->
  total_posted g ty (snd r)
  = quantity_total
      (List.filter (deposit_reconciles sc T ld cm s) (getInventoryActivityDetails ld a)).
Proof.
  intros Hk Hfresh Hty r Hok.
  assert (Hg : group_typed g ty s).
  { eapply Forall_impl; [exact Hfresh|]. by intros co Hne Hg. }
  destruct (deposit_ledger_loop sc T ld cm g a ty Hty
              (getInventoryActivityDetails ld a) s s Hk Hg ltac:(reflexivity))
    as [_ Ht].
  change (for_of _ _ s) with r in Ht.
  rewrite (Ht Hok), (total_posted_fresh_group g ty s Hfresh). lia.
Qed.

Lemma deposit_ledger_total_witness :
  total_posted 100 deposit
    (snd (createCaseOperationsFromActivityDepositOrWithdrawal ImportCaseData tenant1
            status_data (getCaseIdMap tenant1 example_store) 100 activity_status1
            example_store))
  = 5%Z.
Proof.
  rewrite (deposit_ledger_total ImportCaseData tenant1 status_data
             (getCaseIdMap tenant1 example_store) 100 activity_status1 deposit
             example_store).
  - reflexivity.
  - repeat split; simpl; try constructor.
  - constructor.
  - reflexivity.
  - reflexivity.
Defined.
(** ** What reconciling activities writes, and what it leaves alone *)

Lemma appends_preorder {B} (table : Store -> list B) (P : B -> Prop) :
  PreOrder (appends table P).
Proof.
  split; unfold appends.
  - intros s. exists []. by rewrite app_nil_r.
  - intros s1 s2 s3 (new1 & E1 & H1) (new2 & E2 & H2).
    exists (new1 ++ new2). rewrite E2, E1, app_assoc. split; [done|].
    by apply Forall_app.
Qed.
#[global] Existing Instance appends_preorder.

Ltac appends_leaf :=
  intros ?; unfold appends;
  cbv [groups operations entries wine_rows user_rows case_rows format_rows vintage_rows];
  simpl;
  first [ by (exists []; rewrite app_nil_r)
        | by (eexists; split; [reflexivity | repeat constructor]) ].

#[global] Hint Extern 1 (preserves (appends _ _) (modify _)) =>
  (apply preserves_modify; appends_leaf) : preserves.
#[global] Hint Extern 1 (preserves (appends _ _) uuidv4) =>
  (apply preserves_uuidv4; appends_leaf) : preserves.

Section Writes.

Context (T : uuid) (ld : LegacyData).

Lemma seedOperationGroups_append_only :
  preserves (append_only T) (seedOperationGroups T ld).
Proof.
  unfold append_only.
  repeat apply preserves_and; unfold seedOperationGroups, getCustomerActivities;
    preserves_auto.
Qed.

Lemma migrate_append_only activityId :
  preserves (append_only T) (migrate T ld activityId false).
Proof.
  unfold append_only.
  repeat apply preserves_and;
    unfold migrate, validateDependencies, loadMappings, migrateActivity;
    preserves_auto.
Qed.

End Writes.

(** The full run of import-case-data.js over the activities and the
    migration of one activity without --clear-existing never write the
    users, the cases, the bottle formats or the bottle vintages, and never
    delete or rewrite an operation group, a case operation or a wine: these
    three tables keep the rows they had, in place, and every row added
    after them carries the tenant of the run.  This holds whatever the
    outcome, also when the run throws. *)
Theorem reconciliation_append_only (T : uuid) (ld : LegacyData) (activityId : string)
    (s : Store) :
  append_only T s (snd (seedOperationGroups T ld s))
  /\ append_only T s (snd (migrate T ld activityId false s)).
Proof.
  split; [apply seedOperationGroups_append_only | apply migrate_append_only].
Qed.

(** ** Lines and activities that are not reconciled *)

Section NotReconciled.

Context (sc : Script) (T : uuid) (ld : LegacyData) (cm : gmap MapKey uuid).

Lemma createNewWine_one l description s :
  let r := createNewWine sc T l description s in
  (exists id, fst r = Normal id)
  /\ (wine_rows (snd r) = wine_rows s
      \/ exists row, wine_rows (snd r) = wine_rows s ++ [row] /\ wine_tenant_id row = T).
Proof.
  unfold createNewWine, insert_wine. destruct sc; run_async.
  - destruct l as [n|]; [destruct (select_wines T (toString n) s)|]; simpl;
      (split; [by eexists|]); try (by left); right; by eexists.
  - split; [by eexists|]. right. by eexists.
Qed.

Lemma validate_writes d s :
  let r := validateInventoryActivityDetail sc T ld cm d s in
  wine_rows (snd r) = wine_rows s
  \/ exists row, wine_rows (snd r) = wine_rows s ++ [row] /\ wine_tenant_id row = T.
Proof.
  intros r. subst r.
  remember (validateInventoryActivityDetail sc T ld cm d s) as r eqn:Er.
  unfold validateInventoryActivityDetail in Er.
  pose proof (validate_try_wines sc T ld cm d s) as Hw. unfold same in Hw.
  unfold bind at 1, try_catch in Er.
  destruct (validate_try sc T ld cm d s) as [[r0|e] s3]; simpl in Hw;
    [|subst r; left; exact Hw].
  destruct r0 as [[[[[[lw lf] lv] [nw|]] nf] nv]|]; [| |subst r; left; exact Hw].
  - rewrite <- Hw. left. run_async.
    destruct nf, nv; simpl in Er; try (by subst r).
    destruct (truthy lw && truthy lf && truthy lv); by subst r.
  - rewrite <- Hw.
    destruct (createNewWine_one lw
                ("Legacy Wine - Veritas - " +:+ js_string lw) s3) as [[id Hid] Hrows].
    unfold bind at 1 in Er.
    destruct (createNewWine sc T lw _ s3) as [[id'|e] s4]; simpl in *; [|done].
    assert (E : snd r = s4).
    { destruct nf, nv; simpl in Er; try (by subst r).
      destruct (truthy lw && truthy lf && truthy lv); by subst r. }
    by rewrite E.
Qed.

End NotReconciled.

(** [validateInventoryActivityDetail] never throws, in either script: what
    the lookups of its [try] throw is caught.  It returns the three target
    identifiers exactly when the wine, the bottle format and the vintage of
    the line resolve; it writes no operation group, case operation or ledger
    entry, and at most one wine (the placeholder), of the tenant. *)
Theorem validate_never_throws (sc : Script) (T : uuid) (ld : LegacyData)
    (cm : gmap MapKey uuid) (d : ActivityDetail) (s : Store) :
  let r := validateInventoryActivityDetail sc T ld cm d s in
  (exists rv, fst r = Normal rv
              /\ (is_Some rv <-> inventory_resolves sc T ld cm s d = true))
  /\ groups (snd r) = groups s
  /\ operations (snd r) = operations s
  /\ entries (snd r) = entries s
  /\ (wine_rows (snd r) = wine_rows s
      \/ exists row, wine_rows (snd r) = wine_rows s ++ [row] /\ wine_tenant_id row = T).
Proof.
  intros r. split; [apply validate_result|].
  split.
  { assert (H : preserves (same groups) (validateInventoryActivityDetail sc T ld cm d))
      by preserves_auto.
    apply H. }
  split; [apply validate_same_operations|].
  split; [apply validate_same_entries | apply validate_writes].
Qed.

(** A deposit or withdrawal line whose case has no target identifier is
    passed over: nothing is written, and the call returns, except in
    migrate-specific-activity.js when the line has no case at all, where
    [CaseID.toString()] throws. *)
Theorem deposit_line_unresolved_case (sc : Script) (T : uuid) (ld : LegacyData)
    (cm : gmap MapKey uuid) (g : uuid) (a : Activity) (d : ActivityDetail) (s : Store) :
  resolve_case cm (CaseID d) = None ->
  createOrUpdateCaseOperationFromActivityDepositOrWithdrawalActivityDetail
    sc T ld cm g d a s
  = (match sc, CaseID d with
     | MigrateSpecificActivity, None => Throw TypeError
     | _, _ => Normal None
     end, s).
Proof.
  unfold createOrUpdateCaseOperationFromActivityDepositOrWithdrawalActivityDetail,
    getCaseOperationFromActivityDetail, resolve_case, toString_of.
  destruct (CaseID d) as [n|]; intros Hc; destruct sc; run_async;
    rewrite ?Hc; done.
Qed.

Lemma deposit_line_unresolved_case_witness :
  createOrUpdateCaseOperationFromActivityDepositOrWithdrawalActivityDetail
    ImportCaseData tenant1 status_data (getCaseIdMap tenant1 example_store) 100
    (bottle_line 9 501 99 None (Some 7%Z) (Some 1%Z) (Some 2015%Z) 3)
    activity_status1 example_store
  = (Normal None, example_store).
Proof.
  apply (deposit_line_unresolved_case ImportCaseData tenant1 status_data
           (getCaseIdMap tenant1 example_store) 100 activity_status1
           (bottle_line 9 501 99 None (Some 7%Z) (Some 1%Z) (Some 2015%Z) 3)
           example_store).
  reflexivity.
Defined.

Lemma no_inventory_lines ld a :
  Forall (fun d => detail_ActivityID d = Some (ActivityID a) -> ActivityType d = "Supply")
    (activityDetails ld) ->
  getInventoryActivityDetails ld a = [].
Proof.
  intros H. unfold getInventoryActivityDetails.
  induction H as [|d l Hd _ IH]; simpl; [done|].
  rewrite IH.
  destruct (detail_ActivityID d) as [n|] eqn:Hn; simpl; [|done].
  case_bool_decide as Hk; simpl; [|by rewrite andb_false_r].
  injection Hk as Hk. apply toString_inj in Hk. subst n.
  rewrite (Hd eq_refl). simpl. by rewrite andb_false_r.
Qed.

(** In import-case-data.js an activity whose kind is none of "D", "W" and
    "T", or all of whose lines are "Supply" lines, still gets its operation
    group, and nothing else is written for it: no case operation, no ledger
    entry, no wine. *)
Theorem createOperationGroup_group_only (T : uuid) (ld : LegacyData)
    (cm : gmap MapKey uuid) (c : uuid) (a : Activity) (s : Store) :
  (TransactionType a <> "D" /\ TransactionType a <> "W" /\ TransactionType a <> "T")
  \/ Forall (fun d => detail_ActivityID d = Some (ActivityID a) -> ActivityType d = "Supply")
       (activityDetails ld) ->
  createOperationGroup ImportCaseData T ld cm c a s
  = (Normal (uuid_supply s),
     add_group (activity_group ImportCaseData T c a (uuid_supply s)) (minted s)).
Proof.
  intros H. unfold createOperationGroup.
  assert (Hd : forall g s', dispatch ImportCaseData T ld cm g a s' = (Normal tt, s')).
  { intros g s'. unfold dispatch.
    destruct H as [(HD & HW & HT) | Hlines].
    - apply String.eqb_neq in HD, HW, HT. by rewrite HD, HW, HT.
    - unfold createCaseOperationsFromActivityDepositOrWithdrawal,
        createCaseOperationsFromActivityTransfer.
      rewrite (no_inventory_lines ld a Hlines). simpl.
      by destruct (_ || _); [|destruct (String.eqb _ _)]. }
  unfold bind at 1. unfold uuidv4 at 1.
  unfold bind at 1. unfold modify at 1.
  unfold bind at 1. rewrite Hd. reflexivity.
Qed.

Lemma createOperationGroup_group_only_witness :
  createOperationGroup ImportCaseData tenant1 status_data
    (getCaseIdMap tenant1 example_store) 10 activity_adjustment example_store
  = (Normal 100,
     add_group (activity_group ImportCaseData tenant1 10 activity_adjustment 100)
       (minted example_store))
  /\ createOperationGroup ImportCaseData tenant1 supply_data
       (getCaseIdMap tenant1 example_store) 10 activity_status1 example_store
     = (Normal 100,
        add_group (activity_group ImportCaseData tenant1 10 activity_status1 100)
          (minted example_store)).
Proof.
  split.
  - apply (createOperationGroup_group_only tenant1 status_data
             (getCaseIdMap tenant1 example_store) 10 activity_adjustment example_store).
    left. repeat split; discriminate.
  - apply (createOperationGroup_group_only tenant1 supply_data
             (getCaseIdMap tenant1 example_store) 10 activity_status1 example_store).
    right. repeat constructor.
Defined.
(** ** Migrating one activity: dependencies and the operation group *)

Lemma Map_get_set_eq k v m : Map_get k (Map_set k v m) = Some v.
Proof.
  unfold Map_get. induction m as [|[k' v'] m IH]; simpl.
  - by rewrite bool_decide_eq_true_2.
  - case_bool_decide as Hk; simpl.
    + by rewrite bool_decide_eq_true_2.
    + by rewrite bool_decide_eq_false_2.
Qed.

Lemma Map_get_set_ne k k' v m : k <> k' -> Map_get k' (Map_set k v m) = Map_get k' m.
Proof.
  intros Hne. unfold Map_get. induction m as [|[k0 v0] m IH]; simpl.
  - by rewrite bool_decide_eq_false_2.
  - case_bool_decide as Hk; simpl.
    + subst k0. by rewrite !bool_decide_eq_false_2.
    + case_bool_decide; [done|exact IH].
Qed.

Lemma customer_fold_lookup rows k : forall m,
  Map_get (KStr k)
    (fold_left (fun m r => Map_set (col_key (row_legacy_id r)) (row_id r) m) rows m)
  = match last (rows_of_legacy k rows) with
    | Some r => Some (row_id r)
    | None => Map_get (KStr k) m
    end.
Proof.
  unfold rows_of_legacy.
  induction rows as [|r rows IH]; intros m; simpl; [done|].
  rewrite IH. case_bool_decide as Hk; simpl.
  - rewrite last_cons. destruct (last _); [done|].
    rewrite Hk. simpl. by rewrite Map_get_set_eq.
  - destruct (last _); [done|].
    rewrite Map_get_set_ne; [done|].
    destruct (row_legacy_id r); simpl; congruence.
Qed.

(** The customer map sends the text of a legacy account id to the last user
    row of the tenant that carries it. *)
Lemma getCustomerIdMap_lookup T s k :
  Map_get (KStr k) (getCustomerIdMap T s)
  = row_id <$> last (select_rows T k (user_rows s)).
Proof.
  unfold getCustomerIdMap. rewrite customer_fold_lookup.
  unfold rows_of_legacy, tenant_rows, select_rows, user_rows.
  rewrite filter_filter_andb.
  assert (E : forall l : list LegacyRow,
            List.filter (fun x => bool_decide (row_tenant_id x = T)
                                  && bool_decide (row_legacy_id x = Some k)) l
            = List.filter (fun r => bool_decide (row_legacy_id r = Some k)
                                    && bool_decide (row_tenant_id r = T)) l).
  { intros l. apply filter_ext. intros r. apply andb_comm. }
  rewrite E. by destruct (last _).
Qed.

Lemma last_is_Some {A} (l : list A) : l <> [] -> is_Some (last l).
Proof.
  induction l as [|x l IH]; [done|]. intros _. rewrite last_cons.
  destruct (last l); by eexists.
Qed.

Section Dependencies.

Context (T : uuid) (ld : LegacyData).

Lemma validate_cases_loop lines s :
  exists c,
    for_of lines
      (fun detail =>
         key <- toString_of (CaseID detail) ;;
         caseExists <- gets (fun s => select_rows T key (cases (dataSource s))) ;;
         match caseExists with
         | [] => throw Error
         | _ :: _ => ret tt
         end) s = (c, s)
    /\ (c = Normal tt <->
        Forall (fun d => exists n, CaseID d = Some n
                         /\ select_rows T (toString n) (case_rows s) <> []) lines).
Proof.
  induction lines as [|d lines IH].
  - exists (Normal tt). split; [done|]. split; [by constructor|done].
  - destruct IH as (c & Ec & Hc). rewrite for_of_cons.
    unfold toString_of, case_rows in *.
    destruct (CaseID d) as [n|] eqn:Hn.
    + run_async.
      destruct (select_rows T (toString n) (cases (dataSource s))) as [|r rows] eqn:Hsel.
      * exists (Throw Error). split; [done|]. split; [done|].
        intros [(m & Hm & Hne) _]%Forall_cons. rewrite Hn in Hm.
        injection Hm as <-. done.
      * exists c. split; [exact Ec|]. rewrite Hc. split.
        -- intros H. constructor; [|done]. exists n. split; [done|]. by rewrite Hsel.
        -- by intros [_ H]%Forall_cons.
    + run_async. exists (Throw TypeError). split; [done|]. split; [done|].
      intros [(m & Hm & _) _]%Forall_cons. congruence.
Qed.

(** [validateDependencies] reads only, and returns exactly when the
    dependencies of the activity are in the target store. *)
Lemma validateDependencies_result a s :
  exists c, validateDependencies T ld a s = (c, s)
    /\ (c = Normal tt <-> dependencies_imported T ld a s).
Proof.
  unfold validateDependencies, dependencies_imported, toString_of, user_rows.
  destruct (AccountID a) as [n|].
  - run_async.
    destruct (select_rows T (toString n) (users (dataSource s))) as [|r rows] eqn:Hsel.
    + exists (Throw Error). split; [done|]. split; [done|].
      intros [(m & Hm & Hne) _]. injection Hm as <-. done.
    + destruct (validate_cases_loop (getInventoryActivityDetails ld a) s)
        as (c & Ec & Hc).
      exists c. split; [exact Ec|]. rewrite Hc. split.
      * intros H. split; [|done]. exists n. split; [done|]. by rewrite Hsel.
      * by intros [_ H].
  - run_async. exists (Throw TypeError). split; [done|]. split; [done|].
    intros [(m & [=] & _) _].
Qed.

Lemma loadMappings_run s :
  exists s1, loadMappings T s = (Normal tt, s1)
    /\ dataSource s1 = dataSource s /\ uuid_supply s1 = uuid_supply s.
Proof. unfold loadMappings. run_async. by eexists. Qed.

End Dependencies.

(** [migrate], once its default tenant is there, does nothing without the
    dependencies.  It returns only when the activity is in the extracted
    data, its customer is a user of the tenant and the case of every line is
    a case of the tenant; when the activity is missing or a dependency is,
    it throws and leaves the store as it found it, with or without
    --clear-existing. *)
Theorem migrate_needs_dependencies (T : uuid) (ld : LegacyData) (activityId : string)
    (clearExisting : bool) (s : Store) :
  let r := migrate T ld activityId clearExisting s in
  (fst r = Normal tt ->
   exists a, findActivityById ld activityId = Some a /\ dependencies_imported T ld a s)
  /\ ((forall a, findActivityById ld activityId = Some a ->
                 ~ dependencies_imported T ld a s) ->
      snd r = s /\ exists e, fst r = Throw e).
Proof.
  intros r. subst r.
  remember (migrate T ld activityId clearExisting s) as r eqn:Er.
  unfold migrate in Er.
  destruct (findActivityById ld activityId) as [a|].
  2:{ subst r. split; [done|]. intros _. split; [done|]. by eexists. }
  destruct (validateDependencies_result T ld a s) as (c & Ec & Hc).
  unfold bind at 1 in Er. rewrite Ec in Er.
  destruct c as [[]|e].
  - split.
    + intros _. exists a. split; [done|]. by apply Hc.
    + intros Hno. exfalso. apply (Hno a eq_refl). by apply Hc.
  - subst r. simpl. split; [done|]. intros _. split; [done|]. by eexists.
Qed.

(** When the dependencies are there and no operation group is found for the
    activity, [migrate] adds exactly one operation group, whether or not the
    reconciliation of the lines that follows completes: the group of the
    tenant, with the mapped status of the activity, owned by the customer
    whose user row carries the legacy account id of the activity (the last
    such row, as the customer map is loaded). *)
Theorem migrate_one_group (T : uuid) (ld : LegacyData) (activityId : string)
    (clearExisting : bool) (a : Activity) (s : Store) :
  findActivityById ld activityId = Some a ->
  dependencies_imported T ld a s ->
  select_activity_groups T activityId s = [] ->
  exists n customer,
    AccountID a = Some n
    /\ last (select_rows T (toString n) (user_rows s)) = Some customer
    /\ groups (snd (migrate T ld activityId clearExisting s))
       = groups s
         ++ [activity_group MigrateSpecificActivity T (row_id customer) a (uuid_supply s)].
Proof.
  intros Hfind Hdeps Hnone.
  pose proof Hdeps as [(n & Hn & Huser) _].
  destruct (last_is_Some _ Huser) as [customer Hlast].
  exists n, customer. split; [done|]. split; [done|].
  unfold migrate. rewrite Hfind.
  destruct (validateDependencies_result T ld a s) as (c & Ec & Hc).
  apply Hc in Hdeps. subst c.
  unfold bind at 1. rewrite Ec.
  assert (Hclear : (if clearExisting then clearExistingActivityData T activityId
                    else ret tt) s = (Normal tt, s)).
  { destruct clearExisting; [|done].
    unfold clearExistingActivityData. run_async. by rewrite Hnone. }
  unfold bind at 1. rewrite Hclear.
  unfold bind at 1, gets at 1, findExistingOperationGroup. rewrite Hnone. simpl.
  unfold bind at 1, gets at 1. unfold bind at 1, gets at 1.
  destruct (loadMappings_run T s) as (s1 & El & Ed & Es).
  unfold bind at 1. rewrite El.
  unfold migrateActivity. rewrite Hn. unfold toString_of. unfold bind at 1, ret at 1.
  rewrite getCustomerIdMap_lookup, Hlast. simpl.
  pose proof (createOperationGroup_groups MigrateSpecificActivity T ld
                (getCaseIdMap T s) (row_id customer) a s1) as Hg.
  unfold bind at 1.
  destruct (createOperationGroup MigrateSpecificActivity T ld (getCaseIdMap T s)
              (row_id customer) a s1) as [[g|e] s2]; simpl in Hg.
  - pose proof (dispatch_same_groups MigrateSpecificActivity T ld (getCaseIdMap T s)
                  g a s2) as Hd.
    unfold same in Hd. rewrite Hd, Hg. unfold groups, activity_group. by rewrite Ed, Es.
  - simpl. rewrite Hg. unfold groups, activity_group. by rewrite Ed, Es.
Qed.

Lemma migrate_one_group_witness :
  exists customer,
    last (select_rows tenant1 (toString 900) (user_rows example_store)) = Some customer
    /\ groups (snd (migrate tenant1 status_data "501" false example_store))
       = groups example_store
         ++ [activity_group MigrateSpecificActivity tenant1 (row_id customer)
               activity_status1 100].
Proof.
  destruct (migrate_one_group tenant1 status_data "501" false activity_status1
              example_store) as (n & customer & Hn & Hlast & Hg).
  - reflexivity.
  - split.
    + exists 900%Z. split; [reflexivity|]. vm_compute. discriminate.
    + repeat constructor; eexists; (split; [reflexivity|]); vm_compute; discriminate.
  - reflexivity.
  - injection Hn as <-. exists customer. split; [exact Hlast | exact Hg].
Defined.

Lemma migrate_needs_dependencies_witness :
  snd (migrate tenant1 status_data "999" true example_store) = example_store
  /\ exists e, fst (migrate tenant1 status_data "999" true example_store) = Throw e.
Proof.
  apply (migrate_needs_dependencies tenant1 status_data "999" true example_store).
  intros a Ha. vm_compute in Ha. discriminate Ha.
Defined.
(** ** The check before a migration: what it finds and what it clears *)

Lemma pretty_N_char_no_dquote x : Ascii.eqb (pretty_N_char x) "034"%char = false.
Proof. unfold pretty_N_char. by repeat case_match. Qed.

Lemma pretty_N_go_no_dquote x : forall s,
  no_dquote s = true -> no_dquote (pretty_N_go x s) = true.
Proof.
  induction (N.lt_wf_0 x) as [x _ IH]; intros s Hs.
  assert (x = 0 \/ 0 < x)%N as [->|?] by lia.
  - by rewrite pretty_N_go_0.
  - rewrite pretty_N_go_step by done. apply IH; [by apply N.div_lt|].
    simpl. by rewrite pretty_N_char_no_dquote.
Qed.

Lemma toString_no_dquote n : no_dquote (toString n) = true.
Proof.
  unfold toString, pretty, pretty_Z.
  destruct n as [|p|p]; [done| |].
  - unfold pretty, pretty_positive, pretty, pretty_N.
    case_decide; [done|]. by apply pretty_N_go_no_dquote.
  - change ("-" +:+ pretty p) with (String "-" (pretty p)).
    simpl. unfold pretty, pretty_positive, pretty, pretty_N.
    case_decide; [done|]. by apply pretty_N_go_no_dquote.
Qed.

Lemma no_dquote_app t1 t2 :
  no_dquote (t1 +:+ t2) = no_dquote t1 && no_dquote t2.
Proof. induction t1 as [|c t1 IH]; simpl; [done|]. by rewrite IH, andb_assoc. Qed.

Lemma like_percent p t :
  like (String "%" p) t
  = like p t || match t with
                | EmptyString => false
                | String _ t' => like (String "%" p) t'
                end.
Proof. by destruct t. Qed.

Lemma like_cons c p d t :
  Ascii.eqb c "%" = false ->
  like (String c p) (String d t) = (Ascii.eqb c "_" || Ascii.eqb c d) && like p t.
Proof. intros H. cbn [like]. by rewrite H. Qed.

Lemma like_quote_first p t :
  no_dquote t = true -> like (String "034" p) t = false.
Proof.
  destruct t as [|d t]; [done|]. cbn [no_dquote].
  intros [Hd _]%andb_true_iff. apply negb_true_iff in Hd.
  rewrite like_cons by reflexivity.
  rewrite (Ascii.eqb_sym "034"%char d), Hd. reflexivity.
Qed.

Lemma like_skip_no_dquote p t :
  no_dquote t = true -> like (String "%" (String "034" p)) t = false.
Proof.
  induction t as [|d t IH]; intros Ht; rewrite like_percent.
  - by rewrite like_quote_first.
  - rewrite like_quote_first by done. simpl in Ht.
    apply andb_true_iff in Ht as [_ Ht]. by apply IH.
Qed.

Lemma like_skip_char p d t :
  Ascii.eqb d "034" = false ->
  like (String "%" (String "034" p)) (String d t)
  = like (String "%" (String "034" p)) t.
Proof.
  intros Hd. rewrite like_percent.
  rewrite like_cons by reflexivity.
  rewrite (Ascii.eqb_sym "034"%char d), Hd. reflexivity.
Qed.

(** A text in which the activity id follows the colon without a quote is
    not matched, whatever the id searched for. *)
Lemma stamp_not_like activityId num :
  no_dquote num = true ->
  like (legacy_activity_pattern activityId)
    ("[{" +:+ dquote +:+ "legacy_activity_id" +:+ dquote +:+ ":" +:+ num +:+ "}]") = false.
Proof.
  intros Hnum.
  assert (Hrest : no_dquote (num +:+ "}]") = true).
  { by rewrite no_dquote_app, Hnum. }
  unfold legacy_activity_pattern.
  set (tail := activityId +:+ _). set (rest := num +:+ _) in *.
  unfold dquote. cbv [String.append].
  rewrite !like_skip_char by reflexivity.
  rewrite like_percent.
  rewrite !like_skip_char by reflexivity.
  rewrite (like_percent _ (String "034" _)).
  rewrite !like_skip_char by reflexivity.
  rewrite (like_skip_no_dquote _ rest Hrest).
  rewrite !like_cons by reflexivity.
  rewrite (like_quote_first _ rest Hrest).
  reflexivity.
Qed.

Lemma written_logs_not_like activityId co :
  written_logs co -> like (legacy_activity_pattern activityId) (co_logs co) = false.
Proof.
  intros [-> | [n ->]]; [|apply stamp_not_like, toString_no_dquote].
  unfold legacy_activity_pattern, dquote.
  set (tail := activityId +:+ _). cbv [String.append].
  rewrite !like_skip_char by reflexivity.
  by rewrite (like_skip_no_dquote _ EmptyString).
Qed.

Lemma flat_map_nil {A B} (f : A -> list B) (l : list A) :
  (forall x, In x l -> f x = []) -> flat_map f l = [].
Proof.
  induction l as [|x l IH]; simpl; [done|]. intros H.
  rewrite (H x) by (by left). apply IH. intros y Hy. apply H. by right.
Qed.

Lemma select_written_nil T activityId s :
  Forall written_logs (operations s) -> select_activity_groups T activityId s = [].
Proof.
  intros Hlogs. unfold select_activity_groups. apply flat_map_nil. intros og _.
  fold (operations s). induction Hlogs as [|co l Hco _ IH]; [done|].
  cbn [List.filter]. rewrite (written_logs_not_like activityId co Hco), andb_false_r.
  exact IH.
Qed.

Lemma bind_cong {A B} (m : Async A) (k1 k2 : A -> Async B) s :
  (forall a s', m s = (Normal a, s') -> k1 a s' = k2 a s') ->
  bind m k1 s = bind m k2 s.
Proof. intros H. unfold bind. destruct (m s) as [[a|e] s']; [by apply H | done]. Qed.

Lemma logs_of_written sc a row : co_logs row = logs_of sc a -> written_logs row.
Proof.
  intros H. unfold written_logs. rewrite H. destruct sc; [by left|].
  right. by exists (ActivityID a).
Qed.

Lemma insert_case_operation_logs row :
  written_logs row ->
  preserves (only_adds operations written_logs) (insert_case_operation row).
Proof.
  intros Hrow s co. unfold insert_case_operation, modify, operations. simpl.
  intros [Hin|[<-|[]]]%in_app_or; [by left | by right].
Qed.

#[global] Hint Extern 1
  (preserves (only_adds operations written_logs) (insert_case_operation _)) =>
  (apply insert_case_operation_logs; eapply logs_of_written; reflexivity) : preserves.

Lemma migrate_logs T ld activityId :
  preserves (only_adds operations written_logs) (migrate T ld activityId false).
Proof.
  unfold migrate, validateDependencies, loadMappings, migrateActivity.
  preserves_auto.
Qed.

Lemma seedOperationGroups_logs T ld :
  preserves (only_adds operations written_logs) (seedOperationGroups T ld).
Proof. unfold seedOperationGroups, getCustomerActivities. preserves_auto. Qed.

(** The search of [findExistingOperationGroup] and
    [clearExistingActivityData] looks for the activity id between double
    quotes; migrate-specific-activity.js writes it as a number, without
    quotes, and import-case-data.js writes no id.  So in a store whose case
    operations all carry logs written by the two scripts the search finds
    nothing, whatever the id: [clearExistingActivityData] deletes nothing,
    --clear-existing changes nothing to [migrate], and the early return of
    [migrate] is never taken.  Runs of either script keep the store such. *)
Theorem written_logs_never_found (T : uuid) (ld : LegacyData) (activityId : string)
    (clearExisting : bool) (s : Store) :
  Forall written_logs (operations s) ->
  findExistingOperationGroup T activityId s = None
  /\ clearExistingActivityData T activityId s = (Normal tt, s)
  /\ migrate T ld activityId true s = migrate T ld activityId false s
  /\ Forall written_logs (operations (snd (migrate T ld activityId clearExisting s)))
  /\ Forall written_logs (operations (snd (seedOperationGroups T ld s))).
Proof.
  intros Hlogs.
  pose proof (select_written_nil T activityId s Hlogs) as Hnone.
  assert (Hclear : clearExistingActivityData T activityId s = (Normal tt, s)).
  { unfold clearExistingActivityData. run_async. by rewrite Hnone. }
  assert (Hsame : migrate T ld activityId true s = migrate T ld activityId false s).
  { unfold migrate. destruct (findActivityById ld activityId) as [a|]; [|done].
    apply bind_cong. intros [] s1 Hval.
    pose proof (validateDependencies_state T ld a s) as Hst. unfold same in Hst.
    rewrite Hval in Hst. simpl in Hst. subst s1.
    rewrite (bind_normal _ _ s tt s Hclear).
    unfold bind, ret, gets, findExistingOperationGroup. by rewrite Hnone. }
  split; [unfold findExistingOperationGroup; by rewrite Hnone|].
  split; [done|]. split; [done|].
  assert (Hkeep : forall s', only_adds operations written_logs s s' ->
            Forall written_logs (operations s')).
  { intros s' Hadds. apply Forall_forall. intros co Hco%list_elem_of_In.
    destruct (Hadds co Hco) as [Hin|Hw]; [|done].
    by apply (proj1 (Forall_forall _ _) Hlogs co), list_elem_of_In. }
  split.
  - apply Hkeep. destruct clearExisting; [rewrite Hsame|]; apply migrate_logs.
  - apply Hkeep. apply seedOperationGroups_logs.
Qed.

Lemma written_logs_never_found_witness :
  let s1 := snd (migrate tenant1 status_data "501" false example_store) in
  findExistingOperationGroup tenant1 "501" s1 = None
  /\ length (groups (snd (migrate tenant1 status_data "501" true s1))) = 2.
Proof.
  intros s1.
  assert (H0 : Forall written_logs (operations example_store)) by constructor.
  destruct (written_logs_never_found tenant1 status_data "501" false example_store H0)
    as (_ & _ & _ & H1 & _).
  destruct (written_logs_never_found tenant1 status_data "501" true s1 H1)
    as (Hnone & _ & Hsame & _).
  split; [exact Hnone|]. rewrite Hsame. reflexivity.
Defined.

(** *** Clearing the groups found for an activity *)

Section Clear.

Context (T : uuid).

Lemma clear_loop found s :
  for_of found (fun group => modify (with_dataSource (delete_group T (og_id group)))) s
  = (Normal tt, clear_groups_of T found s).
Proof.
  revert s. induction found as [|g found IH]; intros s; [done|].
  rewrite for_of_cons. unfold modify at 1. apply IH.
Qed.

Lemma elem_of_cons_bool (x g : uuid) (ids : list uuid) :
  bool_decide (x ∈ g :: ids) = bool_decide (x = g) || bool_decide (x ∈ ids).
Proof.
  destruct (decide (x = g)) as [->|Hne].
  - rewrite (bool_decide_eq_true_2 (g = g)) by done.
    rewrite bool_decide_eq_true_2; [done|]. apply elem_of_cons. by left.
  - rewrite (bool_decide_eq_false_2 (x = g)) by done. simpl.
    apply bool_decide_ext. rewrite elem_of_cons. tauto.
Qed.

Lemma clear_groups found : forall s,
  groups (clear_groups_of T found s)
  = List.filter (group_stays T (List.map og_id found)) (groups s).
Proof.
  induction found as [|g found IH]; intros s; simpl.
  - symmetry. apply filter_all. apply Forall_forall. intros og _.
    unfold group_stays.
    by rewrite (bool_decide_eq_false_2 (_ ∈ [])) by apply not_elem_of_nil.
  - rewrite IH. unfold groups at 1. simpl. fold (groups s).
    rewrite filter_filter_andb. apply filter_ext. intros og.
    unfold group_stays. rewrite elem_of_cons_bool.
    by destruct (bool_decide (og_id og = og_id g)), (bool_decide (og_id og ∈ _)),
      (bool_decide (og_tenant_id og = T)).
Qed.

Lemma clear_operations found : forall s,
  operations (clear_groups_of T found s)
  = List.filter (operation_stays T (List.map og_id found)) (operations s).
Proof.
  induction found as [|g found IH]; intros s; simpl.
  - symmetry. apply filter_all. apply Forall_forall. intros co _.
    unfold operation_stays.
    by rewrite (bool_decide_eq_false_2 (_ ∈ [])) by apply not_elem_of_nil.
  - rewrite IH. unfold operations at 1. simpl. fold (operations s).
    rewrite filter_filter_andb. apply filter_ext. intros co.
    unfold operation_stays. rewrite elem_of_cons_bool.
    by destruct (bool_decide (co_group_id co = og_id g)),
      (bool_decide (co_group_id co ∈ _)), (bool_decide (co_tenant_id co = T)).
Qed.

Lemma clear_entries found : forall s e,
  (In e (entries (clear_groups_of T found s)) -> In e (entries s))
  /\ (In e (entries s) -> wie_tenant_id e <> T \/ wie_operation_id e = None ->
      In e (entries (clear_groups_of T found s))).
Proof.
  induction found as [|g found IH]; intros s e; simpl; [done|].
  destruct (IH (with_dataSource (delete_group T (og_id g)) s) e) as [IH1 IH2].
  unfold entries at 2 in IH1. unfold entries at 1 in IH2. simpl in IH1, IH2.
  fold (entries s) in IH1, IH2. split.
  - intros Hin. apply IH1 in Hin. by apply filter_In in Hin as [? _].
  - intros Hin Hkeep. apply IH2; [|done]. apply filter_In. split; [done|].
    destruct Hkeep as [Ht | ->]; [|done].
    rewrite (bool_decide_eq_false_2 (wie_tenant_id e = T)) by done.
    by rewrite andb_false_r.
Qed.

Lemma clear_other_tables found : forall s,
  user_rows (clear_groups_of T found s) = user_rows s
  /\ case_rows (clear_groups_of T found s) = case_rows s
  /\ wine_rows (clear_groups_of T found s) = wine_rows s
  /\ format_rows (clear_groups_of T found s) = format_rows s
  /\ vintage_rows (clear_groups_of T found s) = vintage_rows s.
Proof.
  induction found as [|g found IH]; intros s; simpl; [done|].
  destruct (IH (with_dataSource (delete_group T (og_id g)) s)) as (-> & -> & -> & -> & ->).
  done.
Qed.

Lemma select_activity_groups_In activityId s og co :
  In og (groups s) -> In co (operations s) ->
  co_group_id co = og_id og -> og_tenant_id og = T ->
  like (legacy_activity_pattern activityId) (co_logs co) = true ->
  In og (select_activity_groups T activityId s).
Proof.
  intros Hog Hco Hg Ht Hlike. unfold select_activity_groups.
  apply in_flat_map. exists og. split; [done|].
  apply in_map_iff. exists co. split; [done|].
  apply filter_In. split; [done|].
  by rewrite !bool_decide_eq_true_2, Hlike.
Qed.

End Clear.

(** [clearExistingActivityData] deletes the operation groups of the tenant
    that the search finds for the activity and the case operations of the
    tenant under them, and nothing else of these two tables; of the ledger
    it deletes entries only, and none of another tenant and no snapshot
    entry; it leaves the users, cases, wines, bottle formats and vintages as
    they were.  Afterwards the search finds no operation group for the
    activity. *)
Theorem clearExistingActivityData_clears (T : uuid) (activityId : string) (s : Store) :
  let found := found_groups T activityId s in
  let r := clearExistingActivityData T activityId s in
  fst r = Normal tt
  /\ groups (snd r) = List.filter (group_stays T found) (groups s)
  /\ operations (snd r) = List.filter (operation_stays T found) (operations s)
  /\ (forall e, In e (entries (snd r)) -> In e (entries s))
  /\ (forall e, In e (entries s) ->
                wie_tenant_id e <> T \/ wie_operation_id e = None ->
                In e (entries (snd r)))
  /\ (user_rows (snd r) = user_rows s /\ case_rows (snd r) = case_rows s
      /\ wine_rows (snd r) = wine_rows s /\ format_rows (snd r) = format_rows s
      /\ vintage_rows (snd r) = vintage_rows s)
  /\ findExistingOperationGroup T activityId (snd r) = None.
Proof.
  intros found r. subst r found. unfold clearExistingActivityData, found_groups.
  unfold bind, gets. rewrite clear_loop. simpl.
  set (sel := select_activity_groups T activityId s).
  split; [done|]. split; [apply clear_groups|]. split; [apply clear_operations|].
  split; [intros e; apply (clear_entries T sel s e)|].
  split; [intros e; apply (clear_entries T sel s e)|].
  split; [apply clear_other_tables|].
  unfold findExistingOperationGroup.
  replace (select_activity_groups T activityId (clear_groups_of T sel s))
    with (@nil OperationGroupRow); [done|].
  symmetry. unfold select_activity_groups at 1. apply flat_map_nil.
  intros og Hog. fold (groups (clear_groups_of T sel s)) in Hog.
  rewrite clear_groups in Hog. apply filter_In in Hog as [Hog Hstay].
  fold (operations (clear_groups_of T sel s)). rewrite clear_operations.
  destruct (List.filter _ (List.filter _ (operations s))) as [|co l] eqn:Hf; [done|].
  exfalso.
  assert (Hco : In co (co :: l)) by (by left). rewrite <- Hf in Hco.
  apply filter_In in Hco as [Hco Hcond]. apply filter_In in Hco as [Hco _].
  rewrite !andb_true_iff, !bool_decide_eq_true in Hcond.
  destruct Hcond as [[Hg Ht] Hlike].
  pose proof (select_activity_groups_In T activityId s og co Hog Hco Hg Ht Hlike) as Hin.
  unfold group_stays in Hstay.
  rewrite (bool_decide_eq_true_2 (og_tenant_id og = T)) in Hstay by done.
  rewrite bool_decide_eq_true_2 in Hstay; [done|].
  apply list_elem_of_fmap. exists og. split; [done|]. by apply list_elem_of_In.
Qed.

Lemma clearExistingActivityData_clears_witness :
  let e := {| wie_id := 90; wie_tenant_id := tenant1; wie_operation_id := None;
              wie_wine_id := 30; wie_bottle_format_id := 40;
              wie_bottle_vintage_id := 50; wie_amount := 4%Z;
              wie_case_id := Some 20 |} in
  In e (entries (snd (clearExistingActivityData tenant1 "501"
                        (add_entry e example_store)))).
Proof.
  intros e.
  apply (proj1 (proj2 (proj2 (proj2 (proj2
           (clearExistingActivityData_clears tenant1 "501"
              (add_entry e example_store))))))).
  - left. reflexivity.
  - right. reflexivity.
Defined.
(** ** Command lines *)

Lemma split_head sep s : exists piece pieces, split sep s = piece :: pieces.
Proof.
  induction s as [|c s (piece & pieces & IH)]; simpl; [by eexists _, _|].
  destruct (Ascii.eqb c sep); [by eexists _, _|]. rewrite IH. by eexists _, _.
Qed.

Lemma split_app_sep sep a b :
  (forall c, In c (list_ascii_of_string a) -> c <> sep) ->
  split sep (a +:+ String sep b) = a :: split sep b.
Proof.
  induction a as [|c a IH]; intros Ha; simpl.
  - by rewrite Ascii.eqb_refl.
  - rewrite (proj2 (Ascii.eqb_neq c sep)) by (apply Ha; by left).
    rewrite IH; [done|]. intros c' Hc'. apply Ha. by right.
Qed.

Lemma split_no_sep sep a :
  (forall c, In c (list_ascii_of_string a) -> c <> sep) -> split sep a = [a].
Proof.
  induction a as [|c a IH]; intros Ha; simpl; [done|].
  rewrite (proj2 (Ascii.eqb_neq c sep)) by (apply Ha; by left).
  rewrite IH; [done|]. intros c' Hc'. apply Ha. by right.
Qed.

Lemma prefix_app a b : String.prefix a (a +:+ b) = true.
Proof.
  induction a as [|c a IH]; simpl; [by destruct b|].
  destruct (ascii_dec c c); [exact IH | done].
Qed.

(** The second piece of an argument that starts with [--config=]: the text
    between its first and its second [=]. *)
Lemma config_piece path rest :
  (forall c, In c (list_ascii_of_string path) -> c <> "="%char) ->
  nth_error (split "=" ("--config=" +:+ path)) 1 = Some path
  /\ nth_error (split "=" ("--config=" +:+ path +:+ String "=" rest)) 1 = Some path.
Proof.
  intros Hpath. split.
  - change ("--config=" +:+ path) with ("--config" +:+ String "=" path).
    rewrite split_app_sep.
    + by rewrite split_no_sep.
    + intros c Hc. simpl in Hc. intros ->. repeat (destruct Hc as [Hc|Hc]; [done|]). done.
  - change ("--config=" +:+ path +:+ String "=" rest)
      with ("--config" +:+ String "=" (path +:+ String "=" rest)).
    rewrite split_app_sep.
    + by rewrite split_app_sep.
    + intros c Hc. simpl in Hc. intros ->. repeat (destruct Hc as [Hc|Hc]; [done|]). done.
Qed.

Lemma prefix_split arg :
  String.prefix "--config=" arg = true ->
  exists tail, arg = "--config=" +:+ tail.
Proof.
  intros H.
  repeat (destruct arg as [|? arg]; cbn [String.prefix] in H; [done|];
          destruct (ascii_dec _ _) as [<-|]; [|done]).
  by exists arg.
Qed.

Lemma find_none_app {A} (p : A -> bool) l1 x l2 :
  Forall (fun y => p y = false) l1 -> p x = true ->
  List.find p (l1 ++ x :: l2) = Some x.
Proof.
  induction 1 as [|y l1 Hy _ IH]; intros Hx; simpl; [by rewrite Hx|].
  rewrite Hy. by apply IH.
Qed.

Lemma split_config_is_Some arg :
  String.prefix "--config=" arg = true -> is_Some (nth_error (split "=" arg) 1).
Proof.
  intros [tail ->]%prefix_split.
  change ("--config=" +:+ tail) with ("--config" +:+ String "=" tail).
  rewrite split_app_sep.
  - destruct (split_head "=" tail) as (piece & pieces & ->). by eexists.
  - intros c Hc. simpl in Hc. intros ->. repeat (destruct Hc as [Hc|Hc]; [done|]). done.
Qed.

Lemma parseConfigPath_plain (before after : list string) (path defaultPath : string) :
  Forall (fun arg => String.prefix "--config=" arg = false) before ->
  (forall c, In c (list_ascii_of_string path) -> c <> "="%char) ->
  parseConfigPath (before ++ ("--config=" +:+ path) :: after) defaultPath = Some path.
Proof.
  intros Hbefore Hpath. unfold parseConfigPath.
  rewrite (find_none_app _ before _ after Hbefore (prefix_app _ _)).
  change (String.eqb ("--config=" +:+ path) "") with false. cbv iota.
  apply (config_piece path ""), Hpath.
Qed.

(** [parseConfigPath] never returns undefined.  It returns the default
    path exactly when no argument starts with [--config=]; otherwise the
    first such argument decides: a path without [=] is returned as it is
    (also the empty path of a bare [--config=]), and a path with an [=] is
    cut at its first [=]. *)
Theorem parseConfigPath_result (argv : list string) (defaultPath : string) :
  is_Some (parseConfigPath argv defaultPath)
  /\ (Forall (fun arg => String.prefix "--config=" arg = false) argv ->
      parseConfigPath argv defaultPath = Some defaultPath)
  /\ (forall before path after,
        argv = before ++ ("--config=" +:+ path) :: after ->
        Forall (fun arg => String.prefix "--config=" arg = false) before ->
        (forall c, In c (list_ascii_of_string path) -> c <> "="%char) ->
        parseConfigPath argv defaultPath = Some path)
  /\ (forall before path rest after,
        argv = before ++ ("--config=" +:+ path +:+ String "=" rest) :: after ->
        Forall (fun arg => String.prefix "--config=" arg = false) before ->
        (forall c, In c (list_ascii_of_string path) -> c <> "="%char) ->
        parseConfigPath argv defaultPath = Some path).
Proof.
  unfold parseConfigPath. split; [|split; [|split]].
  - destruct (List.find _ argv) as [arg|] eqn:Hfind; [|by eexists].
    apply find_some in Hfind as [_ Hp].
    destruct (String.eqb arg ""); [by eexists|]. by apply split_config_is_Some.
  - intros Hnone. destruct (List.find _ argv) as [arg|] eqn:Hfind; [|done].
    apply find_some in Hfind as [Hin Hp].
    pose proof (proj1 (Forall_forall _ _) Hnone arg ltac:(by apply list_elem_of_In)).
    congruence.
  - intros before path after -> Hbefore Hpath.
    fold (parseConfigPath (before ++ ("--config=" +:+ path) :: after) defaultPath).
    by apply parseConfigPath_plain.
  - intros before path rest after -> Hbefore Hpath.
    rewrite (find_none_app _ before _ after Hbefore (prefix_app _ _)).
    change (String.eqb ("--config=" +:+ path +:+ String "=" rest) "") with false.
    cbv iota. apply (config_piece path rest), Hpath.
Qed.

Lemma parseConfigPath_result_witness :
  parseConfigPath ["node"; "import-case-data.js"; "--clear-existing"] default_config_path
  = Some default_config_path
  /\ parseConfigPath ["node"; "import-case-data.js"; "--config=db.json"; "--config=x"]
       default_config_path = Some "db.json"
  /\ parseConfigPath ["node"; "import-case-data.js"; "--config=a=b"] default_config_path
     = Some "a".
Proof.
  split; [|split].
  - apply (parseConfigPath_result
             ["node"; "import-case-data.js"; "--clear-existing"] default_config_path).
    repeat constructor.
  - apply (proj1 (proj2 (proj2 (parseConfigPath_result
             ["node"; "import-case-data.js"; "--config=db.json"; "--config=x"]
             default_config_path)))
           ["node"; "import-case-data.js"] "db.json" ["--config=x"]).
    + reflexivity.
    + repeat constructor.
    + intros c Hc. simpl in Hc. intros ->.
      repeat (destruct Hc as [Hc|Hc]; [discriminate Hc|]). done.
  - apply (proj2 (proj2 (proj2 (parseConfigPath_result
             ["node"; "import-case-data.js"; "--config=a=b"] default_config_path)))
           ["node"; "import-case-data.js"] "a" "b" []).
    + reflexivity.
    + repeat constructor.
    + intros c Hc. simpl in Hc. intros ->.
      repeat (destruct Hc as [Hc|Hc]; [discriminate Hc|]). done.
Defined.

Lemma existsb_eqb_In (x : string) (l : list string) :
  existsb (String.eqb x) l = true <-> In x l.
Proof.
  rewrite existsb_exists. split.
  - intros (y & Hy & ->%String.eqb_eq). done.
  - intros H. exists x. split; [done|]. apply String.eqb_refl.
Qed.

Lemma import_parse_fold args : forall options,
  ImportCaseDataCli.clearExisting (fold_left ImportCaseDataCli.parse_arg args options)
  = ImportCaseDataCli.clearExisting options || existsb (String.eqb "--clear-existing") args
  /\ ImportCaseDataCli.help (fold_left ImportCaseDataCli.parse_arg args options)
     = ImportCaseDataCli.help options
       || existsb (String.eqb "--help") args || existsb (String.eqb "-h") args.
Proof.
  induction args as [|arg args IH]; intros options; cbn [fold_left existsb].
  - by rewrite !orb_false_r.
  - destruct (IH (ImportCaseDataCli.parse_arg options arg)) as [-> ->].
    unfold ImportCaseDataCli.parse_arg.
    rewrite (String.eqb_sym "--clear-existing" arg), (String.eqb_sym "--help" arg),
      (String.eqb_sym "-h" arg).
    destruct (String.eqb arg "--clear-existing") eqn:E1.
    { apply String.eqb_eq in E1 as ->. simpl. split; [by rewrite orb_true_r|done]. }
    destruct (String.eqb arg "--help") eqn:E2.
    { apply String.eqb_eq in E2 as ->. simpl.
      split; [done|]. by rewrite !orb_true_r. }
    destruct (String.eqb arg "-h") eqn:E3; simpl; [|done].
    split; [done|]. by rewrite !orb_true_r.
Qed.

(** import-case-data.js reads its command line thus: the arguments after
    the first two set [clearExisting] exactly when [--clear-existing] is
    among them and [help] exactly when [--help] or [-h] is; order and
    repetition do not matter and every other argument, [--config=...]
    included, changes nothing.  [bootstrap] shows the help when asked, and
    otherwise runs the seeding with that flag. *)
Theorem import_case_data_arguments (argv : list string) :
  let options := ImportCaseDataCli.parseArguments argv in
  (ImportCaseDataCli.clearExisting options = true <-> In "--clear-existing" (drop 2 argv))
  /\ (ImportCaseDataCli.help options = true
      <-> In "--help" (drop 2 argv) \/ In "-h" (drop 2 argv))
  /\ (ImportCaseDataCli.bootstrap argv = ImportCaseDataCli.ShowHelp
      <-> In "--help" (drop 2 argv) \/ In "-h" (drop 2 argv))
  /\ (forall c p,
        ImportCaseDataCli.bootstrap argv = ImportCaseDataCli.Seed c p ->
        (c = true <-> In "--clear-existing" (drop 2 argv))
        /\ p = parseConfigPath argv default_config_path).
Proof.
  intros options.
  assert (Hc : ImportCaseDataCli.clearExisting options = true
               <-> In "--clear-existing" (drop 2 argv)).
  { subst options. unfold ImportCaseDataCli.parseArguments.
    destruct (import_parse_fold (drop 2 argv)
                {| ImportCaseDataCli.clearExisting := false;
                   ImportCaseDataCli.help := false |}) as (-> & _).
    cbn [ImportCaseDataCli.clearExisting orb]. apply existsb_eqb_In. }
  assert (Hh : ImportCaseDataCli.help options = true
               <-> In "--help" (drop 2 argv) \/ In "-h" (drop 2 argv)).
  { subst options. unfold ImportCaseDataCli.parseArguments.
    destruct (import_parse_fold (drop 2 argv)
                {| ImportCaseDataCli.clearExisting := false;
                   ImportCaseDataCli.help := false |}) as (_ & ->).
    cbn [ImportCaseDataCli.help orb]. by rewrite orb_true_iff, !existsb_eqb_In. }
  split; [exact Hc|]. split; [exact Hh|].
  unfold ImportCaseDataCli.bootstrap. fold options.
  destruct (ImportCaseDataCli.help options).
  - split; [split; [intros _; by apply Hh | done] | done].
  - split.
    + split; [done|]. intros H. apply Hh in H. done.
    + intros c p [= <- <-]. done.
Qed.

Lemma import_case_data_arguments_witness :
  ImportCaseDataCli.clearExisting
    (ImportCaseDataCli.parseArguments
       ["node"; "import-case-data.js"; "--config=db.json"; "--clear-existing"]) = true
  /\ ImportCaseDataCli.bootstrap
       ["node"; "import-case-data.js"; "--clear-existing"; "-h"]
     = ImportCaseDataCli.ShowHelp.
Proof.
  split.
  - apply (proj1 (import_case_data_arguments
             ["node"; "import-case-data.js"; "--config=db.json"; "--clear-existing"])).
    right. left. reflexivity.
  - apply (proj1 (proj2 (proj2 (import_case_data_arguments
             ["node"; "import-case-data.js"; "--clear-existing"; "-h"])))).
    right. right. left. reflexivity.
Defined.

Section MigrateArguments.

Import MigrateSpecificActivityCli.

Lemma parse_from_flags args : forall options,
  ~ In "--activity-id" args ->
  parse_from args options
  = {| activityId := activityId options;
       clearExisting := clearExisting options
                        || existsb (String.eqb "--clear-existing") args;
       help := help options || existsb (String.eqb "--help") args
               || existsb (String.eqb "-h") args |}.
Proof.
  induction args as [|arg args IH]; intros options Hno.
  - simpl. rewrite !orb_false_r. by destruct options.
  - assert (Harg : String.eqb arg "--activity-id" = false).
    { apply String.eqb_neq. intros ->. apply Hno. by left. }
    assert (Hrest : ~ In "--activity-id" args) by (intros H; apply Hno; by right).
    cbn [parse_from]. rewrite Harg.
    cbn [existsb].
    rewrite (String.eqb_sym "--clear-existing" arg), (String.eqb_sym "--help" arg),
      (String.eqb_sym "-h" arg).
    destruct (String.eqb arg "--clear-existing") eqn:E1.
    { rewrite (IH _ Hrest). simpl. apply String.eqb_eq in E1 as ->. simpl.
      by rewrite orb_true_r. }
    destruct (String.eqb arg "--help") eqn:E2.
    { rewrite (IH _ Hrest). simpl. by rewrite !orb_true_r. }
    destruct (String.eqb arg "-h") eqn:E3.
    { rewrite (IH _ Hrest). simpl. by rewrite !orb_true_r. }
    cbn [orb]. by rewrite (IH _ Hrest).
Qed.

Lemma parse_from_app before rest : forall options,
  ~ In "--activity-id" before ->
  parse_from (before ++ rest) options = parse_from rest (parse_from before options).
Proof.
  induction before as [|arg before IH]; intros options Hno; [done|].
  assert (Harg : String.eqb arg "--activity-id" = false).
  { apply String.eqb_neq. intros ->. apply Hno. by left. }
  assert (Hrest : ~ In "--activity-id" before) by (intros H; apply Hno; by right).
  cbn [app parse_from]. rewrite Harg.
  destruct (String.eqb arg "--clear-existing"); [by apply IH|].
  destruct (String.eqb arg "--help" || String.eqb arg "-h"); by apply IH.
Qed.

End MigrateArguments.

(** migrate-specific-activity.js reads its command line thus.  The argument
    that follows [--activity-id] is the activity id, whatever it is: it is
    never read as a flag.  The flags are read from the other arguments, as
    in import-case-data.js.  Without [--activity-id] the id stays null, and
    with [--activity-id] as the last argument it is undefined: in both cases
    [bootstrap] does not migrate. *)
Theorem migrate_specific_activity_arguments (argv : list string) :
  (forall before value after,
     drop 2 argv = before ++ "--activity-id" :: value :: after ->
     ~ In "--activity-id" before -> ~ In "--activity-id" after ->
     MigrateSpecificActivityCli.parseArguments argv
     = {| MigrateSpecificActivityCli.activityId :=
            MigrateSpecificActivityCli.IdString value;
          MigrateSpecificActivityCli.clearExisting :=
            existsb (String.eqb "--clear-existing") (before ++ after);
          MigrateSpecificActivityCli.help :=
            existsb (String.eqb "--help") (before ++ after)
            || existsb (String.eqb "-h") (before ++ after) |})
  /\ (forall before,
        drop 2 argv = before ++ ["--activity-id"] -> ~ In "--activity-id" before ->
        MigrateSpecificActivityCli.activityId
          (MigrateSpecificActivityCli.parseArguments argv)
        = MigrateSpecificActivityCli.IdUndefined)
  /\ (~ In "--activity-id" (drop 2 argv) ->
      MigrateSpecificActivityCli.activityId
        (MigrateSpecificActivityCli.parseArguments argv)
      = MigrateSpecificActivityCli.IdNull)
  /\ (forall id c p,
        MigrateSpecificActivityCli.bootstrap argv = MigrateSpecificActivityCli.Migrate id c p ->
        MigrateSpecificActivityCli.activityId
          (MigrateSpecificActivityCli.parseArguments argv)
        = MigrateSpecificActivityCli.IdString id
        /\ id <> ""
        /\ MigrateSpecificActivityCli.help
             (MigrateSpecificActivityCli.parseArguments argv) = false).
Proof.
  unfold MigrateSpecificActivityCli.parseArguments.
  split; [|split; [|split]].
  - intros before value after -> Hb Ha.
    rewrite (parse_from_app before _ _ Hb), (parse_from_flags before _ Hb).
    cbn [MigrateSpecificActivityCli.parse_from]. rewrite String.eqb_refl.
    rewrite (parse_from_flags after _ Ha).
    cbn [MigrateSpecificActivityCli.activityId MigrateSpecificActivityCli.clearExisting
         MigrateSpecificActivityCli.help orb].
    rewrite !existsb_app. f_equal.
    destruct (existsb (String.eqb "--help") before),
      (existsb (String.eqb "-h") before),
      (existsb (String.eqb "--help") after),
      (existsb (String.eqb "-h") after); reflexivity.
  - intros before -> Hb.
    rewrite (parse_from_app before _ _ Hb). cbn [MigrateSpecificActivityCli.parse_from].
    by rewrite String.eqb_refl.
  - intros Hno. by rewrite (parse_from_flags _ _ Hno).
  - intros id c p. unfold MigrateSpecificActivityCli.bootstrap,
      MigrateSpecificActivityCli.parseArguments.
    destruct (MigrateSpecificActivityCli.help _); [done|].
    destruct (MigrateSpecificActivityCli.activityId _) as [| |s]; [done..|].
    destruct (String.eqb s "") eqn:Hs; [done|].
    intros [= -> _ _]. split; [done|]. split; [|done].
    by apply String.eqb_neq.
Qed.

Lemma migrate_specific_activity_arguments_witness :
  MigrateSpecificActivityCli.parseArguments
    ["node"; "migrate-specific-activity.js"; "--activity-id"; "--clear-existing"]
  = {| MigrateSpecificActivityCli.activityId :=
         MigrateSpecificActivityCli.IdString "--clear-existing";
       MigrateSpecificActivityCli.clearExisting := false;
       MigrateSpecificActivityCli.help := false |}.
Proof.
  apply (proj1 (migrate_specific_activity_arguments
           ["node"; "migrate-specific-activity.js"; "--activity-id"; "--clear-existing"])
         [] "--clear-existing" []).
  - reflexivity.
  - simpl. tauto.
  - simpl. tauto.
Defined.

Lemma split_pieces sep s :
  Forall (fun piece => forall c, In c (list_ascii_of_string piece) -> c <> sep)
    (split sep s).
Proof.
  induction s as [|c s IH]; simpl.
  - repeat constructor. simpl. tauto.
  - destruct (Ascii.eqb c sep) eqn:Hc.
    + constructor; [simpl; tauto | exact IH].
    + destruct (split sep s) as [|piece pieces]; [repeat constructor; simpl|].
      * intros c' [<-|[]]. by apply Ascii.eqb_neq.
      * apply Forall_cons in IH as [Hp Hps]. constructor; [|done].
        simpl. intros c' [<-|Hc']; [by apply Ascii.eqb_neq | by apply Hp].
Qed.

Lemma full_parse_fold args : forall options,
  FullMigrationCli.clearExisting options = true ->
  FullMigrationCli.clearExisting (fold_left FullMigrationCli.parse_arg args options) = true.
Proof.
  induction args as [|arg args IH]; intros options H; cbn [fold_left]; [done|].
  apply IH. unfold FullMigrationCli.parse_arg.
  destruct (String.eqb arg "--extract-data"); [exact H|].
  destruct (String.eqb arg "--no-delete-data"); [exact H|].
  destruct (String.eqb arg "--clear-existing"); [reflexivity|].
  destruct (String.eqb arg "--help" || String.eqb arg "-h"); [exact H|].
  destruct (String.prefix "--config=" arg); exact H.
Qed.

Lemma full_parse_config args : forall options,
  (forall p, FullMigrationCli.config options = Some p ->
             forall c, In c (list_ascii_of_string p) -> c <> "="%char) ->
  forall p, FullMigrationCli.config (fold_left FullMigrationCli.parse_arg args options)
            = Some p ->
            forall c, In c (list_ascii_of_string p) -> c <> "="%char.
Proof.
  induction args as [|arg args IH]; intros options H; cbn [fold_left]; [done|].
  apply IH. unfold FullMigrationCli.parse_arg.
  destruct (String.eqb arg "--extract-data"); [exact H|].
  destruct (String.eqb arg "--no-delete-data"); [exact H|].
  destruct (String.eqb arg "--clear-existing"); [exact H|].
  destruct (String.eqb arg "--help" || String.eqb arg "-h"); [exact H|].
  destruct (String.prefix "--config=" arg); [|exact H].
  cbn [FullMigrationCli.config]. intros p Hp.
  pose proof (split_pieces "=" arg) as Hall.
  apply nth_error_In in Hp.
  by apply (proj1 (Forall_forall _ _) Hall p), list_elem_of_In.
Qed.

(** full-migration.js runs import-case-data.js with [caseArgs].  Its own
    [clearExisting] option starts true and no argument sets it to false, so
    the case import is always run with [--clear-existing] and never with
    [--help]; and the configuration path it was given, when not empty,
    reaches [parseConfigPath] of the case import unchanged (the default path
    is used otherwise). *)
Theorem full_migration_case_import (argv : list string) (node script : string) :
  String.prefix "--config=" node = false ->
  String.prefix "--config=" script = false ->
  let options := FullMigrationCli.parseArguments argv in
  let child := node :: script :: FullMigrationCli.caseArgs options in
  FullMigrationCli.clearExisting options = true
  /\ ImportCaseDataCli.parseArguments child
     = {| ImportCaseDataCli.clearExisting := true; ImportCaseDataCli.help := false |}
  /\ parseConfigPath child default_config_path
     = Some match FullMigrationCli.config options with
            | Some path => if String.eqb path "" then default_config_path else path
            | None => default_config_path
            end.
Proof.
  intros Hnode Hscript options child. subst child.
  assert (Hclear : FullMigrationCli.clearExisting options = true).
  { apply full_parse_fold. done. }
  assert (Hconfig : forall p, FullMigrationCli.config options = Some p ->
            forall c, In c (list_ascii_of_string p) -> c <> "="%char).
  { apply full_parse_config. done. }
  split; [done|].
  unfold FullMigrationCli.caseArgs. rewrite Hclear.
  destruct (FullMigrationCli.config options) as [path|] eqn:Hpath.
  2:{ split; [done|]. unfold parseConfigPath. simpl. by rewrite Hnode, Hscript. }
  destruct (String.eqb path "") eqn:Hempty.
  { split; [done|]. unfold parseConfigPath. simpl. by rewrite Hnode, Hscript. }
  split.
  - unfold ImportCaseDataCli.parseArguments. simpl.
    unfold ImportCaseDataCli.parse_arg at 1. simpl.
    unfold ImportCaseDataCli.parse_arg. simpl. done.
  - apply (parseConfigPath_plain [node; script; "--clear-existing"] [] path).
    + repeat constructor; done.
    + by apply Hconfig.
Qed.

Lemma full_migration_case_import_witness :
  FullMigrationCli.caseArgs
    (FullMigrationCli.parseArguments ["node"; "full-migration.js"; "--config=db.json"])
  = ["--clear-existing"; "--config=db.json"]
  /\ parseConfigPath
       ("/usr/bin/node" :: "/app/scripts/import-case-data.js"
        :: FullMigrationCli.caseArgs
             (FullMigrationCli.parseArguments
                ["node"; "full-migration.js"; "--config=db.json"]))
       default_config_path
     = Some "db.json".
Proof.
  split; [reflexivity|].
  apply (full_migration_case_import ["node"; "full-migration.js"; "--config=db.json"]
           "/usr/bin/node" "/app/scripts/import-case-data.js");
    reflexivity.
Defined.
(** ** The seeding run: the default tenant, clearing, and the cases *)

Ltac run_seeder :=
  unfold run_bind, run_ret, run_gets, run_modify, lift, run_toString_of, uuidv4,
    toString_of, ret, throw in *;
  simpl in *.

Lemma createDefaultTenant_run tenantName documentNumber sd :
  createDefaultTenant tenantName documentNumber sd
  = match select_tenants tenantName sd with
    | [] =>
        (Normal (uuid_supply (store sd)),
         add_tenant {| tenant_id := uuid_supply (store sd); tenant_name := tenantName;
                       tenant_document_number := documentNumber |} sd)
    | t :: _ => (Normal (tenant_id t), sd)
    end.
Proof.
  unfold createDefaultTenant. run_seeder.
  by destruct (select_tenants tenantName sd).
Qed.

(** [createDefaultTenant] finds or creates.  When a tenant has the name, the
    identifier of the first one is returned and nothing is written;
    otherwise one tenant is added, with a new identifier.  Either way
    [getTenantByName] then finds that identifier, and calling
    [createDefaultTenant] again, with any document number, returns it and
    writes nothing: no second tenant of the name is created. *)
Theorem createDefaultTenant_find_or_create (tenantName documentNumber again : string)
    (sd : Seeder) :
  let r := createDefaultTenant tenantName documentNumber sd in
  exists id,
    fst r = Normal id
    /\ match select_tenants tenantName sd with
       | t :: _ => id = tenant_id t /\ snd r = sd
       | [] =>
           id = uuid_supply (store sd)
           /\ tenants (snd r)
              = tenants sd ++ [ {| tenant_id := id; tenant_name := tenantName;
                                   tenant_document_number := documentNumber |} ]
           /\ store (snd r) = minted (store sd)
       end
    /\ getTenantByName tenantName (snd r) = (Normal (Some id), snd r)
    /\ createDefaultTenant tenantName again (snd r) = (Normal id, snd r).
Proof.
  intros r. subst r. rewrite createDefaultTenant_run.
  destruct (select_tenants tenantName sd) as [|t ts] eqn:Hsel.
  - exists (uuid_supply (store sd)). simpl.
    assert (Hsel' : select_tenants tenantName
              (add_tenant {| tenant_id := uuid_supply (store sd);
                             tenant_name := tenantName;
                             tenant_document_number := documentNumber |} sd)
            = [ {| tenant_id := uuid_supply (store sd); tenant_name := tenantName;
                   tenant_document_number := documentNumber |} ]).
    { unfold select_tenants in *. simpl. rewrite List.filter_app, Hsel. simpl.
      by rewrite bool_decide_eq_true_2. }
    split; [done|]. split; [done|].
    rewrite createDefaultTenant_run. unfold getTenantByName. run_seeder.
    by rewrite Hsel'.
  - exists (tenant_id t). simpl. split; [done|]. split; [done|].
    rewrite createDefaultTenant_run. unfold getTenantByName. run_seeder.
    by rewrite Hsel.
Qed.

Lemma tenant_rows_other T (rows : list LegacyRow) :
  tenant_rows T (List.filter (other_tenant T row_tenant_id) rows) = [].
Proof.
  unfold tenant_rows, other_tenant. rewrite filter_filter_andb.
  induction rows as [|r rows IH]; simpl; [done|].
  by destruct (bool_decide (row_tenant_id r = T)).
Qed.

Lemma getCaseIdMap_cleared T s :
  getCaseIdMap T
    (with_dataSource (with_cases (List.filter (other_tenant T row_tenant_id))) s) = ∅.
Proof.
  unfold getCaseIdMap, load_id_map.
  cbn [dataSource with_dataSource with_cases cases].
  by rewrite tenant_rows_other.
Qed.

Lemma dataSource_eq (d1 d2 : DataSource) :
  users d1 = users d2 -> cases d1 = cases d2 -> wines d1 = wines d2 ->
  wine_bottle_formats d1 = wine_bottle_formats d2 ->
  wine_bottle_vintages d1 = wine_bottle_vintages d2 ->
  operations_groups d1 = operations_groups d2 ->
  cases_operations d1 = cases_operations d2 ->
  wine_inventory_entries d1 = wine_inventory_entries d2 ->
  d1 = d2.
Proof. destruct d1, d2. simpl. by intros -> -> -> -> -> -> -> ->. Qed.

Lemma store_eq (s1 s2 : Store) :
  dataSource s1 = dataSource s2 -> uuid_supply s1 = uuid_supply s2 ->
  wineMapId s1 = wineMapId s2 -> bottleFormatMapId s1 = bottleFormatMapId s2 ->
  bottleVintageMapId s1 = bottleVintageMapId s2 -> s1 = s2.
Proof. destruct s1, s2. simpl. by intros -> -> -> -> ->. Qed.

Lemma seeder_eq (sd1 sd2 : Seeder) :
  store sd1 = store sd2 -> tenants sd1 = tenants sd2 ->
  cases_columns sd1 = cases_columns sd2 ->
  operation_extras sd1 = operation_extras sd2 ->
  operations_requests sd1 = operations_requests sd2 ->
  this_caseIdMap sd1 = this_caseIdMap sd2 ->
  this_customerIdMap sd1 = this_customerIdMap sd2 -> sd1 = sd2.
Proof. destruct sd1, sd2. simpl. by intros -> -> -> -> -> -> ->. Qed.

(** The database after [clearExistingData], field by field. *)
Lemma clearExistingData_fields T sd :
  let sd' := snd (clearExistingData T sd) in
  let d := dataSource (store sd) in
  let d' := dataSource (store sd') in
  fst (clearExistingData T sd) = Normal tt
  /\ users d' = users d /\ wines d' = wines d
  /\ wine_bottle_formats d' = wine_bottle_formats d
  /\ wine_bottle_vintages d' = wine_bottle_vintages d
  /\ cases d' = List.filter (other_tenant T row_tenant_id) (cases d)
  /\ operations_groups d' = List.filter (other_tenant T og_tenant_id) (operations_groups d)
  /\ cases_operations d' = List.filter (other_tenant T co_tenant_id) (cases_operations d)
  /\ wine_inventory_entries d'
     = List.filter (other_tenant T wie_tenant_id) (wine_inventory_entries d)
  /\ uuid_supply (store sd') = uuid_supply (store sd)
  /\ wineMapId (store sd') = wineMapId (store sd)
  /\ bottleFormatMapId (store sd') = bottleFormatMapId (store sd)
  /\ bottleVintageMapId (store sd') = bottleVintageMapId (store sd)
  /\ tenants sd' = tenants sd
  /\ cases_columns sd'
     = List.filter
         (fun c => negb (bool_decide
            (cc_id c ∈ List.map row_id
               (List.filter (fun r => bool_decide (row_tenant_id r = T)) (cases d)))))
         (cases_columns sd)
  /\ operation_extras sd'
     = List.filter (other_tenant T owned_tenant_id) (operation_extras sd)
  /\ operations_requests sd'
     = List.filter (other_tenant T owned_tenant_id) (operations_requests sd)
  /\ this_caseIdMap sd' = this_caseIdMap sd
  /\ this_customerIdMap sd' = this_customerIdMap sd.
Proof. cbv zeta. repeat split; reflexivity. Qed.

(** [clearExistingData] deletes the rows of the tenant, and only those,
    from the ledger, the operation extras, the case operations, the
    operation requests, the operation groups and the cases; the rows of
    other tenants stay, in place.  It leaves the users, the wines (the
    placeholder wines of earlier runs included), the bottle formats, the
    bottle vintages and the tenants as they were.  After it no case of the
    tenant resolves, and clearing again changes nothing. *)
Theorem clearExistingData_clears (T : uuid) (sd : Seeder) :
  let r := clearExistingData T sd in
  let s' := store (snd r) in
  fst r = Normal tt
  /\ entries s' = List.filter (other_tenant T wie_tenant_id) (entries (store sd))
  /\ operations s' = List.filter (other_tenant T co_tenant_id) (operations (store sd))
  /\ groups s' = List.filter (other_tenant T og_tenant_id) (groups (store sd))
  /\ case_rows s' = List.filter (other_tenant T row_tenant_id) (case_rows (store sd))
  /\ operation_extras (snd r)
     = List.filter (other_tenant T owned_tenant_id) (operation_extras sd)
  /\ operations_requests (snd r)
     = List.filter (other_tenant T owned_tenant_id) (operations_requests sd)
  /\ (user_rows s' = user_rows (store sd) /\ wine_rows s' = wine_rows (store sd)
      /\ format_rows s' = format_rows (store sd)
      /\ vintage_rows s' = vintage_rows (store sd)
      /\ tenants (snd r) = tenants sd)
  /\ getCaseIdMap T s' = ∅
  /\ clearExistingData T (snd r) = (Normal tt, snd r).
Proof.
  intros r s'. subst s' r.
  pose proof (clearExistingData_fields T sd) as H1. cbv zeta in H1.
  destruct (clearExistingData T sd) as [c1 sd1]. cbn [fst snd] in *.
  destruct H1 as (Hn & Hu & Hw & Hf & Hv & Hc & Hg & Ho & He & Hs & Hm1 & Hm2 & Hm3
                  & Ht & Hcc & Hx & Hr & Hk1 & Hk2).
  split; [exact Hn|]. split; [exact He|]. split; [exact Ho|]. split; [exact Hg|].
  split; [exact Hc|]. split; [exact Hx|]. split; [exact Hr|].
  split; [by repeat split|].
  split.
  { unfold getCaseIdMap, load_id_map. rewrite Hc. by rewrite tenant_rows_other. }
  pose proof (clearExistingData_fields T sd1) as H2. cbv zeta in H2.
  destruct (clearExistingData T sd1) as [c2 sd2]. cbn [fst snd] in *.
  destruct H2 as (Hn2 & Hu2 & Hw2 & Hf2 & Hv2 & Hc2 & Hg2 & Ho2 & He2 & Hs2 & Hm12
                  & Hm22 & Hm32 & Ht2 & Hcc2 & Hx2 & Hr2 & Hk12 & Hk22).
  subst c2. f_equal.
  apply seeder_eq; try congruence.
  - apply store_eq; try congruence.
    apply dataSource_eq; try congruence.
    + by rewrite Hc2, Hc, filter_idem.
    + by rewrite Hg2, Hg, filter_idem.
    + by rewrite Ho2, Ho, filter_idem.
    + by rewrite He2, He, filter_idem.
  - rewrite Hcc2, Hc.
    rewrite (tenant_rows_other T (cases (dataSource (store sd)))
             : List.filter (fun r => bool_decide (row_tenant_id r = T))
                 (List.filter (other_tenant T row_tenant_id)
                    (cases (dataSource (store sd)))) = []).
    apply filter_all. apply Forall_forall. intros c _.
    rewrite bool_decide_eq_false_2; [done|]. apply not_elem_of_nil.
  - by rewrite Hx2, Hx, filter_idem.
  - by rewrite Hr2, Hr, filter_idem.
Qed.

Section SeedCases.

Context (T : uuid) (lc : Legacy.Data).

Lemma rows_of_legacy_app k (l1 l2 : list LegacyRow) :
  rows_of_legacy k (l1 ++ l2) = rows_of_legacy k l1 ++ rows_of_legacy k l2.
Proof. unfold rows_of_legacy. apply List.filter_app. Qed.

Lemma run_for_of_cons {A B} (x : A) (xs : list A) (body : B -> A -> Run B) acc sd :
  run_for_of (x :: xs) body acc sd
  = match body acc x sd with
    | (Normal a, sd1) => run_for_of xs body a sd1
    | (Throw e, sd1) => (Throw e, sd1)
    end.
Proof. cbn [run_for_of]. unfold run_bind. by destruct (body acc x sd) as [[a|e] sd1]. Qed.

Lemma rows_of_legacy_one k (row : LegacyRow) :
  rows_of_legacy k [row]
  = if bool_decide (row_legacy_id row = Some k) then [row] else [].
Proof. reflexivity. Qed.

Lemma with_store_same sd : with_store (fun _ => store sd) sd = sd.
Proof. by destruct sd. Qed.

(** One iteration of the loop of [seedCases], case by case. *)
Lemma seed_case_run c x sd :
  seed_case T lc c x sd
  = match Legacy.legacy_case_id x with
    | None => (Throw TypeError, sd)
    | Some n =>
        match select_cases_by_legacy (toString n) sd with
        | _ :: _ =>
            (Normal {| inserted := inserted c; skipped := S (skipped c);
                       noAccountFound := noAccountFound c;
                       userNotImported := userNotImported c |}, sd)
        | [] =>
            match List.find
                    (fun acc => bool_decide (Legacy.account_legacy_account_id acc
                                             = Legacy.legacy_account_id x))
                    (Legacy.accounts lc) with
            | None =>
                (Normal {| inserted := inserted c; skipped := skipped c;
                           noAccountFound := S (noAccountFound c);
                           userNotImported := userNotImported c |}, sd)
            | Some _ =>
                match Legacy.legacy_account_id x with
                | None => (Throw TypeError, sd)
                | Some a =>
                    match select_users_by_legacy (toString a) sd with
                    | [] =>
                        (Normal {| inserted := inserted c; skipped := skipped c;
                                   noAccountFound := noAccountFound c;
                                   userNotImported := S (userNotImported c) |}, sd)
                    | user :: _ =>
                        (Normal {| inserted := S (inserted c); skipped := skipped c;
                                   noAccountFound := noAccountFound c;
                                   userNotImported := userNotImported c |},
                         remember_case (toString n) (uuid_supply (store sd)) (toString a)
                           (row_id user)
                           (insert_case T lc (uuid_supply (store sd)) (row_id user)
                              (toString n) x
                              (with_store (fun _ => minted (store sd)) sd)))
                    end
                end
            end
        end
    end.
Proof.
  unfold seed_case, run_toString_of, toString_of, lift, ret, throw.
  destruct (Legacy.legacy_case_id x) as [n|].
  2:{ unfold run_bind. by rewrite with_store_same. }
  unfold run_bind at 1. rewrite with_store_same.
  unfold run_bind at 1, run_gets at 1.
  destruct (select_cases_by_legacy (toString n) sd); [|reflexivity].
  destruct (List.find _ (Legacy.accounts lc)) as [acc|]; [|reflexivity].
  destruct (Legacy.legacy_account_id x) as [a|].
  2:{ unfold run_bind. by rewrite with_store_same. }
  unfold run_bind at 1. rewrite with_store_same.
  unfold run_bind at 1, run_gets at 1.
  destruct (select_users_by_legacy (toString a) sd); reflexivity.
Qed.

(** What one iteration of the loop of [seedCases] does. *)
Lemma seed_case_step c x sd :
  let r := seed_case T lc c x sd in
  beside_cases (snd r) = beside_cases sd
  /\ (exists new,
        case_rows (store (snd r)) = case_rows (store sd) ++ new
        /\ match new with
           | [] => snd r = sd
           | row :: more =>
               more = [] /\ row_tenant_id row = T
               /\ exists n, Legacy.legacy_case_id x = Some n
                            /\ row_legacy_id row = Some (toString n)
                            /\ select_cases_by_legacy (toString n) sd = []
           end
        /\ forall c', fst r = Normal c' ->
                      counted c' = S (counted c)
                      /\ inserted c' = inserted c + length new)
  /\ (forall c', fst r = Normal c' -> case_settled lc (snd r) x).
Proof.
  intros r. subst r. rewrite seed_case_run. unfold case_settled.
  assert (Hnone : forall (c0 : Completion CaseCounters),
            (forall c', c0 = Normal c' ->
                        counted c' = S (counted c) /\ inserted c' = inserted c + 0) ->
            exists new : list LegacyRow,
              case_rows (store sd) = case_rows (store sd) ++ new
              /\ match new with
                 | [] => sd = sd
                 | row :: more =>
                     more = [] /\ row_tenant_id row = T
                     /\ exists n, Legacy.legacy_case_id x = Some n
                                  /\ row_legacy_id row = Some (toString n)
                                  /\ select_cases_by_legacy (toString n) sd = []
                 end
              /\ forall c', c0 = Normal c' ->
                            counted c' = S (counted c)
                            /\ inserted c' = inserted c + length new).
  { intros c0 Hc0. exists []. rewrite app_nil_r. done. }
  destruct (Legacy.legacy_case_id x) as [n|] eqn:Hn.
  2:{ cbn [fst snd]. split; [done|]. split; [by apply Hnone|done]. }
  destruct (select_cases_by_legacy (toString n) sd) as [|e es] eqn:Hex.
  2:{ cbn [fst snd]. split; [done|]. split.
      - apply Hnone. intros c' [= <-]. unfold counted. simpl. lia.
      - intros c' _. exists n. split; [done|]. left. by rewrite Hex. }
  destruct (List.find _ (Legacy.accounts lc)) as [acc|] eqn:Hacc.
  2:{ cbn [fst snd]. split; [done|]. split.
      - apply Hnone. intros c' [= <-]. unfold counted. simpl. lia.
      - intros c' _. exists n. split; [done|]. right. by left. }
  destruct (Legacy.legacy_account_id x) as [a|] eqn:Ha.
  2:{ cbn [fst snd]. split; [done|]. split; [by apply Hnone|done]. }
  destruct (select_users_by_legacy (toString a) sd) as [|user users'] eqn:Hus.
  { cbn [fst snd]. split; [done|]. split.
    - apply Hnone. intros c' [= <-]. unfold counted. simpl. lia.
    - intros c' _. exists n. split; [done|]. right. right. by exists a. }
  cbn [fst snd].
  split; [reflexivity|]. split.
  - exists [case_row T (uuid_supply (store sd)) (toString n)].
    split; [reflexivity|]. split.
    + split; [reflexivity|]. split; [reflexivity|]. exists n. done.
    + intros c' [= <-]. unfold counted. simpl. lia.
  - intros c' _. exists n. split; [done|]. left.
    unfold select_cases_by_legacy in *.
    change (cases (dataSource (store (remember_case (toString n) (uuid_supply (store sd))
              (toString a) (row_id user)
              (insert_case T lc (uuid_supply (store sd)) (row_id user) (toString n) x
                 (with_store (fun _ => minted (store sd)) sd))))))
      with (cases (dataSource (store sd)) ++ [case_row T (uuid_supply (store sd)) (toString n)]).
    rewrite rows_of_legacy_app. unfold rows_of_legacy at 2.
    cbn [List.filter case_row row_legacy_id].
    rewrite bool_decide_eq_true_2 by done. by destruct (rows_of_legacy _ _).
Qed.

(** A case that is settled is passed over: nothing is written. *)
Lemma seed_case_settled c x sd :
  case_settled lc sd x ->
  exists c', seed_case T lc c x sd = (Normal c', sd)
             /\ inserted c' = inserted c /\ counted c' = S (counted c).
Proof.
  intros (n & Hn & Hwhy). rewrite seed_case_run, Hn.
  destruct (select_cases_by_legacy (toString n) sd) as [|e es] eqn:Hex.
  2:{ eexists. split; [reflexivity|]. unfold counted. simpl. lia. }
  destruct Hwhy as [?|[Hacc|(a & Ha & Hus)]]; [done| |].
  - rewrite Hacc. eexists. split; [reflexivity|]. unfold counted. simpl. lia.
  - destruct (List.find _ (Legacy.accounts lc)) as [acc|].
    2:{ eexists. split; [reflexivity|]. unfold counted. simpl. lia. }
    rewrite Ha, Hus.
    eexists. split; [reflexivity|]. unfold counted. simpl. lia.
Qed.

Lemma case_settled_later sd sd' x new :
  case_settled lc sd x ->
  case_rows (store sd') = case_rows (store sd) ++ new ->
  beside_cases sd' = beside_cases sd ->
  case_settled lc sd' x.
Proof.
  intros (n & Hn & Hwhy) Hrows Hbeside. exists n. split; [done|].
  unfold select_cases_by_legacy, select_users_by_legacy, case_rows in *.
  destruct Hwhy as [Hex|[Hacc|(a & Ha & Hus)]].
  - left. rewrite Hrows, rows_of_legacy_app.
    by destruct (rows_of_legacy (toString n) (cases (dataSource (store sd)))).
  - right. by left.
  - right. right. exists a. split; [done|].
    unfold beside_cases in Hbeside. injection Hbeside as -> _. done.
Qed.

(** The loop of [seedCases]. *)
Lemma seedCases_loop xs : forall c sd,
  let r := run_for_of xs (seed_case T lc) c sd in
  beside_cases (snd r) = beside_cases sd
  /\ (exists new,
        case_rows (store (snd r)) = case_rows (store sd) ++ new
        /\ Forall (fun row => row_tenant_id row = T) new
        /\ forall c', fst r = Normal c' ->
                      counted c' = counted c + length xs
                      /\ inserted c' = inserted c + length new)
  /\ (forall k,
        match rows_of_legacy k (case_rows (store sd)) with
        | [] => length (rows_of_legacy k (case_rows (store (snd r)))) <= 1
        | before => rows_of_legacy k (case_rows (store (snd r))) = before
        end)
  /\ (forall c', fst r = Normal c' -> Forall (case_settled lc (snd r)) xs).
Proof.
  induction xs as [|x xs IH]; intros c sd; cbv zeta.
  - unfold run_for_of, run_ret. cbn [fst snd]. split; [done|]. split.
    + exists []. rewrite app_nil_r. split; [done|]. split; [done|].
      intros c' [= <-]. simpl. lia.
    + split; [|done]. intros k.
      destruct (rows_of_legacy k (case_rows (store sd))); [simpl; lia | done].
  - rewrite run_for_of_cons.
    destruct (seed_case_step c x sd) as (Hb1 & (new1 & Hr1 & Hnew1 & Hc1) & Hs1).
    destruct (seed_case T lc c x sd) as [[c1|e] sd1]; cbn [fst snd] in *.
    2:{ split; [done|]. split.
        - exists new1. split; [done|]. split; [|done].
          destruct new1 as [|row more]; [done|].
          destruct Hnew1 as (-> & Ht & _). by repeat constructor.
        - split; [|done]. intros k. rewrite Hr1, rows_of_legacy_app.
          destruct new1 as [|row more].
          { rewrite app_nil_r.
            destruct (rows_of_legacy k (case_rows (store sd))); [simpl; lia | done]. }
          destruct Hnew1 as (-> & Ht & n & Hn & Hleg & Hex).
          unfold select_cases_by_legacy in Hex. fold (case_rows (store sd)) in Hex.
          rewrite rows_of_legacy_one, Hleg.
          case_bool_decide as Hk.
          + injection Hk as <-. rewrite Hex. simpl. lia.
          + rewrite app_nil_r.
            destruct (rows_of_legacy k (case_rows (store sd))); [simpl; lia | done]. }
    destruct (IH c1 sd1) as (Hb2 & (new2 & Hr2 & Hnew2 & Hc2) & Hk2 & Hs2).
    destruct (Hc1 c1 eq_refl) as [Hcount1 Hins1].
    split; [congruence|]. split; [|split].
    + exists (new1 ++ new2). rewrite Hr2, Hr1, app_assoc. split; [done|]. split.
      * apply Forall_app. split; [|done].
        destruct new1 as [|row more]; [done|].
        destruct Hnew1 as (-> & Ht & _). by repeat constructor.
      * intros c' Hc'. destruct (Hc2 c' Hc') as [-> ->].
        rewrite length_app. simpl. lia.
    + intros k. specialize (Hk2 k). rewrite Hr1, rows_of_legacy_app in Hk2.
      destruct new1 as [|row more].
      { by rewrite app_nil_r in Hk2. }
      destruct Hnew1 as (-> & Ht & n & Hn & Hleg & Hex).
      unfold select_cases_by_legacy in Hex. fold (case_rows (store sd)) in Hex.
      rewrite rows_of_legacy_one, Hleg in Hk2.
      case_bool_decide as Hk.
      * injection Hk as <-. rewrite Hex in *. cbn [app] in Hk2. rewrite Hk2.
        simpl. lia.
      * by rewrite app_nil_r in Hk2.
    + intros c' Hc'. constructor; [|by apply (Hs2 c')].
      apply (case_settled_later sd1 _ x new2); [by apply (Hs1 c1)|done|done].
Qed.

(** Running the loop over settled cases writes nothing. *)
Lemma seedCases_settled xs : forall c sd,
  Forall (case_settled lc sd) xs ->
  exists c', run_for_of xs (seed_case T lc) c sd = (Normal c', sd)
             /\ inserted c' = inserted c.
Proof.
  induction xs as [|x xs IH]; intros c sd Hall; [by eexists|].
  apply Forall_cons in Hall as [Hx Hxs].
  destruct (seed_case_settled c x sd Hx) as (c1 & E1 & Hi1 & _).
  rewrite run_for_of_cons, E1.
  destruct (IH c1 sd Hxs) as (c' & E' & Hi'). exists c'. split; [done|]. congruence.
Qed.

End SeedCases.

(** [seedCases] writes one table, [cases], and only adds rows of the tenant
    to it.  It never gives a legacy case id a second row: an id that had
    rows keeps exactly them, and an id that had none gets at most one.  When
    it completes, every extracted case was counted once, as inserted,
    skipped, without account or without user, and the cases table has grown
    by the number it reports as inserted. *)
Theorem seedCases_inserts_once (T : uuid) (lc : Legacy.Data) (sd : Seeder) :
  let r := seedCases T lc sd in
  beside_cases (snd r) = beside_cases sd
  /\ (exists new,
        case_rows (store (snd r)) = case_rows (store sd) ++ new
        /\ Forall (fun row => row_tenant_id row = T) new
        /\ forall c, fst r = Normal c ->
                     counted c = length (Legacy.cases lc)
                     /\ inserted c = length new)
  /\ (forall k,
        match rows_of_legacy k (case_rows (store sd)) with
        | [] => length (rows_of_legacy k (case_rows (store (snd r)))) <= 1
        | before => rows_of_legacy k (case_rows (store (snd r))) = before
        end).
Proof.
  intros r. subst r. unfold seedCases.
  destruct (seedCases_loop T lc (Legacy.cases lc)
              {| inserted := 0; skipped := 0; noAccountFound := 0; userNotImported := 0 |}
              sd) as (Hb & Hnew & Hk & _).
  split; [exact Hb|]. split; [exact Hnew | exact Hk].
Qed.

Lemma seedCases_inserts_once_witness :
  exists new,
    case_rows (store (snd (seedCases tenant1 example_cases example_seeder)))
    = case_rows (store example_seeder) ++ new
    /\ length new = 1.
Proof.
  destruct (seedCases_inserts_once tenant1 example_cases example_seeder)
    as (_ & (new & Hnew & _ & Hc) & _).
  exists new. split; [exact Hnew|].
  destruct (Hc {| inserted := 1; skipped := 1; noAccountFound := 1;
                  userNotImported := 1 |} eq_refl) as [_ Hi].
  symmetry. exact Hi.
Defined.

(** [seedCases] is idempotent: when a run has completed, a second run on
    its result inserts nothing and leaves the database as it is. *)
Theorem seedCases_again (T : uuid) (lc : Legacy.Data) (sd : Seeder) (c : CaseCounters) :
  fst (seedCases T lc sd) = Normal c ->
  exists c', seedCases T lc (snd (seedCases T lc sd))
             = (Normal c', snd (seedCases T lc sd))
             /\ inserted c' = 0.
Proof.
  intros Hrun. unfold seedCases in *.
  destruct (seedCases_loop T lc (Legacy.cases lc)
              {| inserted := 0; skipped := 0; noAccountFound := 0; userNotImported := 0 |}
              sd) as (_ & _ & _ & Hsettled).
  destruct (seedCases_settled T lc _
              {| inserted := 0; skipped := 0; noAccountFound := 0; userNotImported := 0 |}
              _ (Hsettled c Hrun)) as (c' & Hc' & Hi).
  exists c'. split; [exact Hc' | exact Hi].
Qed.

Lemma seedCases_again_witness :
  exists c c',
    fst (seedCases tenant1 example_cases example_seeder) = Normal c
    /\ (inserted c, skipped c, noAccountFound c, userNotImported c) = (1, 1, 1, 1)
    /\ seedCases tenant1 example_cases (snd (seedCases tenant1 example_cases example_seeder))
       = (Normal c', snd (seedCases tenant1 example_cases example_seeder))
    /\ inserted c' = 0.
Proof.
  eexists. 
  destruct (seedCases_again tenant1 example_cases example_seeder
              {| inserted := 1; skipped := 1; noAccountFound := 1; userNotImported := 1 |})
    as (c' & Hc' & Hi).
  - reflexivity.
  - exists c'. split; [reflexivity|]. split; [reflexivity|]. split; [exact Hc' | exact Hi].
Defined.

(** ** The full run of import-case-data.js *)

Lemma seed_writes_preorder clearExisting T : PreOrder (seed_writes clearExisting T).
Proof.
  split.
  - intros sd. unfold seed_writes. repeat (split; [reflexivity|]).
    destruct clearExisting; [done|]. repeat split; reflexivity.
  - intros sd1 sd2 sd3 (Hu1 & Hf1 & Hv1 & Ht1 & Hw1 & Hc1) (Hu2 & Hf2 & Hv2 & Ht2 & Hw2 & Hc2).
    unfold seed_writes.
    split; [congruence|]. split; [congruence|]. split; [congruence|].
    split; [congruence|]. split; [by etransitivity|].
    destruct clearExisting; [done|].
    destruct Hc1 as (Hc1 & Hg1 & Ho1), Hc2 as (Hc2 & Hg2 & Ho2).
    repeat split; by etransitivity.
Qed.
#[global] Existing Instance seed_writes_preorder.

Section RunPreserves.

Context (R : Seeder -> Seeder -> Prop) `{!PreOrder R}.

Lemma run_preserves_ret {A} (a : A) : run_preserves R (run_ret a).
Proof. intros sd. reflexivity. Qed.

Lemma run_preserves_bind {A B} (m : Run A) (k : A -> Run B) :
  run_preserves R m -> (forall a, run_preserves R (k a)) -> run_preserves R (run_bind m k).
Proof.
  intros Hm Hk sd. unfold run_bind. specialize (Hm sd).
  destruct (m sd) as [[a|e] sd1]; cbn [snd] in *; [|done].
  etransitivity; [exact Hm | apply Hk].
Qed.

End RunPreserves.

Section SeedWrites.

Context (clearExisting : bool) (T : uuid) (ld : LegacyData) (lc : Legacy.Data).

Lemma snapshot_append_only :
  preserves (append_only T) (seedWineInventoryEntriesFromCaseDetails T ld).
Proof.
  unfold append_only.
  repeat apply preserves_and;
    unfold seedWineInventoryEntriesFromCaseDetails, loadMappings,
      delete_snapshot_entries, seed_caseDetail;
    preserves_auto.
Qed.

Lemma lift_writes {A} (m : Async A) :
  preserves (append_only T) m -> run_preserves (seed_writes clearExisting T) (lift m).
Proof.
  intros Hm sd. unfold lift. specialize (Hm (store sd)).
  destruct (m (store sd)) as [c s']. cbn [snd] in *.
  destruct Hm as (Hu & Hc & Hf & Hv & Hg & Ho & Hw).
  unfold seed_writes, with_store. cbn [store tenants].
  repeat (split; [done|]).
  destruct clearExisting; [done|]. split; [|by split].
  exists []. by rewrite app_nil_r, Hc.
Qed.

Lemma assign_maps_writes : run_preserves (seed_writes clearExisting T) (assign_maps T).
Proof.
  intros sd. unfold assign_maps, run_modify. cbn [snd].
  change (seed_writes clearExisting T sd
            (with_store (fun s => s)
               {| store := store sd; tenants := tenants sd;
                  cases_columns := cases_columns sd;
                  operation_extras := operation_extras sd;
                  operations_requests := operations_requests sd;
                  this_caseIdMap := Some (getCaseIdMap T (store sd));
                  this_customerIdMap := Some (getCustomerIdMap T (store sd)) |})).
  unfold seed_writes, with_store. cbn [store tenants].
  repeat (split; [reflexivity|]).
  destruct clearExisting; [done|]. repeat split; reflexivity.
Qed.

Lemma seedCases_writes : run_preserves (seed_writes clearExisting T) (seedCases T lc).
Proof.
  intros sd. unfold seedCases.
  destruct (seedCases_loop T lc (Legacy.cases lc)
              {| inserted := 0; skipped := 0; noAccountFound := 0; userNotImported := 0 |}
              sd) as (Hb & (new & Hnew & HT & _) & _).
  unfold beside_cases in Hb.
  injection Hb as Hu Hw Hf Hv Hg Ho He Ht Hx Hr.
  unfold seed_writes, user_rows, format_rows, vintage_rows, appends, wine_rows,
    groups, operations.
  split; [done|]. split; [done|]. split; [done|]. split; [done|].
  split; [exists []; by rewrite app_nil_r|].
  destruct clearExisting; [done|].
  split; [by exists new|]. split; exists []; by rewrite app_nil_r.
Qed.

End SeedWrites.

Lemma clearExistingData_writes T :
  run_preserves (seed_writes true T) (clearExistingData T).
Proof.
  intros sd.
  pose proof (clearExistingData_fields T sd) as H. cbv zeta in H.
  destruct (clearExistingData T sd) as [c sd1]. cbn [fst snd] in *.
  destruct H as (_ & Hu & Hw & Hf & Hv & _ & _ & _ & _ & _ & _ & _ & _ & Ht & _).
  unfold seed_writes, user_rows, format_rows, vintage_rows, appends, wine_rows.
  split; [done|]. split; [done|]. split; [done|]. split; [done|].
  split; [|done]. exists []. by rewrite app_nil_r.
Qed.

(** The steps of [seed] after the tenant is there. *)
Lemma seed_steps_write clearExisting T ld lc :
  run_preserves (seed_writes clearExisting T)
    (run_bind (if clearExisting then clearExistingData T else run_ret tt) (fun _ =>
     run_bind (seedCases T lc) (fun _ =>
     run_bind (assign_maps T) (fun _ =>
     run_bind (lift (seedOperationGroups T ld)) (fun _ =>
     run_bind (assign_maps T) (fun _ =>
     lift (seedWineInventoryEntriesFromCaseDetails T ld))))))).
Proof.
  apply run_preserves_bind; [apply _| |intros _].
  { destruct clearExisting;
      [apply clearExistingData_writes | apply run_preserves_ret; apply _]. }
  apply run_preserves_bind; [apply _|apply seedCases_writes|intros _].
  apply run_preserves_bind; [apply _|apply assign_maps_writes|intros _].
  apply run_preserves_bind; [apply _| |intros _].
  { apply lift_writes, seedOperationGroups_append_only. }
  apply run_preserves_bind; [apply _|apply assign_maps_writes|intros _].
  apply lift_writes, snapshot_append_only.
Qed.

(** A method that starts with [createDefaultTenant]. *)
Lemma after_createDefaultTenant {A} (k : uuid -> Run A) clearExisting sd :
  (forall T, run_preserves (seed_writes clearExisting T) (k T)) ->
  let sd' := snd (run_bind (createDefaultTenant "Veritas002" "VERITAS-002") k sd) in
  exists T,
    getTenantByName "Veritas002" sd' = (Normal (Some T), sd')
    /\ match select_tenants "Veritas002" sd with
       | t :: _ => T = tenant_id t /\ tenants sd' = tenants sd
       | [] => tenants sd' = tenants sd ++ [veritas_tenant T]
       end
    /\ seed_writes clearExisting T (with_store (fun _ => store sd) sd')
         (with_store (fun _ => store sd') sd').
Proof.
  intros Hk. cbv zeta. unfold run_bind. rewrite createDefaultTenant_run.
  destruct (select_tenants "Veritas002" sd) as [|t ts] eqn:Hsel; cbv beta iota.
  - fold (veritas_tenant (uuid_supply (store sd))).
    specialize (Hk (uuid_supply (store sd))
                  (add_tenant (veritas_tenant (uuid_supply (store sd))) sd)).
    set (sd' := snd (k _ _)) in *.
    destruct Hk as (Hu & Hf & Hv & Ht & Hw & Hc).
    exists (uuid_supply (store sd)). split.
    { unfold getTenantByName, run_bind, run_gets, run_ret, select_tenants.
      rewrite Ht. unfold add_tenant. cbn [tenants].
      unfold select_tenants in Hsel. rewrite List.filter_app, Hsel.
      cbn [List.filter veritas_tenant tenant_name app].
      by rewrite bool_decide_eq_true_2. }
    split; [exact Ht|].
    unfold seed_writes, with_store. cbn [store tenants].
    split; [exact Hu|]. split; [exact Hf|]. split; [exact Hv|].
    split; [done|]. split; [exact Hw|]. exact Hc.
  - specialize (Hk (tenant_id t) sd).
    set (sd' := snd (k _ _)) in *.
    destruct Hk as (Hu & Hf & Hv & Ht & Hw & Hc).
    exists (tenant_id t). split.
    { unfold getTenantByName, run_bind, run_gets, run_ret.
      unfold select_tenants in *. by rewrite Ht, Hsel. }
    split; [by split|].
    unfold seed_writes, with_store. cbn [store tenants].
    split; [exact Hu|]. split; [exact Hf|]. split; [exact Hv|].
    split; [done|]. split; [exact Hw|]. exact Hc.
Qed.

(** Whatever its outcome, a run of [seed] works for one tenant, the first
    one named Veritas002, which it creates when there is none; this is the
    only row it adds to the tenants, and it removes none.  It never writes
    the users, the bottle formats or the bottle vintages, and never deletes
    or rewrites a wine: the wines keep their rows, in place, followed by
    new wines of the tenant.  Without --clear-existing the same holds of the
    cases, the operation groups and the case operations: a second run
    deletes and rewrites none of their rows. *)
Theorem seed_writes_for_its_tenant (ld : LegacyData) (lc : Legacy.Data)
    (clearExisting : bool) (sd : Seeder) :
  let sd' := snd (seed ld lc clearExisting sd) in
  exists T,
    getTenantByName "Veritas002" sd' = (Normal (Some T), sd')
    /\ match select_tenants "Veritas002" sd with
       | t :: _ => T = tenant_id t /\ tenants sd' = tenants sd
       | [] => tenants sd' = tenants sd ++ [veritas_tenant T]
       end
    /\ user_rows (store sd') = user_rows (store sd)
    /\ format_rows (store sd') = format_rows (store sd)
    /\ vintage_rows (store sd') = vintage_rows (store sd)
    /\ appends wine_rows (fun w => wine_tenant_id w = T) (store sd) (store sd')
    /\ if clearExisting then True
       else appends case_rows (fun r => row_tenant_id r = T) (store sd) (store sd')
            /\ appends groups (fun og => og_tenant_id og = T) (store sd) (store sd')
            /\ appends operations (fun co => co_tenant_id co = T) (store sd) (store sd').
Proof.
  cbv zeta. unfold seed.
  destruct (after_createDefaultTenant _ clearExisting sd
              (fun T => seed_steps_write clearExisting T ld lc))
    as (T & Hfind & Hten & Hw).
  exists T. split; [exact Hfind|]. split; [exact Hten|].
  destruct Hw as (Hu & Hf & Hv & _ & Hw & Hc).
  split; [exact Hu|]. split; [exact Hf|]. split; [exact Hv|]. split; [exact Hw|].
  exact Hc.
Qed.
